(** * Guide generator: a shallow embedding of [app.py]

    The program is a six-step Streamlit workflow: topic, SEO strategy,
    article draft, image plan, image upload, publish to WordPress.  The
    script is re-run from the top on every user action; one run is modelled
    as a function from the session state and that run's inputs (widget
    values, the button pressed, the answers of the two remote services) to
    the new session state, the messages shown and the requests sent.

    Text is a list of code points below 256, the Latin-1 range of Unicode:
    the classes [\w] and [\s], [str.lower], [str.strip] and the
    case-insensitive comparison of [re.IGNORECASE] are those of Python on
    that range, and every one of them stays within it.  Code points from
    256 on are outside the model.  Dictionary keys are [string]s. *)

From Stdlib Require Import ZArith Lia Ascii String List DecimalString.
From Stdlib Require DecimalZ.
From stdpp Require Import base option list strings gmap.

Import ListNotations.
Local Open Scope nat_scope.
Local Open Scope list_scope.
Set Warnings "-register-all".

(** ** Text and character classes *)

Abbreviation text := (list ascii).

Definition txt (s : string) : text := list_ascii_of_string s.

Definition code (c : ascii) : nat := nat_of_ascii c.

(** [lo <= ord(c) <= hi] *)
Definition in_range (lo hi : nat) (c : ascii) : bool :=
  (lo <=? code c) && (code c <=? hi).

(** The characters that [str.lower()] changes: the letters A to Z and, above
    127, the capital letters 192 to 214 and 216 to 222 (215 is the
    multiplication sign). *)
Definition is_upper (c : ascii) : bool :=
  in_range 65 90 c || in_range 192 214 c || in_range 216 222 c.

(** [str.lower()] on one character: a capital letter moves up by 32. *)
Definition lower_char (c : ascii) : ascii :=
  if is_upper c then ascii_of_nat (code c + 32) else c.

(** [str.lower()]. *)
Definition lower (s : text) : text := map lower_char s.

(** The class [\w] on a [str]: the alphanumeric characters of Unicode and the
    underscore.  Below 128 these are the digits, the letters and the
    underscore; above, the two ordinal indicators 170 and 186, the
    superscript digits 178, 179 and 185, the micro sign 181, the three
    fractions 188 to 190 and the letters 192 to 255 but the multiplication
    sign 215 and the division sign 247. *)
Definition is_word (c : ascii) : bool :=
  in_range 48 57 c || in_range 65 90 c || (code c =? 95) || in_range 97 122 c
  || (code c =? 170) || in_range 178 179 c || (code c =? 181)
  || in_range 185 186 c || in_range 188 190 c
  || in_range 192 214 c || in_range 216 246 c || in_range 248 255 c.

(** The class [\s] on a [str], and the whitespace of [str.strip()]: tab,
    newline, vertical tab, form feed, carriage return, the four separators
    0x1c to 0x1f, the space, the next-line control 0x85 and the no-break
    space 0xa0. *)
Definition is_space (c : ascii) : bool :=
  in_range 9 13 c || in_range 28 32 c || (code c =? 133) || (code c =? 160).

Definition is_hyphen (c : ascii) : bool := code c =? 45.

(** ** [re.sub] on the two patterns of [generate_seo_filename] *)

(** [re.sub(r'[cls]', '', s)]: every character of the class is deleted. *)
Fixpoint re_sub_delete (cls : ascii -> bool) (s : text) : text :=
  match s with
  | [] => []
  | c :: s' => if cls c then re_sub_delete cls s' else c :: re_sub_delete cls s'
  end.

(** [re.sub(r'[cls]+', repl, s)]: every maximal run of characters of the class
    is replaced by [repl].  [in_run] tells that the previous character was part
    of a run whose replacement is already written. *)
Fixpoint re_sub_runs_from (cls : ascii -> bool) (repl : text) (in_run : bool)
    (s : text) : text :=
  match s with
  | [] => []
  | c :: s' =>
      if cls c
      then (if in_run then [] else repl) ++ re_sub_runs_from cls repl true s'
      else c :: re_sub_runs_from cls repl false s'
  end.

Definition re_sub_runs (cls : ascii -> bool) (repl : text) (s : text) : text :=
  re_sub_runs_from cls repl false s.

(** ** The clock and number formatting *)

Record date := Date { year : nat; month : nat; day : nat }.

(** [f"{n}"] for a non-negative integer. *)
Definition str_of_nat (n : nat) : text :=
  txt (NilEmpty.string_of_uint (Nat.to_uint n)).

(** [f"{z}"] for an integer. *)
Definition str_of_Z (z : Z) : text :=
  txt (NilEmpty.string_of_int (Z.to_int z)).

(** Two-digit, zero-padded field of [strftime] ([%m], [%d]). *)
Definition pad2 (n : nat) : text :=
  if n <? 10 then txt "0" ++ str_of_nat n else str_of_nat n.

(** [strftime("%Y%m%d")]. *)
Definition strftime_Ymd (d : date) : text :=
  str_of_nat (year d) ++ pad2 (month d) ++ pad2 (day d).

(** ** [generate_seo_filename] *)

(** [[^\w\s-]] *)
Definition not_word_space_hyphen (c : ascii) : bool :=
  negb (is_word c || is_space c || is_hyphen c).

(** [[-\s]] *)
Definition hyphen_or_space (c : ascii) : bool := is_hyphen c || is_space c.

(** The stem: the text before the date stamp. *)
Definition seo_stem (text_ : text) : text :=
  let clean_text := re_sub_delete not_word_space_hyphen (lower text_) in
  let clean_text := re_sub_runs hyphen_or_space (txt "-") clean_text in
  take 50 clean_text.

Definition generate_seo_filename (now : date) (text_ : text) (index : Z) : text :=
  let clean_text := seo_stem text_ in
  let timestamp := strftime_Ymd now in
  clean_text ++ txt "-" ++ timestamp ++ txt "-" ++ str_of_Z index ++ txt ".webp".

(** ** A backtracking matcher for the regular expressions of the program

    The three patterns of the program are sequences of single-character
    tests, of greedy stars [.*] and of lazy stars [.*?] of a single-character
    test.  [match_here] follows the order in which Python's [re] explores
    the alternatives: a greedy star first tries one more character, a lazy star
    first tries the rest of the pattern.  It returns the text left after the
    match. *)

Inductive item :=
  | One (p : ascii -> bool)
  | Greedy (p : ascii -> bool)
  | Lazy (p : ascii -> bool).

Fixpoint match_here (items : list item) : text -> option text :=
  match items with
  | [] => fun s => Some s
  | One p :: r => fun s =>
      match s with
      | c :: s' => if p c then match_here r s' else None
      | [] => None
      end
  | Greedy p :: r =>
      fix go (s : text) : option text :=
        match s with
        | c :: s' =>
            if p c
            then match go s' with
                 | Some rest => Some rest
                 | None => match_here r s
                 end
            else match_here r s
        | [] => match_here r s
        end
  | Lazy p :: r =>
      fix go (s : text) : option text :=
        match match_here r s with
        | Some rest => Some rest
        | None =>
            match s with
            | c :: s' => if p c then go s' else None
            | [] => None
            end
        end
  end.

(** [re.search]: the match at the leftmost position where one exists, as the
    pair of [match.start()] and [match.end()]. *)
Fixpoint search_from (items : list item) (pos : nat) (s : text)
    : option (nat * nat) :=
  match match_here items s with
  | Some rest => Some (pos, pos + (length s - length rest))
  | None =>
      match s with
      | [] => None
      | _ :: s' => search_from items (S pos) s'
      end
  end.

Definition re_search (items : list item) (s : text) : option (nat * nat) :=
  search_from items 0 s.

(** [s[i:j]] for [0 <= i <= j]. *)
Definition slice (s : text) (i j : nat) : text := take (j - i) (drop i s).

(** [match.group()]. *)
Definition re_search_group (items : list item) (s : text) : option text :=
  match re_search items s with
  | Some (i, j) => Some (slice s i j)
  | None => None
  end.

Definition chr_is (x : ascii) (c : ascii) : bool := code c =? code x.

(** A literal character under [re.IGNORECASE]. *)
Definition chr_is_ci (x : ascii) (c : ascii) : bool :=
  code (lower_char c) =? code (lower_char x).

(** [.] under [re.DOTALL]. *)
Definition dot_all (c : ascii) : bool := true.

(** [.] without [re.DOTALL]: any character except the newline. *)
Definition dot (c : ascii) : bool := negb (code c =? 10).

(** A literal text under [re.IGNORECASE]; [re.escape] makes every character
    of the heading a literal. *)
Definition lit_ci (s : text) : list item := map (fun x => One (chr_is_ci x)) s.

(** [r'\{.*\}'] with [re.DOTALL]. *)
Definition json_pattern : list item :=
  [One (chr_is "{"%char); Greedy dot_all; One (chr_is "}"%char)].

(** [f"<h2>.*?{re.escape(heading)}.*?</h2>"] with [re.IGNORECASE]. *)
Definition heading_pattern (heading : text) : list item :=
  lit_ci (txt "<h2>") ++ [Lazy dot] ++ lit_ci heading ++ [Lazy dot]
  ++ lit_ci (txt "</h2>").

(** The text that the generation-service handlers pass to [json.loads]. *)
Definition extract_json (response : text) : option text :=
  re_search_group json_pattern response.

(** ** Python values held by the session

    The values of [article_data] and of the decoded answers: what
    [json.loads] produces.  A dictionary is the list of its bindings in
    insertion order, a later binding of a key overriding an earlier one. *)

Inductive json :=
  | JNull
  | JBool (b : bool)
  | JInt (n : Z)
  | JStr (s : text)
  | JList (l : list json)
  | JDict (d : list (string * json)).

Inductive exn :=
  | KeyError (k : string)
  | TypeError
  | AttributeError
  | JSONDecodeError
  | RequestException.

(** [d[k]] on the bindings of a dictionary: the last binding of [k]. *)
Fixpoint assoc_last (d : list (string * json)) (k : string) : option json :=
  match d with
  | [] => None
  | (k', v) :: d' =>
      match assoc_last d' k with
      | Some w => Some w
      | None => if String.eqb k' k then Some v else None
      end
  end.

(** [bool(v)]. *)
Definition truthy (v : json) : bool :=
  match v with
  | JNull => false
  | JBool b => b
  | JInt n => negb (n =? 0)%Z
  | JStr s => negb (Nat.eqb (length s) 0)
  | JList l => negb (Nat.eqb (length l) 0)
  | JDict d => negb (Nat.eqb (length d) 0)
  end.

(** [v[k]]: [KeyError] on a dictionary without the key; the other values do
    not take a text subscript. *)
Definition subscript (v : json) (k : string) : exn + json :=
  match v with
  | JDict d =>
      match assoc_last d k with
      | Some w => inr w
      | None => inl (KeyError k)
      end
  | _ => inl TypeError
  end.

(** [v.get(k, default)]: only dictionaries have [get]. *)
Definition dict_get (v : json) (k : string) (default : json) : exn + json :=
  match v with
  | JDict d =>
      match assoc_last d k with
      | Some w => inr w
      | None => inr default
      end
  | _ => inl AttributeError
  end.

(** ** The session, the outside world and one script run *)

Abbreviation bytes := (list Byte.byte).

(** An uploaded file of [st.file_uploader]. *)
Record upfile := UpFile { file_name : text; file_data : bytes }.

(** [st.session_state]: [step], [article_data], [images]. *)
Record session := Session {
  step : Z;
  article_data : gmap string json;
  images : list upfile
}.

(** The three prompts, by the values that are formatted into them. *)
Inductive prompt :=
  | SeoPrompt (topic keyword tone : text) (word_count : Z)
  | ArticlePrompt (title topic keyword focus_keyphrase : json) (tone : text)
      (word_count outline : json)
  | ImagePlanPrompt (title content_head keyword : json).

(** The JSON body of the post-creation request. *)
Record post_data := PostData {
  pd_title : json;
  pd_content : json;
  pd_status : text;
  pd_slug : json;
  pd_meta_description : json;
  pd_categories : list json;
  pd_tags : list json;
  pd_featured_media : json
}.

(** The requests of [requests.post] and [requests.get], by base URL,
    resource and payload. *)
Inductive request :=
  | PostMedia (wp_url filename : text) (data : bytes) (wp_user wp_pass : text)
  | PostMediaAlt (wp_url : text) (media_id : json) (alt_text : text)
      (wp_user wp_pass : text)
  | GetCategories (wp_url : text)
  | GetTags (wp_url : text)
  | PostPost (wp_url : text) (body : post_data) (wp_user wp_pass : text).

(** What a request gives back: an exception of the HTTP client, or a
    response with its status code and its body ([None] when
    [response.json()] raises). *)
Inductive reply :=
  | NetworkError
  | Response (status_code : Z) (body : option json).

(** The world of one run: the secrets, the clock, and the answers of the
    generation service, of the image library and of the CMS. *)
Record env := Env {
  secrets : gmap string text;
  now : date;
  generate_content : prompt -> option text;
  image_to_webp : upfile -> option bytes;
  http : request -> reply
}.

(** What a run shows and sends. *)
Inductive event :=
  | StError (what : string)
  | StWarning (what : string)
  | StSuccess (what : string)
  | StCode (body : text)
  | Called (p : prompt)
  | Sent (r : request).

(** How a run ends early: [st.rerun()], [st.stop()], or an exception that
    nothing catches (Streamlit shows it in the page and ends the run).  The
    first two are not instances of [Exception]: no [except Exception]
    catches them. *)
Inductive halt :=
  | Rerun
  | Stop
  | Raise (e : exn).

Inductive res (A : Type) :=
  | Ok (a : A)
  | Halt (h : halt).
Arguments Ok {A} a.
Arguments Halt {A} h.

(** A computation on the session: the state it leaves, what it showed and
    sent, and its value or the way it ended.  The state written before an
    exception stays written. *)
Definition M (A : Type) : Type := session -> session * list event * res A.

Definition ret {A} (a : A) : M A := fun s => (s, [], Ok a).

Definition bind {A B} (m : M A) (f : A -> M B) : M B := fun s =>
  match m s with
  | (s1, l1, Ok a) =>
      match f a s1 with
      | (s2, l2, r) => (s2, l1 ++ l2, r)
      end
  | (s1, l1, Halt h) => (s1, l1, Halt h)
  end.

Notation "x <- m ;; k" := (bind m (fun x => k))
  (at level 100, m at next level, right associativity).
Notation "m ;;; k" := (bind m (fun _ => k))
  (at level 100, right associativity).

Definition get : M session := fun s => (s, [], Ok s).
Definition emit (e : event) : M unit := fun s => (s, [e], Ok tt).
Definition halt_with {A} (h : halt) : M A := fun s => (s, [], Halt h).
Definition raise {A} (e : exn) : M A := halt_with (Raise e).
Definition st_rerun {A} : M A := halt_with Rerun.
Definition st_stop {A} : M A := halt_with Stop.

Definition set_step (n : Z) : M unit := fun s =>
  (Session n (article_data s) (images s), [], Ok tt).
Definition set_article (a : gmap string json) : M unit := fun s =>
  (Session (step s) a (images s), [], Ok tt).
Definition set_images (fs : list upfile) : M unit := fun s =>
  (Session (step s) (article_data s) fs, [], Ok tt).

(** [article_data[k] = v] *)
Definition store (k : string) (v : json) : M unit := fun s =>
  (Session (step s) (<[k := v]> (article_data s)) (images s), [], Ok tt).

(** [try: m  except Exception as e: handler e] *)
Definition try_except {A} (m : M A) (handler : exn -> M A) : M A := fun s =>
  match m s with
  | (s1, l1, Halt (Raise e)) =>
      match handler e s1 with
      | (s2, l2, r) => (s2, l1 ++ l2, r)
      end
  | r => r
  end.

(** A value that may raise, inside a computation. *)
Definition lift {A} (x : exn + A) : M A :=
  match x with
  | inl e => raise e
  | inr a => ret a
  end.

(** [article_data[k]] *)
Definition load (k : string) : M json :=
  s <- get ;;
  match article_data s !! k with
  | Some v => ret v
  | None => raise (KeyError k)
  end.

(** [article_data.get(k, default)] *)
Definition load_or (k : string) (default : json) : M json :=
  s <- get ;;
  match article_data s !! k with
  | Some v => ret v
  | None => ret default
  end.

(** ** Python operations on values *)

(** [x.lower()], [re.escape(x)], [re.search(p, x)]: text only. *)
Definition as_str (e : exn) (v : json) : exn + text :=
  match v with
  | JStr s => inr s
  | _ => inl e
  end.

(** The keys of a dictionary, each once, in the order of first insertion. *)
Fixpoint dict_keys (seen : list string) (d : list (string * json)) : list string :=
  match d with
  | [] => []
  | (k, _) :: d' =>
      if existsb (String.eqb k) seen then dict_keys seen d'
      else k :: dict_keys (k :: seen) d'
  end.

(** [iter(v)]: the elements of a list, the characters of a text, the keys
    of a dictionary. *)
Definition py_iter (v : json) : exn + list json :=
  match v with
  | JList l => inr l
  | JStr s => inr (map (fun c => JStr [c]) s)
  | JDict d => inr (map (fun k => JStr (txt k)) (dict_keys [] d))
  | _ => inl TypeError
  end.

(** [len(v)] *)
Definition py_len (v : json) : exn + nat :=
  match v with
  | JList l => inr (length l)
  | JStr s => inr (length s)
  | JDict d => inr (length (dict_keys [] d))
  | _ => inl TypeError
  end.

(** [v[:n]] *)
Definition py_head (n : nat) (v : json) : exn + json :=
  match v with
  | JStr s => inr (JStr (take n s))
  | JList l => inr (JList (take n l))
  | _ => inl TypeError
  end.

(** [s.split(',')] *)
Fixpoint split_from (sep : ascii) (cur : text) (s : text) : list text :=
  match s with
  | [] => [rev cur]
  | c :: s' =>
      if code c =? code sep then rev cur :: split_from sep [] s'
      else split_from sep (c :: cur) s'
  end.

Definition split (sep : ascii) (s : text) : list text := split_from sep [] s.

Fixpoint lstrip (s : text) : text :=
  match s with
  | c :: s' => if is_space c then lstrip s' else s
  | [] => []
  end.

(** [s.strip()] *)
Definition strip (s : text) : text := rev (lstrip (rev (lstrip s))).

(** [[c.strip() for c in s.split(',')]] *)
Definition split_strip (s : text) : json :=
  JList (map (fun c => JStr (strip c)) (split ","%char s)).

(** [s] starts with [p]: what is left of [s] after [p]. *)
Fixpoint strip_prefix (p s : text) : option text :=
  match p, s with
  | [], _ => Some s
  | x :: p', c :: s' => if code c =? code x then strip_prefix p' s' else None
  | _ :: _, [] => None
  end.

(** [re.sub(fence + r'\n?', '', s)] for a literal, non-empty [fence]: each
    occurrence, with the newline that may follow it, is deleted, scanning from the
    left. [n] bounds the scan by the length of the text. *)
Fixpoint remove_fence (fence : text) (n : nat) (s : text) : text :=
  match n with
  | O => s
  | S n' =>
      match strip_prefix fence s with
      | Some rest =>
          match rest with
          | c :: rest' =>
              if code c =? 10 then remove_fence fence n' rest'
              else remove_fence fence n' rest
          | [] => []
          end
      | None =>
          match s with
          | c :: s' => c :: remove_fence fence n' s'
          | [] => []
          end
      end
  end.

Definition tick3 : text := txt "```".

(** The clean-up of the article answer in step 3. *)
Definition clean_response (response : text) : text :=
  let content := strip response in
  let content := remove_fence (tick3 ++ txt "html") (S (length content)) content in
  remove_fence tick3 (S (length content)) content.

(** [article_data.update(seo_data)]: a JSON text that starts with a brace
    decodes to a dictionary; any other value is refused. *)
Definition dict_update (a : gmap string json) (v : json) : exn + gmap string json :=
  match v with
  | JDict d => inr (fold_left (fun m kv => <[fst kv := snd kv]> m) d a)
  | _ => inl TypeError
  end.

(** ** The helper functions of the script *)

Definition nonempty (s : text) : bool := negb (Nat.eqb (length s) 0).

(** [st.secrets[k]] *)
Definition secret (E : env) (k : string) : M text :=
  match secrets E !! k with
  | Some v => ret v
  | None => raise (KeyError k)
  end.

Definition convert_to_webp (E : env) (image_file : upfile) : M (option bytes) :=
  match image_to_webp E image_file with
  | Some output => ret (Some output)
  | None => emit (StError "Error converting image") ;;; ret None
  end.

Definition call_gemini (E : env) (p : prompt) : M (option text) :=
  emit (Called p) ;;;
  match generate_content E p with
  | Some response => ret (Some response)
  | None => emit (StError "Gemini API Error") ;;; ret None
  end.

(** [requests.post] or [requests.get]: the request is sent; a failure of
    the client raises. *)
Definition send (E : env) (r : request) : M (Z * option json) :=
  emit (Sent r) ;;;
  match http E r with
  | NetworkError => raise RequestException
  | Response status_code body => ret (status_code, body)
  end.

(** [response.json()] *)
Definition response_json (body : option json) : M json :=
  match body with
  | Some v => ret v
  | None => raise JSONDecodeError
  end.

Definition upload_to_wordpress (E : env) (image_data : bytes)
    (filename alt_text : text) : M (option json) :=
  wp_url <- secret E "WP_URL" ;;
  wp_user <- secret E "WP_USERNAME" ;;
  wp_pass <- secret E "WP_APP_PASSWORD" ;;
  try_except
    (response <- send E (PostMedia wp_url filename image_data wp_user wp_pass) ;;
     if (fst response =? 201)%Z
     then
       media_data <- response_json (snd response) ;;
       media_id <- lift (subscript media_data "id") ;;
       send E (PostMediaAlt wp_url media_id alt_text wp_user wp_pass) ;;;
       ret (Some media_data)
     else
       emit (StError "WordPress upload failed") ;;; ret None)
    (fun _ => emit (StError "Error uploading to WordPress") ;;; ret None).

Definition create_wordpress_post (E : env) (title content meta_desc slug : json)
    (categories tags : list json) (featured_image_id : json) : M (option json) :=
  wp_url <- secret E "WP_URL" ;;
  wp_user <- secret E "WP_USERNAME" ;;
  wp_pass <- secret E "WP_APP_PASSWORD" ;;
  let post_data :=
    PostData title content (txt "draft") slug meta_desc categories tags
      featured_image_id in
  try_except
    (response <- send E (PostPost wp_url post_data wp_user wp_pass) ;;
     if (fst response =? 201)%Z
     then
       post <- response_json (snd response) ;;
       ret (Some post)
     else
       emit (StError "WordPress post creation failed") ;;; ret None)
    (fun _ => emit (StError "Error creating WordPress post") ;;; ret None).

(** One entry of [{cat['name']: cat['id'] for cat in response.json()}].  The
    names of the CMS are texts; an entry whose name is another hashable value
    can match no text and is left out; a name that cannot be hashed raises. *)
Definition name_id (entry : json) : exn + option (text * json) :=
  match subscript entry "name", subscript entry "id" with
  | inl e, _ => inl e
  | _, inl e => inl e
  | inr (JStr name), inr id => inr (Some (name, id))
  | inr (JList _), inr _ => inl TypeError
  | inr (JDict _), inr _ => inl TypeError
  | inr _, inr _ => inr None
  end.

Fixpoint name_ids (entries : list json) : exn + list (text * json) :=
  match entries with
  | [] => inr []
  | entry :: rest =>
      match name_id entry, name_ids rest with
      | inl e, _ => inl e
      | _, inl e => inl e
      | inr (Some kv), inr kvs => inr (kv :: kvs)
      | inr None, inr kvs => inr kvs
      end
  end.

(** [get_wp_categories] and [get_wp_tags]: the names and ids of the CMS, or
    nothing on any failure.  The base URL is read before the [try]. *)
Definition get_wp_names (E : env) (r : text -> request) : M (list (text * json)) :=
  wp_url <- secret E "WP_URL" ;;
  try_except
    (response <- send E (r wp_url) ;;
     if (fst response =? 200)%Z
     then
       body <- response_json (snd response) ;;
       entries <- lift (py_iter body) ;;
       lift (name_ids entries)
     else ret [])
    (fun _ => ret []).

Definition get_wp_categories (E : env) := get_wp_names E GetCategories.
Definition get_wp_tags (E : env) := get_wp_names E GetTags.

(** ** Step 6: publish *)

Fixpoint text_eqb (a b : text) : bool :=
  match a, b with
  | [], [] => true
  | x :: a', y :: b' => (code x =? code y) && text_eqb a' b'
  | _, _ => false
  end.

(** [names[name]] in the dictionary built from the bindings [kvs]. *)
Fixpoint lookup_name (kvs : list (text * json)) (name : text) : option json :=
  match kvs with
  | [] => None
  | (k, v) :: kvs' =>
      match lookup_name kvs' name with
      | Some w => Some w
      | None => if text_eqb k name then Some v else None
      end
  end.

(** The loop [for cat in ...: if cat in known: ids.append(known[cat])]. *)
Fixpoint resolve_ids (known : list (text * json)) (names : list json)
    : exn + list json :=
  match names with
  | [] => inr []
  | JStr name :: rest =>
      match resolve_ids known rest with
      | inl e => inl e
      | inr ids =>
          match lookup_name known name with
          | Some id => inr (id :: ids)
          | None => inr ids
          end
      end
  | JList _ :: _ => inl TypeError
  | JDict _ :: _ => inl TypeError
  | _ :: rest => resolve_ids known rest
  end.

(** An entry of [wp_images]. *)
Record wp_image := WpImage {
  wi_id : json;
  wi_url : json;
  wi_alt : text;
  wi_caption : json;
  wi_position : json;
  wi_section_heading : json
}.

Definition newline : text := ["010"%char].
Definition dquote : text := ["034"%char].

(** The splice of [img_html] at [insert_pos]. *)
Definition insert_at (insert_pos : nat) (img_html content : text) : text :=
  take insert_pos content ++ img_html ++ drop insert_pos content.

(** The search of the heading and the splice, on texts. *)
Definition splice_heading (content heading img_html : text) : text :=
  match re_search (heading_pattern heading) content with
  | Some (_, insert_pos) => insert_at insert_pos img_html content
  | None => content
  end.

Section Script.

(** [json.loads], [None] when it raises, and [str] of a list or of a
    dictionary: two functions of the Python library. *)
Variable json_loads : text -> option json.
Variable container_str : json -> text.

(** [f"{v}"] *)
Definition py_str (v : json) : text :=
  match v with
  | JNull => txt "None"
  | JBool true => txt "True"
  | JBool false => txt "False"
  | JInt n => str_of_Z n
  | JStr s => s
  | _ => container_str v
  end.

(** The figure block of an uploaded image. *)
Definition img_html (img : wp_image) : text :=
  let html :=
    newline ++ txt "<figure class=" ++ dquote ++ txt "wp-block-image" ++ dquote
    ++ txt "><img src=" ++ dquote ++ py_str (wi_url img) ++ dquote
    ++ txt " alt=" ++ dquote ++ wi_alt img ++ dquote ++ txt " />" in
  let html :=
    if truthy (wi_caption img)
    then html ++ txt "<figcaption>" ++ py_str (wi_caption img) ++ txt "</figcaption>"
    else html in
  html ++ txt "</figure>" ++ newline.

(** The body of the loop over [wp_images[1:]]. *)
Definition splice_image (content : json) (img : wp_image) : exn + json :=
  if truthy (wi_section_heading img)
  then
    match as_str TypeError (wi_section_heading img), as_str TypeError content with
    | inl e, _ => inl e
    | _, inl e => inl e
    | inr heading, inr c => inr (JStr (splice_heading c heading (img_html img)))
    end
  else inr content.

Fixpoint splice_images (content : json) (imgs : list wp_image) : exn + json :=
  match imgs with
  | [] => inr content
  | img :: rest =>
      match splice_image content img with
      | inl e => inl e
      | inr content' => splice_images content' rest
      end
  end.

(** The body of the loop over the uploaded files and their descriptors:
    conversion, file name, upload, and the entry appended to [wp_images]
    when all succeeded. *)
Definition process_image (E : env) (idx : Z) (img_file : upfile) (img_data : json)
    : M (option wp_image) :=
  webp_data <- convert_to_webp E img_file ;;
  match webp_data with
  | Some webp =>
      alt_text <- lift (subscript img_data "alt_text") ;;
      alt_text <- lift (as_str AttributeError alt_text) ;;
      let filename := generate_seo_filename (now E) alt_text idx in
      media <- upload_to_wordpress E webp filename alt_text ;;
      match media with
      | Some media =>
          if truthy media
          then
            media_id <- lift (subscript media "id") ;;
            source_url <- lift (subscript media "source_url") ;;
            caption <- lift (dict_get img_data "caption" (JStr [])) ;;
            position <- lift (dict_get img_data "position" JNull) ;;
            section_heading <- lift (dict_get img_data "section_heading" JNull) ;;
            emit (StSuccess "Image uploaded") ;;;
            ret (Some (WpImage media_id source_url alt_text caption position
                         section_heading))
          else emit (StError "Failed to upload image") ;;; ret None
      | None => emit (StError "Failed to upload image") ;;; ret None
      end
  | None => ret None
  end.

(** [for idx, (img_file, img_data) in enumerate(zip(...), 1)] *)
Fixpoint process_images (E : env) (idx : Z) (pairs : list (upfile * json))
    : M (list wp_image) :=
  match pairs with
  | [] => ret []
  | (img_file, img_data) :: rest =>
      uploaded <- process_image E idx img_file img_data ;;
      wp_images <- process_images E (idx + 1) rest ;;
      ret (match uploaded with
           | Some img => img :: wp_images
           | None => wp_images
           end)
  end.

(** [wp_images[0]['id'] if wp_images else 0] *)
Definition featured_image_id (wp_images : list wp_image) : json :=
  match wp_images with
  | img :: _ => wi_id img
  | [] => JInt 0
  end.

(** What is shown of the created post; the button to start a new article
    is drawn in this run and so is not pressed in it. *)
Definition show_post (post : json) : M unit :=
  emit (StSuccess "Article published as DRAFT on WordPress!") ;;;
  title <- lift (subscript post "title") ;;
  lift (subscript title "rendered") ;;;
  lift (subscript post "status") ;;;
  link <- lift (subscript post "link") ;;
  lift (as_str AttributeError link) ;;;
  ret tt.

(** The body of [if st.button("Upload Draft to WordPress")]. *)
Definition publish (E : env) : M unit :=
  plan <- load "image_plan" ;;
  s <- get ;;
  let uploaded_images := images s in
  plan_images <- lift (subscript plan "images") ;;
  plan_images <- lift (py_iter plan_images) ;;
  wp_images <- process_images E 1 (combine uploaded_images plan_images) ;;
  content <- load "content" ;;
  let featured := featured_image_id wp_images in
  content <- lift (splice_images content (tail wp_images)) ;;
  wp_categories <- get_wp_categories E ;;
  wp_tags <- get_wp_tags E ;;
  categories <- load_or "categories" (JList []) ;;
  categories <- lift (py_iter categories) ;;
  category_ids <- lift (resolve_ids wp_categories categories) ;;
  tags <- load_or "tags" (JList []) ;;
  tags <- lift (py_iter tags) ;;
  tag_ids <- lift (resolve_ids wp_tags tags) ;;
  title <- load "title" ;;
  meta_desc <- load "meta_description" ;;
  slug <- load "slug" ;;
  post <- create_wordpress_post E title content meta_desc slug category_ids
            tag_ids featured ;;
  match post with
  | Some post =>
      if truthy post then show_post post
      else emit (StError "Failed to create WordPress post")
  | None => emit (StError "Failed to create WordPress post")
  end.

(** ** The inputs of a run *)

(** The buttons.  A run is started by at most one of them. *)
Inductive button :=
  | BtnForward   (* the submit or forward button of steps 1 to 5 *)
  | BtnBack      (* the back button of steps 2 to 5 *)
  | BtnPublish   (* "Upload Draft to WordPress" *)
  | BtnReset.    (* "Reset App", in the sidebar *)

Definition button_eqb (a b : button) : bool :=
  match a, b with
  | BtnForward, BtnForward | BtnBack, BtnBack
  | BtnPublish, BtnPublish | BtnReset, BtnReset => true
  | _, _ => false
  end.

(** The values of the widgets in a run. *)
Record inputs := Inputs {
  clicked : option button;
  in_topic : text;
  in_keyword : text;
  in_tone : text;
  in_word_count : Z;
  in_title : text;
  in_meta_desc : text;
  in_slug : text;
  in_focus : text;
  in_outline_text : text;
  in_categories : text;
  in_tags : text;
  in_edited_content : text;
  in_uploaded_files : list upfile
}.

Definition pressed (I : inputs) (b : button) : bool :=
  match clicked I with
  | Some b' => button_eqb b' b
  | None => false
  end.

(** [json.loads(t)] *)
Definition loads (t : text) : M json :=
  match json_loads t with
  | Some v => ret v
  | None => raise JSONDecodeError
  end.

(** ** Step 1: topic and keyword *)

Definition step1 (E : env) (I : inputs) : M unit :=
  if pressed I BtnForward && nonempty (in_topic I) && nonempty (in_keyword I)
  then
    response <- call_gemini E
      (SeoPrompt (in_topic I) (in_keyword I) (in_tone I) (in_word_count I)) ;;
    match response with
    | Some response =>
        if nonempty response
        then
          try_except
            (match extract_json response with
             | Some group =>
                 seo_data <- loads group ;;
                 s <- get ;;
                 merged <- lift (dict_update (article_data s) seo_data) ;;
                 set_article merged ;;;
                 store "topic" (JStr (in_topic I)) ;;;
                 store "keyword" (JStr (in_keyword I)) ;;;
                 store "tone" (JStr (in_tone I)) ;;;
                 store "word_count" (JInt (in_word_count I)) ;;;
                 set_step 2 ;;;
                 st_rerun
             | None => ret tt
             end)
            (fun _ =>
               emit (StError "Error parsing response") ;;;
               emit (StCode response))
        else ret tt
    | None => ret tt
    end
  else ret tt.

(** ** Step 2: review of the strategy *)

(** [", ".join(v)]: the elements must be texts. *)
Definition join_check (v : json) : exn + unit :=
  match py_iter v with
  | inl e => inl e
  | inr l =>
      if forallb (fun x => match x with JStr _ => true | _ => false end) l
      then inr tt else inl TypeError
  end.

Definition step2 (E : env) (I : inputs) : M unit :=
  suggested <- load_or "suggested_categories" (JList []) ;;
  lift (join_check suggested) ;;;
  suggested <- load_or "suggested_tags" (JList []) ;;
  lift (join_check suggested) ;;;
  (if pressed I BtnBack
   then set_step 1 ;;; st_rerun
   else ret tt) ;;;
  if pressed I BtnForward
  then
    store "title" (JStr (in_title I)) ;;;
    store "meta_description" (JStr (in_meta_desc I)) ;;;
    store "slug" (JStr (in_slug I)) ;;;
    store "focus_keyphrase" (JStr (in_focus I)) ;;;
    outline <- loads (in_outline_text I) ;;
    store "outline" outline ;;;
    store "categories" (split_strip (in_categories I)) ;;;
    store "tags" (split_strip (in_tags I)) ;;;
    set_step 3 ;;;
    st_rerun
  else ret tt.

(** ** Step 3: the article *)

(** [word_count * 0.8]: a number is needed. *)
Definition number_check (v : json) : exn + unit :=
  match v with
  | JInt _ | JBool _ => inr tt
  | _ => inl TypeError
  end.

Definition generate_article (E : env) : M unit :=
  title <- load "title" ;;
  topic <- load "topic" ;;
  keyword <- load "keyword" ;;
  focus <- load "focus_keyphrase" ;;
  tone <- load "tone" ;;
  word_count <- load "word_count" ;;
  outline <- load "outline" ;;
  tone <- lift (as_str AttributeError tone) ;;
  response <- call_gemini E
    (ArticlePrompt title topic keyword focus (lower tone) word_count outline) ;;
  match response with
  | Some response =>
      if nonempty response
      then store "content" (JStr (clean_response response))
      else ret tt
  | None => ret tt
  end.

Definition step3 (E : env) (I : inputs) : M unit :=
  s <- get ;;
  (match article_data s !! "content" with
   | None => generate_article E
   | Some _ => ret tt
   end) ;;;
  load "title" ;;;
  load "meta_description" ;;;
  store "content" (JStr (in_edited_content I)) ;;;
  keyword <- load "keyword" ;;
  lift (as_str AttributeError keyword) ;;;
  title <- load "title" ;;
  lift (as_str AttributeError title) ;;;
  meta_desc <- load "meta_description" ;;
  lift (as_str AttributeError meta_desc) ;;;
  word_count <- load "word_count" ;;
  lift (number_check word_count) ;;;
  (if pressed I BtnBack
   then set_step 2 ;;; st_rerun
   else ret tt) ;;;
  if pressed I BtnForward
  then set_step 4 ;;; st_rerun
  else ret tt.

(** ** Step 4: the image plan *)

Definition plan_images_call (E : env) : M unit :=
  title <- load "title" ;;
  content <- load "content" ;;
  content_head <- lift (py_head 2000 content) ;;
  keyword <- load "keyword" ;;
  response <- call_gemini E (ImagePlanPrompt title content_head keyword) ;;
  match response with
  | Some response =>
      if nonempty response
      then
        try_except
          (match extract_json response with
           | Some group =>
               image_plan <- loads group ;;
               store "image_plan" image_plan
           | None => ret tt
           end)
          (fun _ => emit (StError "Error parsing image plan"))
      else ret tt
  | None => ret tt
  end.

(** What the page reads of one descriptor to draw it. *)
Definition show_descriptor (img : json) : exn + unit :=
  match dict_get img "position" (JStr (txt "Unknown")) with
  | inl e => inl e
  | inr position =>
      match as_str AttributeError position,
            subscript img "prompt", subscript img "alt_text" with
      | inl e, _, _ => inl e
      | _, inl e, _ => inl e
      | _, _, inl e => inl e
      | inr _, inr _, inr _ => inr tt
      end
  end.

Fixpoint show_descriptors (imgs : list json) : exn + unit :=
  match imgs with
  | [] => inr tt
  | img :: rest =>
      match show_descriptor img with
      | inl e => inl e
      | inr _ => show_descriptors rest
      end
  end.

Definition step4 (E : env) (I : inputs) : M unit :=
  s <- get ;;
  (match article_data s !! "image_plan" with
   | None => plan_images_call E
   | Some _ => ret tt
   end) ;;;
  s <- get ;;
  match article_data s !! "image_plan" with
  | Some plan =>
      plan_images <- lift (subscript plan "images") ;;
      plan_images <- lift (py_iter plan_images) ;;
      lift (show_descriptors plan_images) ;;;
      (if pressed I BtnBack
       then set_step 3 ;;; st_rerun
       else ret tt) ;;;
      if pressed I BtnForward
      then set_step 5 ;;; st_rerun
      else ret tt
  | None => ret tt
  end.

(** ** Step 5: the upload gate *)

Definition step5 (E : env) (I : inputs) : M unit :=
  plan <- load_or "image_plan" (JDict []) ;;
  plan_images <- lift (dict_get plan "images" (JList [])) ;;
  images_needed <- lift (py_len plan_images) ;;
  let uploaded_files := in_uploaded_files I in
  (if negb (Nat.eqb (length uploaded_files) 0)
   then
     if negb (Nat.eqb (length uploaded_files) images_needed)
     then emit (StWarning "Please upload exactly the planned number of images")
     else
       emit (StSuccess "All images uploaded!") ;;;
       set_images uploaded_files
   else ret tt) ;;;
  (if pressed I BtnBack
   then set_step 4 ;;; st_rerun
   else ret tt) ;;;
  let disabled := negb (Nat.eqb (length uploaded_files) images_needed) in
  if pressed I BtnForward && negb disabled
  then set_step 6 ;;; st_rerun
  else ret tt.

(** ** Step 6 *)

Definition step6 (E : env) (I : inputs) : M unit :=
  if pressed I BtnPublish then publish E else ret tt.

(** ** One run of the script *)

(** The start of the script: the credential of the generation service is
    read; when that raises, the error is shown and the run stops. *)
Definition configure (E : env) : M unit :=
  try_except
    (secret E "GEMINI_API_KEY" ;;; ret tt)
    (fun _ => emit (StError "Error configuring Gemini API") ;;; st_stop).

Definition sidebar (I : inputs) : M unit :=
  if pressed I BtnReset
  then set_step 1 ;;; set_article ∅ ;;; set_images [] ;;; st_rerun
  else ret tt.

Definition stage (E : env) (I : inputs) : M unit :=
  s <- get ;;
  if (step s =? 1)%Z then step1 E I
  else if (step s =? 2)%Z then step2 E I
  else if (step s =? 3)%Z then step3 E I
  else if (step s =? 4)%Z then step4 E I
  else if (step s =? 5)%Z then step5 E I
  else if (step s =? 6)%Z then step6 E I
  else ret tt.

Definition run (E : env) (I : inputs) : M unit :=
  configure E ;;;
  stage E I ;;;
  sidebar I.

End Script.

(** The session of a fresh browser tab. *)
Definition initial_session : session := Session 1 ∅ [].

(** ** Vocabulary of the statements *)

(** The characters a file-name stem is made of: the word characters that
    [str.lower()] leaves as they are, and the hyphen. *)
Definition stem_char (c : ascii) : bool :=
  (is_word c && (code (lower_char c) =? code c)) || is_hyphen c.

(** No hyphen is followed by a hyphen. *)
Fixpoint single_hyphens (s : text) : bool :=
  match s with
  | a :: s' =>
      match s' with
      | b :: _ => negb (is_hyphen a && is_hyphen b) && single_hyphens s'
      | [] => true
      end
  | [] => true
  end.

(** The word characters of a text, in order. *)
Definition word_chars (s : text) : text := List.filter is_word s.

(** The first character, if any, is not a hyphen. *)
Definition no_leading_hyphen (s : text) : Prop :=
  match s with
  | c :: _ => is_hyphen c = false
  | [] => True
  end.

(** The spec's "first balanced JSON object substring": from a position
    that holds an opening brace, the shortest text in which every brace
    opened is closed.  [balanced_end depth s] is the number of characters of
    [s] up to the brace that closes the [depth] braces still open. *)
Fixpoint balanced_end (depth : nat) (s : text) : option nat :=
  match s with
  | [] => None
  | c :: s' =>
      if chr_is "{"%char c then S <$> balanced_end (S depth) s'
      else if chr_is "}"%char c then
        match depth with
        | 0 => None
        | 1 => Some 1
        | S d => S <$> balanced_end d s'
        end
      else S <$> balanced_end depth s'
  end.

Fixpoint first_balanced_object (s : text) : option text :=
  match s with
  | [] => None
  | c :: s' =>
      if chr_is "{"%char c then
        match balanced_end 1 s' with
        | Some n => Some (c :: take n s')
        | None => first_balanced_object s'
        end
      else first_balanced_object s'
  end.

(** The tail of the JSON pattern: [.*\}] *)
Definition to_last_close : list item := [Greedy dot_all; One (chr_is "}"%char)].

(** The prompt of step 1 for the values of the form. *)
Definition seo_prompt (I : inputs) : prompt :=
  SeoPrompt (in_topic I) (in_keyword I) (in_tone I) (in_word_count I).

(** The form of step 1 is submitted with a topic and a keyword. *)
Definition submitted (I : inputs) : bool :=
  pressed I BtnForward && nonempty (in_topic I) && nonempty (in_keyword I).

(** The article record after a successful step 1. *)
Definition merged_article (a : gmap string json) (d : list (string * json))
    (I : inputs) : gmap string json :=
  <["word_count" := JInt (in_word_count I)]>
    (<["tone" := JStr (in_tone I)]>
      (<["keyword" := JStr (in_keyword I)]>
        (<["topic" := JStr (in_topic I)]>
          (fold_left (fun m kv => <[fst kv := snd kv]> m) d a)))).

(** ** A small world for the examples *)

(** A decoder that knows the empty object only. *)
Definition demo_loads (t : text) : option json :=
  if text_eqb t (txt "{}") then Some (JDict []) else None.

(** A world without secrets whose generation service always gives
    [response] and whose CMS is unreachable. *)
Definition demo_env (response : text) : env :=
  Env ∅ (Date 2025 1 7) (fun _ => Some response)
    (fun f => Some (file_data f)) (fun _ => NetworkError).

(** The form of step 1 filled in, and the button [b] pressed. *)
Definition demo_inputs (b : button) : inputs :=
  Inputs (Some b) (txt "Budget phones") (txt "phones") (txt "Casual") 1500
    [] [] [] [] [] [] [] [] [].

(** ** The result of a computation *)

Definition final {A} (x : session * list event * res A) : session := fst (fst x).
Definition shown {A} (x : session * list event * res A) : list event := snd (fst x).
Definition ending {A} (x : session * list event * res A) : res A := snd x.

(** [images_needed] of step 5: the number of descriptors of the plan. *)
Definition images_needed (s : session) : exn + nat :=
  let plan :=
    match article_data s !! "image_plan" with
    | Some v => v
    | None => JDict []
    end in
  match dict_get plan "images" (JList []) with
  | inl e => inl e
  | inr plan_images => py_len plan_images
  end.

(** A descriptor as the plan prompt asks for it. *)
Definition demo_descriptor (position heading alt caption : string) : json :=
  JDict [("position", JStr (txt position));
         ("section_heading", JStr (txt heading));
         ("prompt", JStr (txt "A photo"));
         ("alt_text", JStr (txt alt));
         ("caption", JStr (txt caption))].

(** A plan of three images. *)
Definition demo_plan : json :=
  JDict [("images",
          JList [demo_descriptor "featured" "" "Budget phones on a desk" "";
                 demo_descriptor "after_section" "Budget Phones" "Five phones" "";
                 demo_descriptor "after_section" "Verdict" "A winner" "Our pick"])].

Definition demo_file (name : string) : upfile := UpFile (txt name) [].

(** The inputs of step 5 with the files [fs] and the button [b]. *)
Definition demo_upload (b : button) (fs : list upfile) : inputs :=
  Inputs (Some b) [] [] [] 0 [] [] [] [] [] [] [] [] fs.

(** The inputs of the run that the uploader starts when its files change
    to [fs]: no button is clicked. *)
Definition demo_uploading (fs : list upfile) : inputs :=
  Inputs None [] [] [] 0 [] [] [] [] [] [] [] [] fs.

(** [article_data.get(k, default)] as a value. *)
Definition article_get (s : session) (k : string) (default : json) : json :=
  match article_data s !! k with
  | Some v => v
  | None => default
  end.

(** The form of step 2 can be drawn: the suggested categories and tags can
    be joined. *)
Definition step2_renders (s : session) : Prop :=
  join_check (article_get s "suggested_categories" (JList [])) = inr tt
  /\ join_check (article_get s "suggested_tags" (JList [])) = inr tt.

(** The article record with the four text fields of the form of step 2. *)
Definition with_form_fields (a : gmap string json) (I : inputs)
    : gmap string json :=
  <["focus_keyphrase" := JStr (in_focus I)]>
    (<["slug" := JStr (in_slug I)]>
      (<["meta_description" := JStr (in_meta_desc I)]>
        (<["title" := JStr (in_title I)]> a))).

(** The inputs of step 2: a title, an outline text and the button. *)
Definition demo_review (b : button) (title outline : string) : inputs :=
  Inputs (Some b) [] [] [] 0 (txt title) [] [] [] (txt outline) [] [] [] [].

(** A world that holds the credential of the generation service and
    none of the three secrets of the CMS. *)
Definition gemini_only_env : env :=
  Env {[ "GEMINI_API_KEY" := txt "key" ]} (Date 2025 1 7) (fun _ => None)
    (fun f => Some (file_data f)) (fun _ => NetworkError).


(** Python's [str] of a container is not needed by the examples. *)
Definition demo_container_str (v : json) : text := [].

(** A computation that leaves the session as it found it, however it
    ends. *)
Definition readonly {A} (m : M A) : Prop := forall s, final (m s) = s.

(** [Q] holds of the session a computation leaves, however it ends. *)
Definition ensures {A} (m : M A) (s : session) (Q : session -> Prop) : Prop :=
  Q (final (m s)).

(** The moves of the step in one run started by the inputs [I]: it stays,
    or the forward button takes it one up, or the back button one down, or
    the reset button to 1. *)
Definition transition (I : inputs) (s s' : session) : Prop :=
  step s' = step s
  \/ (pressed I BtnForward = true /\ (1 <= step s <= 5)%Z
      /\ step s' = (step s + 1)%Z)
  \/ (pressed I BtnBack = true /\ (2 <= step s <= 5)%Z
      /\ step s' = (step s - 1)%Z)
  \/ (pressed I BtnReset = true /\ step s' = 1%Z).

(** The page of step 3 can be drawn down to its buttons: the article is
    there, and the fields that the page and the checklist read are texts, or
    a number for the word count. *)
Definition step3_renders (s : session) : Prop :=
  is_Some (article_data s !! "content")
  /\ (exists t, article_data s !! "title" = Some (JStr t))
  /\ (exists t, article_data s !! "meta_description" = Some (JStr t))
  /\ (exists t, article_data s !! "keyword" = Some (JStr t))
  /\ (exists w, article_data s !! "word_count" = Some w
                /\ number_check w = inr tt).

(** The page of step 4 can be drawn down to its buttons: the plan is there
    and every descriptor can be shown. *)
Definition step4_renders (s : session) : Prop :=
  exists plan v l,
    article_data s !! "image_plan" = Some plan
    /\ subscript plan "images" = inr v
    /\ py_iter v = inr l
    /\ show_descriptors l = inr tt.

Definition step5_renders (s : session) : Prop :=
  exists n, images_needed s = inr n.

(** The page of a step that has a back button is drawn down to its buttons. *)
Definition page_renders (E : env) (s : session) : Prop :=
  is_Some (secrets E !! "GEMINI_API_KEY")
  /\ ((step s = 2%Z /\ step2_renders s)
      \/ (step s = 3%Z /\ step3_renders s)
      \/ (step s = 4%Z /\ step4_renders s)
      \/ (step s = 5%Z /\ step5_renders s)).

(** The article record after the back button: as it was, except that on
    step 3 the content is the value of the text area. *)
Definition article_after_back (I : inputs) (s : session) : gmap string json :=
  if (step s =? 3)%Z
  then <["content" := JStr (in_edited_content I)]> (article_data s)
  else article_data s.

(** A session on step 3 whose article has the content [content]. *)
Definition demo_draft (content : string) : session :=
  Session 3
    {[ "title" := JStr (txt "Best budget phones");
       "meta_description" := JStr (txt "Five budget phones compared");
       "keyword" := JStr (txt "budget phones");
       "word_count" := JInt 1500;
       "content" := JStr (txt content) ]} [].

(** The inputs of step 3: the text area holds [edited], [b] is pressed. *)
Definition demo_edit (b : button) (edited : string) : inputs :=
  Inputs (Some b) [] [] [] 0 [] [] [] [] [] [] [] (txt edited) [].

(** Every event of a computation satisfies [P]. *)
Definition emits {A} (P : event -> Prop) (m : M A) : Prop :=
  forall s, Forall P (shown (m s)).

(** An event that is not a post creation, or one whose body satisfies
    [Q]. *)
Definition post_pred (Q : post_data -> Prop) (e : event) : Prop :=
  match e with
  | Sent (PostPost _ body _ _) => Q body
  | _ => True
  end.

(** An event that is not a post creation, or one whose status is
    [draft]. *)
Definition draft_only : event -> Prop :=
  post_pred (fun body => pd_status body = txt "draft").

(** A world with the four secrets, whose CMS answers by [h] and whose image
    library converts every file but those named [broken]. *)
Definition cms_env (h : request -> reply) : env :=
  Env {[ "GEMINI_API_KEY" := txt "key";
         "WP_URL" := txt "https://example.org";
         "WP_USERNAME" := txt "tony";
         "WP_APP_PASSWORD" := txt "secret" ]}
    (Date 2025 1 7) (fun _ => None)
    (fun f => if text_eqb (file_name f) (txt "broken") then None
              else Some (file_data f))
    h.

(** The request that [create_wordpress_post] sends. *)
Definition post_request (url user pass : text) (title content meta_desc slug : json)
    (categories tags : list json) (featured : json) : request :=
  PostPost url
    (PostData title content (txt "draft") slug meta_desc categories tags featured)
    user pass.

(** The inputs of step 6 with the button [b]. *)
Definition demo_press (b : button) : inputs :=
  Inputs (Some b) [] [] [] 0 [] [] [] [] [] [] [] [] [].

(** A CMS that refuses the upload of the file named [fail_name], accepts
    the others with an id that is the length of the file name, knows one
    category, and answers the post creation with [post_status]. *)
Definition demo_cms (fail_name : text) (post_status : Z) (r : request) : reply :=
  match r with
  | PostMedia _ filename _ _ _ =>
      if text_eqb filename fail_name then Response 500 None
      else Response 201
             (Some (JDict [("id", JInt (Z.of_nat (length filename)));
                           ("source_url", JStr (txt "https://example.org/" ++ filename))]))
  | PostMediaAlt _ _ _ _ _ => Response 200 None
  | GetCategories _ =>
      Response 200 (Some (JList [JDict [("id", JInt 7); ("name", JStr (txt "Phones"))]]))
  | GetTags _ => Response 200 (Some (JList []))
  | PostPost _ body _ _ =>
      Response post_status
        (Some (JDict [("title", JDict [("rendered", pd_title body)]);
                      ("status", JStr (pd_status body));
                      ("link", JStr (txt "https://example.org/?p=1"))]))
  end.

(** A session ready to publish: three files for the three descriptors of
    [demo_plan]. *)
Definition demo_content : text :=
  txt "<h2>Top 5 Budget Phones</h2><p>Five phones.</p><h2>Verdict</h2><p>Buy.</p>".

Definition demo_ready (files : list upfile) : session :=
  Session 6
    {[ "title" := JStr (txt "Best budget phones");
       "meta_description" := JStr (txt "Five budget phones compared");
       "slug" := JStr (txt "best-budget-phones");
       "categories" := JList [JStr (txt "Phones"); JStr (txt "Gadgets")];
       "tags" := JList [];
       "content" := JStr demo_content;
       "image_plan" := demo_plan ]}
    files.

Definition demo_files : list upfile :=
  [demo_file "a.png"; demo_file "b.png"; demo_file "c.png"].

(** ** What the code counts as an upload

    [media_reply] is the media record that [upload_to_wordpress] returns,
    read off its two requests: the creation answers 201 with a body that has
    an id, and the request that sets the alt text gets an answer, whatever it
    is.  A creation answered 201 whose alt-text request fails at the network
    gives nothing, although the CMS holds the media. *)
Definition media_reply (E : env) (url user pass : text) (webp : bytes)
    (filename alt : text) : option json :=
  match http E (PostMedia url filename webp user pass) with
  | NetworkError => None
  | Response status body =>
      if (status =? 201)%Z
      then
        match body with
        | Some media =>
            match subscript media "id" with
            | inr id =>
                match http E (PostMediaAlt url id alt user pass) with
                | NetworkError => None
                | Response _ _ => Some media
                end
            | inl _ => None
            end
        | None => None
        end
      else None
  end.

(** The entry of [wp_images] for the file [f] and the descriptor [d] at the
    index [idx], when the conversion and the upload succeed. *)
Definition uploaded (E : env) (url user pass : text) (idx : Z) (f : upfile)
    (d : json) : option wp_image :=
  match image_to_webp E f, subscript d "alt_text" with
  | Some webp, inr (JStr alt) =>
      match media_reply E url user pass webp
              (generate_seo_filename (now E) alt idx) alt with
      | Some media =>
          match subscript media "id", subscript media "source_url",
                dict_get d "caption" (JStr []), dict_get d "position" JNull,
                dict_get d "section_heading" JNull with
          | inr id, inr src, inr caption, inr position, inr heading =>
              Some (WpImage id src alt caption position heading)
          | _, _, _, _, _ => None
          end
      | None => None
      end
  | _, _ => None
  end.

(** The successful uploads of a list of files and descriptors, in order. *)
Fixpoint successes (E : env) (url user pass : text) (idx : Z)
    (pairs : list (upfile * json)) : list wp_image :=
  match pairs with
  | [] => []
  | (f, d) :: rest =>
      match uploaded E url user pass idx f d with
      | Some img => img :: successes E url user pass (idx + 1) rest
      | None => successes E url user pass (idx + 1) rest
      end
  end.

(** A descriptor as the plan prompt asks for it: a dictionary with a text
    for the alt text, and a text or nothing for the section heading. *)
Definition descriptor_ok (d : json) : Prop :=
  (exists alt, subscript d "alt_text" = inr (JStr alt))
  /\ (dict_get d "section_heading" JNull = inr JNull
      \/ exists h, dict_get d "section_heading" JNull = inr (JStr h)).

(** The contract of the media endpoint: a 201 carries an id and a source
    URL. *)
Definition media_contract (E : env) : Prop :=
  forall url filename webp user pass media,
    http E (PostMedia url filename webp user pass) = Response 201 (Some media) ->
    exists id src,
      subscript media "id" = inr id /\ subscript media "source_url" = inr src.

(** The section heading of an uploaded image is a text or nothing. *)
Definition heading_ok (img : wp_image) : Prop :=
  wi_section_heading img = JNull \/ exists h, wi_section_heading img = JStr h.

(** A list of names: every element is a text. *)
Definition names_ok (v : json) (names : list json) : Prop :=
  py_iter v = inr names /\ Forall (fun x => exists t, x = JStr t) names.

(** The article is ready for the publish: the plan has the well-formed
    descriptors [descrs], the content is the text [c], the title, the meta
    description and the slug are there, and the categories and tags are
    lists of names. *)
Definition ready_to_publish (s : session) (descrs : list json) (c : text)
    (title meta_desc slug : json) : Prop :=
  (exists plan v,
      article_data s !! "image_plan" = Some plan
      /\ subscript plan "images" = inr v
      /\ py_iter v = inr descrs)
  /\ Forall descriptor_ok descrs
  /\ article_data s !! "content" = Some (JStr c)
  /\ article_data s !! "title" = Some title
  /\ article_data s !! "meta_description" = Some meta_desc
  /\ article_data s !! "slug" = Some slug
  /\ (exists names, names_ok (article_get s "categories" (JList [])) names)
  /\ (exists names, names_ok (article_get s "tags" (JList [])) names).

(** The descriptors of [demo_plan]. *)
Definition demo_descriptors : list json :=
  match demo_plan with
  | JDict [(_, JList l)] => l
  | _ => []
  end.

(** The CMS that refuses the second image of the example. *)
Definition second_fails : env :=
  cms_env (demo_cms (txt "five-phones-20250107-2.webp") 201).

(** The post-creation requests among the events. *)
Fixpoint posts_sent (l : list event) : list post_data :=
  match l with
  | [] => []
  | Sent (PostPost _ body _ _) :: l' => body :: posts_sent l'
  | _ :: l' => posts_sent l'
  end.

(** [spliced ok c c']: the text [c'] is [c] with zero or more blocks that
    satisfy [ok] inserted, one after the other, each after a non-empty
    prefix of the text it is inserted in. *)
Inductive spliced (ok : text -> Prop) (c : text) : text -> Prop :=
  | spliced_none : spliced ok c c
  | spliced_more (pre post block : text) :
      spliced ok c (pre ++ post) ->
      ok block ->
      pre <> [] ->
      spliced ok c (pre ++ block ++ post).



(** ** The heading splice in the words of the spec

    A level-2 heading element runs from an opening tag to the next closing
    tag; its inner text is what lies between them.  The expected splice point
    is the end of the first such element whose inner text contains the target
    heading, letter case apart. *)

(** [s] starts with [p], letter case apart: what is left of [s]. *)
Fixpoint strip_prefix_ci (p s : text) : option text :=
  match p, s with
  | [], _ => Some s
  | x :: p', c :: s' => if chr_is_ci x c then strip_prefix_ci p' s' else None
  | _ :: _, [] => None
  end.

(** [needle] occurs in [hay], letter case apart. *)
Fixpoint contains_ci (needle hay : text) : bool :=
  match strip_prefix_ci needle hay with
  | Some _ => true
  | None =>
      match hay with
      | [] => false
      | _ :: hay' => contains_ci needle hay'
      end
  end.

(** The text before the next closing tag of a level-2 heading. *)
Fixpoint inner_text (s : text) : option text :=
  match strip_prefix_ci (txt "</h2>") s with
  | Some _ => Some []
  | None =>
      match s with
      | [] => None
      | c :: s' =>
          match inner_text s' with
          | Some inner => Some (c :: inner)
          | None => None
          end
      end
  end.

(** The position after the closing tag of the first level-2 heading of [s],
    itself at position [pos] of the content, whose inner text contains
    [heading]. *)
Fixpoint first_heading_end (heading : text) (pos : nat) (s : text) : option nat :=
  match s with
  | [] => None
  | _ :: s' =>
      match strip_prefix_ci (txt "<h2>") s with
      | Some after =>
          match inner_text after with
          | Some inner =>
              if contains_ci heading inner
              then Some (pos + 4 + length inner + 5)
              else first_heading_end heading (S pos) s'
          | None => first_heading_end heading (S pos) s'
          end
      | None => first_heading_end heading (S pos) s'
      end
  end.

(** The splice that the claim describes. *)
Definition expected_splice (content heading img_html : text) : text :=
  match first_heading_end heading 0 content with
  | Some insert_pos => insert_at insert_pos img_html content
  | None => content
  end.

(** A content in one line whose paragraph, not a heading, names the
    target. *)
Definition crossing_content : text :=
  txt "<h2>Intro</h2><p>Budget Phones are great.</p><h2>Other</h2><p>More.</p>".

(** The same with a heading that names the target further down. *)
Definition crossing_content_late : text :=
  crossing_content ++ txt "<h2>Top 5 Budget Phones</h2><p>List.</p>".

(** ** The file-name stem in the words of the spec *)

(** A character that the clean-up keeps: a word character, a whitespace or
    a hyphen. *)
Definition kept (c : ascii) : bool := is_word c || is_space c || is_hyphen c.

(** The first character, if any, is neither a hyphen nor a whitespace. *)
Definition no_leading_separator (s : text) : Prop :=
  match s with
  | c :: _ => hyphen_or_space c = false
  | [] => True
  end.

(** [collapsed s u]: [u] is [s] with every maximal run of hyphens and
    whitespace replaced by one hyphen, and the other characters as they
    are. *)
Inductive collapsed : text -> text -> Prop :=
  | collapsed_nil : collapsed [] []
  | collapsed_char (c : ascii) (s u : text) :
      hyphen_or_space c = false ->
      collapsed s u ->
      collapsed (c :: s) (c :: u)
  | collapsed_run (run s u : text) :
      run <> [] ->
      Forall (fun c => hyphen_or_space c = true) run ->
      no_leading_separator s ->
      collapsed s u ->
      collapsed (run ++ s) ("-"%char :: u).

(** ** Vocabulary of the further properties *)

(** Two texts are the same, letter case apart. *)
Definition same_ci (u v : text) : Prop := lower u = lower v.

(** No character of the text is a newline. *)
Definition one_line (s : text) : Prop := Forall (fun c => dot c = true) s.

(** The number of commas of a text. *)
Definition commas (s : text) : nat := length (List.filter (chr_is ","%char) s).

(** A text without whitespace at either end. *)
Definition stripped (p : text) : Prop :=
  (forall c rest, p = c :: rest -> is_space c = false)
  /\ (forall c front, p = front ++ [c] -> is_space c = false).

(** [", ".join(names)], the text that seeds the categories and tags fields
    of step 2. *)
Fixpoint join_comma (names : list text) : text :=
  match names with
  | [] => []
  | [name] => name
  | name :: rest => name ++ txt ", " ++ join_comma rest
  end.

(** The article record after the forward button of step 2. *)
Definition reviewed_article (a : gmap string json) (I : inputs) (outline : json)
    : gmap string json :=
  <["tags" := split_strip (in_tags I)]>
    (<["categories" := split_strip (in_categories I)]>
      (<["outline" := outline]> (with_form_fields a I))).

(** The step after a run of a page with a back and a forward button. *)
Definition next_step (I : inputs) (back forward : Z) (s : session) : Z :=
  if pressed I BtnBack then back
  else if pressed I BtnForward then forward
  else step s.

(** How such a run ends: a rerun when one of the two buttons is pressed. *)
Definition next_ending (I : inputs) : res unit :=
  if pressed I BtnBack || pressed I BtnForward then Halt Rerun else Ok tt.

(** The answer of the generation service to [p], decoded: nothing when the
    call fails, when the answer is empty or has no braces, or when the text
    between the braces does not decode. *)
Definition decoded_answer (json_loads : text -> option json) (E : env)
    (p : prompt) : option json :=
  match generate_content E p with
  | Some response =>
      if nonempty response
      then match extract_json response with
           | Some group => json_loads group
           | None => None
           end
      else None
  | None => None
  end.

(** A session on step 4 with an article and no image plan. *)
Definition demo_planless : session :=
  Session 4 {[ "title" := JStr (txt "T");
               "content" := JStr (txt "<p>x</p>");
               "keyword" := JStr (txt "k") ]} [].

(** The number of backticks a text starts with. *)
Fixpoint leading_ticks (t : text) : nat :=
  match t with
  | c :: t' => if code c =? 96 then S (leading_ticks t') else 0
  | [] => 0
  end.

(** A text that holds three backticks in a row. *)
Fixpoint has_fence (t : text) : bool :=
  match strip_prefix tick3 t with
  | Some _ => true
  | None =>
      match t with
      | [] => false
      | _ :: t' => has_fence t'
      end
  end.

(** A session ready to publish whose only descriptor has no alt text. *)
Definition demo_no_alt : session :=
  Session 6 {[ "image_plan" := JDict [("images", JList [JDict []])] ]}
    [demo_file "a.png"].

(** The characters of a file name: those of a stem and the dot. *)
Definition name_char (c : ascii) : bool := stem_char c || (code c =? 46).

(** A text that ends a line: empty, or with a newline as its last
    character. *)
Definition ends_line (s : text) : Prop := s = [] \/ exists b, s = b ++ newline.

(** A text without an opening angle bracket: it holds no tag. *)
Definition plain (s : text) : Prop := Forall (fun c => c <> "<"%char) s.

(** The marks of the progress indicator. *)
Inductive mark := MarkDone | MarkCurrent | MarkPending.

(** The progress indicator: one mark for each of the six labels. *)
Definition progress (step : Z) : list mark :=
  map (fun idx : Z =>
         if (idx <? step)%Z then MarkDone
         else if (idx =? step)%Z then MarkCurrent
         else MarkPending)
      [1; 2; 3; 4; 5; 6]%Z.

(** ** The uploads in the words of the claim

    An image is uploaded once the conversion gives the bytes and the CMS
    answers the creation request with 201 and a media record: the media
    library then holds the image, whatever becomes of the request that sets
    its alt text. *)

(** The entry of [wp_images] for the media record [media] and the
    descriptor [d]. *)
Definition wp_entry (alt : text) (media d : json) : option wp_image :=
  match subscript media "id", subscript media "source_url",
        dict_get d "caption" (JStr []), dict_get d "position" JNull,
        dict_get d "section_heading" JNull with
  | inr id, inr src, inr caption, inr position, inr heading =>
      Some (WpImage id src alt caption position heading)
  | _, _, _, _, _ => None
  end.

(** The entry of the file [f] with the descriptor [d] at the index [idx],
    when the CMS created its media. *)
Definition created (E : env) (url user pass : text) (idx : Z) (f : upfile)
    (d : json) : option wp_image :=
  match image_to_webp E f, subscript d "alt_text" with
  | Some webp, inr (JStr alt) =>
      match http E (PostMedia url (generate_seo_filename (now E) alt idx) webp
                      user pass) with
      | Response status (Some media) =>
          if (status =? 201)%Z then wp_entry alt media d else None
      | _ => None
      end
  | _, _ => None
  end.

(** The images that the CMS created, in the order of the loop. *)
Fixpoint all_created (E : env) (url user pass : text) (idx : Z)
    (pairs : list (upfile * json)) : list wp_image :=
  match pairs with
  | [] => []
  | (f, d) :: rest =>
      match created E url user pass idx f d with
      | Some img => img :: all_created E url user pass (idx + 1) rest
      | None => all_created E url user pass (idx + 1) rest
      end
  end.

(** The request that sets the alt text of a created image got an answer,
    whatever the answer. *)
Definition alt_answered (E : env) (url user pass : text) (img : wp_image)
    : bool :=
  match http E (PostMediaAlt url (wi_id img) (wi_alt img) user pass) with
  | NetworkError => false
  | Response _ _ => true
  end.

(** The content with the figure of [img] spliced after the first match of
    its section heading, when it has one. *)
Definition with_figure (container_str : json -> text) (c : text)
    (img : wp_image) : text :=
  match wi_section_heading img with
  | JStr h =>
      if nonempty h then splice_heading c h (img_html container_str img) else c
  | _ => c
  end.

(** The article of [s] names the categories and the tags by texts. *)
Definition names_of (s : session) (k : string) (names : list json) : Prop :=
  names_ok (article_get s k (JList [])) names.

(** A CMS that refuses the upload of the file named [fail_name], creates
    the other media with an id that is the length of the file name, and whose
    connection drops on the request that sets the alt text [lost_alt]. *)
Definition alt_text_down (lost_alt fail_name : text) (r : request) : reply :=
  match r with
  | PostMediaAlt _ _ alt _ _ =>
      if text_eqb alt lost_alt then NetworkError else Response 200 None
  | _ => demo_cms fail_name 201 r
  end.

(** A file-name character that separates the parts of a path. *)
Definition path_separator (c : ascii) : bool := (code c =? 47) || (code c =? 92).

(* ------------------------------------------------------------------ *)
(** * Properties *)

(** ** The file-name generator *)

Section CharFacts.

Ltac by_cases c := destruct c as [[] [] [] [] [] [] [] []]; vm_compute; congruence.

Lemma kept_lower_char c :
  not_word_space_hyphen (lower_char c) = false ->
  stem_char (lower_char c) || is_space (lower_char c) = true.
Proof. by_cases c. Qed.

Lemma kept_not_sep c :
  hyphen_or_space c = false ->
  stem_char c || is_space c = true -> stem_char c = true.
Proof. by_cases c. Qed.

Lemma not_sep_not_hyphen c : hyphen_or_space c = false -> is_hyphen c = false.
Proof. by_cases c. Qed.

Lemma word_not_sep c : is_word c = true -> hyphen_or_space c = false.
Proof. by_cases c. Qed.

Lemma sep_not_word c : hyphen_or_space c = true -> is_word c = false.
Proof. by_cases c. Qed.

Lemma word_kept c : is_word c = true -> not_word_space_hyphen c = false.
Proof. by_cases c. Qed.

Lemma deleted_not_word c : not_word_space_hyphen c = true -> is_word c = false.
Proof. by_cases c. Qed.

End CharFacts.

Lemma delete_chars (t : text) :
  Forall (fun c => stem_char c || is_space c = true)
    (re_sub_delete not_word_space_hyphen (lower t)).
Proof.
  induction t as [|a t IH]; simpl; [constructor|].
  destruct (not_word_space_hyphen (lower_char a)) eqn:Hd; [exact IH|].
  constructor; [now apply kept_lower_char | exact IH].
Qed.

Lemma runs_chars (s : text) : forall b,
  Forall (fun c => stem_char c || is_space c = true) s ->
  Forall (fun c => stem_char c = true)
    (re_sub_runs_from hyphen_or_space (txt "-") b s).
Proof.
  induction s as [|c s IH]; intros b Hs; simpl; [constructor|].
  inversion Hs as [|? ? Hc Hs']; subst.
  destruct (hyphen_or_space c) eqn:Hsep.
  - destruct b; simpl; [now apply IH|].
    constructor; [reflexivity | now apply IH].
  - constructor; [now apply kept_not_sep | now apply IH].
Qed.

Lemma single_cons (a : ascii) (s : text) :
  is_hyphen a = false \/ no_leading_hyphen s ->
  single_hyphens s = true -> single_hyphens (a :: s) = true.
Proof.
  destruct s as [|b s]; [reflexivity|].
  intros H Hs. change (negb (is_hyphen a && is_hyphen b) && single_hyphens (b :: s) = true).
  rewrite Hs, andb_true_r.
  destruct H as [H|H]; [rewrite H | simpl in H; rewrite H, andb_false_r]; reflexivity.
Qed.

Lemma runs_single (s : text) : forall b,
  single_hyphens (re_sub_runs_from hyphen_or_space (txt "-") b s) = true
  /\ (b = true ->
      no_leading_hyphen (re_sub_runs_from hyphen_or_space (txt "-") b s)).
Proof.
  induction s as [|c s IH]; intros b; [split; [reflexivity | now intros _]|].
  cbn [re_sub_runs_from].
  destruct (hyphen_or_space c) eqn:Hsep.
  - destruct (IH true) as [Hs Hh]. specialize (Hh eq_refl).
    destruct b; [split; [exact Hs | now intros _]|].
    split; [|discriminate].
    change (txt "-" ++ ?x) with ("-"%char :: x).
    apply single_cons; [now right | exact Hs].
  - destruct (IH false) as [Hs _].
    pose proof (not_sep_not_hyphen c Hsep) as Hc.
    split; [|now intros _].
    apply single_cons; [now left | exact Hs].
Qed.

Lemma single_take (s : text) : forall n,
  single_hyphens s = true -> single_hyphens (take n s) = true.
Proof.
  induction s as [|a s IH]; intros [|n] H; try reflexivity.
  simpl in H. destruct s as [|b s']; [destruct n; reflexivity|].
  apply andb_true_iff in H as [Hab Hs].
  specialize (IH n Hs).
  destruct n as [|n]; [reflexivity|].
  change (take (S (S n)) (a :: b :: s')) with (a :: take (S n) (b :: s')).
  change (take (S n) (b :: s')) with (b :: take n s') in *.
  simpl. simpl in IH. rewrite Hab. simpl. exact IH.
Qed.

Lemma word_chars_delete (s : text) :
  word_chars (re_sub_delete not_word_space_hyphen s) = word_chars s.
Proof.
  induction s as [|c s IH]; simpl; [reflexivity|].
  destruct (not_word_space_hyphen c) eqn:Hd.
  - rewrite (deleted_not_word c Hd). exact IH.
  - simpl. destruct (is_word c); [f_equal|]; exact IH.
Qed.

Lemma word_chars_runs (s : text) : forall b,
  word_chars (re_sub_runs_from hyphen_or_space (txt "-") b s) = word_chars s.
Proof.
  induction s as [|c s IH]; intros b; simpl; [reflexivity|].
  destruct (hyphen_or_space c) eqn:Hsep.
  - rewrite (sep_not_word c Hsep).
    destruct b; simpl; apply IH.
  - simpl. destruct (is_word c); [f_equal|]; apply IH.
Qed.

Lemma word_chars_take (n : nat) (s : text) :
  word_chars (take n s) `prefix_of` word_chars s.
Proof.
  exists (word_chars (drop n s)).
  unfold word_chars. rewrite <- List.filter_app. now rewrite take_drop.
Qed.

Lemma delete_is_filter (s : text) :
  re_sub_delete not_word_space_hyphen s = List.filter kept s.
Proof.
  induction s as [|c s IH]; [reflexivity|]. cbn.
  unfold not_word_space_hyphen, kept in *.
  destruct (is_word c || is_space c || is_hyphen c); cbn; now rewrite IH.
Qed.

Lemma split_run (s : text) :
  exists run rest,
    s = run ++ rest
    /\ Forall (fun c => hyphen_or_space c = true) run
    /\ no_leading_separator rest.
Proof.
  induction s as [|c s (run & rest & -> & Hrun & Hrest)].
  - now exists [], [].
  - destruct (hyphen_or_space c) eqn:Hc.
    + exists (c :: run), rest. repeat split; [now constructor | exact Hrest].
    + now exists [], (c :: run ++ rest).
Qed.

Lemma runs_skip (run rest : text) :
  Forall (fun c => hyphen_or_space c = true) run ->
  re_sub_runs_from hyphen_or_space (txt "-") true (run ++ rest)
  = re_sub_runs_from hyphen_or_space (txt "-") true rest.
Proof.
  induction 1 as [|c run Hc _ IH]; [reflexivity|].
  cbn. now rewrite Hc.
Qed.

Lemma runs_restart (rest : text) :
  no_leading_separator rest ->
  re_sub_runs_from hyphen_or_space (txt "-") true rest
  = re_sub_runs_from hyphen_or_space (txt "-") false rest.
Proof.
  destruct rest as [|c rest]; [reflexivity|]. cbn. now intros ->.
Qed.

Lemma runs_collapsed (n : nat) : forall s : text,
  length s <= n -> collapsed s (re_sub_runs hyphen_or_space (txt "-") s).
Proof.
  unfold re_sub_runs.
  induction n as [|n IH]; intros [|c s] Hlen; try (cbn in Hlen; lia);
    try constructor.
  cbn [re_sub_runs_from]. destruct (hyphen_or_space c) eqn:Hc.
  - destruct (split_run s) as (run & rest & -> & Hrun & Hrest).
    rewrite (runs_skip run rest Hrun), (runs_restart rest Hrest).
    change (txt "-" ++ ?u) with ("-"%char :: u).
    change (c :: run ++ rest) with ((c :: run) ++ rest).
    constructor; [discriminate | now constructor | exact Hrest |].
    apply IH. cbn in Hlen. rewrite length_app in Hlen. lia.
  - constructor; [exact Hc|]. apply IH. cbn in Hlen. lia.
Qed.

(** C6.  The file name is the stem, a hyphen, the date stamp, a hyphen, the
    index and [.webp].  The stem is the first 50 characters of the lowercased
    alt text with the characters that are neither word characters, whitespace
    nor hyphens removed and every run of whitespace and hyphens replaced by
    one hyphen: it has at most 50 characters, all of them hyphens or word
    characters that lowercasing leaves as they are, no hyphen follows a
    hyphen, and its word characters are the leading word characters of the
    lowercased alt text.  The alt text of the example gives the expected
    name. *)
Theorem generate_seo_filename_shape (now_ : date) (text_ : text) (index : Z) :
  let stem := seo_stem text_ in
  generate_seo_filename now_ text_ index
    = stem ++ txt "-" ++ strftime_Ymd now_ ++ txt "-" ++ str_of_Z index
      ++ txt ".webp"
  /\ (exists u, collapsed (List.filter kept (lower text_)) u /\ stem = take 50 u)
  /\ length stem <= 50
  /\ Forall (fun c => stem_char c = true) stem
  /\ single_hyphens stem = true
  /\ word_chars stem `prefix_of` word_chars (lower text_)
  /\ generate_seo_filename (Date 2025 1 7) (txt "Best Budget Phone!! 2025") 3
     = txt "best-budget-phone-2025-20250107-3.webp".
Proof.
  cbv zeta. unfold seo_stem.
  split; [reflexivity|]. split.
  { eexists. split; [|reflexivity].
    rewrite <- delete_is_filter. now apply (runs_collapsed _ _ (le_n _)). }
  unfold re_sub_runs. repeat split.
  - rewrite length_take. lia.
  - apply Forall_take, runs_chars, delete_chars.
  - apply single_take, runs_single.
  - etransitivity; [apply word_chars_take|].
    rewrite word_chars_runs, word_chars_delete. reflexivity.
Qed.

(** Word characters above 127 are kept and lowercased, and the no-break
    space counts as whitespace. *)
Example generate_seo_filename_latin1 :
  generate_seo_filename (Date 2025 1 7)
    (txt "Caf" ++ ["233"%char; "160"%char] ++ txt "Cr" ++ ["200"%char]
     ++ txt "me") 1
  = txt "caf" ++ ["233"%char] ++ txt "-cr" ++ ["232"%char]
    ++ txt "me-20250107-1.webp".
Proof. reflexivity. Qed.

(** ** The matcher on the pattern of the JSON extraction *)

Lemma chr_is_true (x c : ascii) : chr_is x c = true <-> c = x.
Proof.
  unfold chr_is, code. rewrite Nat.eqb_eq. split; [|now intros ->].
  intros H. apply (f_equal ascii_of_nat) in H.
  now rewrite !ascii_nat_embedding in H.
Qed.

Lemma chr_is_false (x c : ascii) : chr_is x c = false <-> c <> x.
Proof.
  rewrite <- chr_is_true. destruct (chr_is x c); split; congruence.
Qed.

Lemma match_here_one (p : ascii -> bool) (r : list item) (c : ascii) (s : text) :
  match_here (One p :: r) (c :: s) = if p c then match_here r s else None.
Proof. reflexivity. Qed.

Lemma match_here_greedy (p : ascii -> bool) (r : list item) (s : text) :
  match_here (Greedy p :: r) s =
  match s with
  | c :: s' =>
      if p c
      then match match_here (Greedy p :: r) s' with
           | Some rest => Some rest
           | None => match_here r s
           end
      else match_here r s
  | [] => match_here r s
  end.
Proof. destruct s; reflexivity. Qed.

Lemma match_here_lazy (p : ascii -> bool) (r : list item) (s : text) :
  match_here (Lazy p :: r) s =
  match match_here r s with
  | Some rest => Some rest
  | None =>
      match s with
      | c :: s' => if p c then match_here (Lazy p :: r) s' else None
      | [] => None
      end
  end.
Proof. destruct s; reflexivity. Qed.

Lemma to_last_close_none (post : text) :
  Forall (fun c => c <> "}"%char) post -> match_here to_last_close post = None.
Proof.
  unfold to_last_close.
  induction post as [|c post IH]; intros H; [reflexivity|].
  inversion H as [|? ? Hc Hp]; subst.
  rewrite match_here_greedy. cbn [dot_all]. rewrite (IH Hp).
  rewrite match_here_one. apply chr_is_false in Hc. now rewrite Hc.
Qed.

Lemma to_last_close_some (mid post : text) :
  Forall (fun c => c <> "}"%char) post ->
  match_here to_last_close (mid ++ "}"%char :: post) = Some post.
Proof.
  intros Hp. unfold to_last_close.
  induction mid as [|c mid IH]; cbn [app].
  - rewrite match_here_greedy. cbn [dot_all].
    fold to_last_close. rewrite (to_last_close_none post Hp).
    rewrite match_here_one.
    replace (chr_is "}" "}") with true by reflexivity. reflexivity.
  - rewrite match_here_greedy. cbn [dot_all]. now rewrite IH.
Qed.

Lemma to_last_close_shape (s rest : text) :
  match_here to_last_close s = Some rest ->
  exists mid, s = mid ++ "}"%char :: rest.
Proof.
  unfold to_last_close. revert rest.
  induction s as [|c s IH]; intros rest; rewrite match_here_greedy.
  - discriminate.
  - cbn [dot_all].
    destruct (match_here [Greedy dot_all; One (chr_is "}"%char)] s) as [r|] eqn:Hg.
    + intros [= ->]. destruct (IH _ eq_refl) as [mid ->]. now exists (c :: mid).
    + rewrite match_here_one. destruct (chr_is "}" c) eqn:Hc; [|discriminate].
      apply chr_is_true in Hc. subst c. cbn. intros [= ->]. now exists [].
Qed.

Lemma json_match (s : text) :
  match_here json_pattern s =
  match s with
  | c :: s' => if chr_is "{"%char c then match_here to_last_close s' else None
  | [] => None
  end.
Proof. destruct s; reflexivity. Qed.

Lemma search_from_eq (items : list item) (pos : nat) (s : text) :
  search_from items pos s =
  match match_here items s with
  | Some rest => Some (pos, pos + (length s - length rest))
  | None =>
      match s with
      | [] => None
      | _ :: s' => search_from items (S pos) s'
      end
  end.
Proof. destruct s; reflexivity. Qed.

Lemma search_json_skip (pre rest : text) : forall pos,
  Forall (fun c => c <> "{"%char) pre ->
  search_from json_pattern pos (pre ++ rest)
  = search_from json_pattern (pos + length pre) rest.
Proof.
  induction pre as [|c pre IH]; intros pos H; cbn [app length].
  - now rewrite Nat.add_0_r.
  - inversion H as [|? ? Hc Hp]; subst.
    rewrite search_from_eq, json_match.
    apply chr_is_false in Hc. rewrite Hc.
    rewrite (IH (S pos) Hp). f_equal. lia.
Qed.

Lemma extract_json_object (pre mid post : text) :
  Forall (fun c => c <> "{"%char) pre ->
  Forall (fun c => c <> "}"%char) post ->
  extract_json (pre ++ "{"%char :: mid ++ "}"%char :: post)
  = Some ("{"%char :: mid ++ ["}"%char]).
Proof.
  intros Hpre Hpost.
  unfold extract_json, re_search_group, re_search.
  rewrite (search_json_skip pre _ 0 Hpre).
  rewrite search_from_eq, json_match.
  replace (chr_is "{" "{") with true by reflexivity.
  rewrite (to_last_close_some mid post Hpost).
  unfold slice. cbn [Nat.add].
  rewrite drop_app_length. f_equal.
  replace ("{"%char :: mid ++ "}"%char :: post)
    with (("{"%char :: mid ++ ["}"%char]) ++ post)
    by (cbn; now rewrite <- app_assoc).
  replace (length pre + _ - length pre)
    with (length ("{"%char :: mid ++ ["}"%char]))
    by (rewrite !length_app; cbn [length]; rewrite !length_app; cbn [length]; lia).
  now rewrite take_app_length.
Qed.

Lemma search_json_shape (s : text) : forall pos i j,
  search_from json_pattern pos s = Some (i, j) ->
  exists a b c, s = a ++ "{"%char :: b ++ "}"%char :: c.
Proof.
  induction s as [|x s IH]; intros pos i j; rewrite search_from_eq, json_match.
  - discriminate.
  - destruct (chr_is "{" x) eqn:Hx.
    + apply chr_is_true in Hx. subst x.
      destruct (match_here to_last_close s) as [rest|] eqn:Hm.
      * intros _. destruct (to_last_close_shape _ _ Hm) as [mid ->].
        now exists [], mid, rest.
      * intros H. destruct (IH _ _ _ H) as (a & b & c & ->).
        now exists ("{"%char :: a), b, c.
    + intros H. destruct (IH _ _ _ H) as (a & b & c & ->).
      now exists (x :: a), b, c.
Qed.

Lemma extract_json_none (response : text) :
  (forall a b c, response <> a ++ "{"%char :: b ++ "}"%char :: c) ->
  extract_json response = None.
Proof.
  intros H. unfold extract_json, re_search_group, re_search.
  destruct (search_from json_pattern 0 response) as [[i j]|] eqn:Hs; [|reflexivity].
  destruct (search_json_shape _ _ _ _ Hs) as (a & b & c & ->).
  now destruct (H a b c).
Qed.

(** ** C1: the extraction of the JSON object *)

Lemma step1_submit (json_loads : text -> option json) (E : env) (I : inputs)
    (s : session) (response : text) :
  submitted I = true ->
  generate_content E (seo_prompt I) = Some response ->
  nonempty response = true ->
  step1 json_loads E I s =
    match extract_json response with
    | None => (s, [Called (seo_prompt I)], Ok tt)
    | Some group =>
        match json_loads group with
        | Some (JDict d) =>
            (Session 2 (merged_article (article_data s) d I) (images s),
             [Called (seo_prompt I)], Halt Rerun)
        | _ =>
            (s, [Called (seo_prompt I); StError "Error parsing response";
                 StCode response], Ok tt)
        end
    end.
Proof.
  unfold submitted, seo_prompt. intros Hsub Hgen Hne.
  unfold step1. rewrite Hsub.
  unfold call_gemini, bind, emit. rewrite Hgen. cbn. rewrite Hne.
  unfold try_except, loads.
  destruct (extract_json response) as [group|]; [|reflexivity].
  destruct (json_loads group) as [[]|]; reflexivity.
Qed.

(** C1, as the code has it.  The text handed to the decoder runs from the
    first opening brace to the last closing brace: for an object between a
    prose without opening brace and a prose without closing brace it is that
    object; a response without an opening brace followed by a closing one
    gives nothing to decode; and the submit of step 1 merges a decoded
    dictionary and moves to step 2, and otherwise leaves the session, step
    included, as it was. *)
Theorem extract_json_first_to_last (json_loads : text -> option json) :
  (forall pre mid post : text,
      Forall (fun c => c <> "{"%char) pre ->
      Forall (fun c => c <> "}"%char) post ->
      extract_json (pre ++ "{"%char :: mid ++ "}"%char :: post)
      = Some ("{"%char :: mid ++ ["}"%char]))
  /\ (forall response : text,
      (forall a b c, response <> a ++ "{"%char :: b ++ "}"%char :: c) ->
      extract_json response = None)
  /\ (forall (E : env) (I : inputs) (s : session) (response : text),
      submitted I = true ->
      generate_content E (seo_prompt I) = Some response ->
      nonempty response = true ->
      step1 json_loads E I s =
        match extract_json response with
        | None => (s, [Called (seo_prompt I)], Ok tt)
        | Some group =>
            match json_loads group with
            | Some (JDict d) =>
                (Session 2 (merged_article (article_data s) d I) (images s),
                 [Called (seo_prompt I)], Halt Rerun)
            | _ =>
                (s, [Called (seo_prompt I); StError "Error parsing response";
                     StCode response], Ok tt)
            end
        end).
Proof.
  split; [exact extract_json_object|].
  split; [exact extract_json_none|].
  exact (step1_submit json_loads).
Qed.

(** C1 as stated fails: with two objects in the response the text handed
    to the decoder is not the first balanced object. *)
Lemma extract_json_not_first_balanced :
  extract_json (txt "{} and {}") = Some (txt "{} and {}")
  /\ first_balanced_object (txt "{} and {}") = Some (txt "{}")
  /\ extract_json (txt "{} and {}") <> first_balanced_object (txt "{} and {}").
Proof.
  split; [reflexivity|]. split; [reflexivity|].
  vm_compute. discriminate.
Qed.

Lemma extract_json_first_to_last_witness :
  extract_json (txt "Sure: " ++ "{"%char :: txt " " ++ "}"%char :: txt " done")
  = Some ("{"%char :: txt " " ++ ["}"%char])
  /\ extract_json (txt "I cannot help with that") = None
  /\ step1 demo_loads (demo_env (txt "Here: {} enjoy")) (demo_inputs BtnForward)
       initial_session
     = (Session 2 (merged_article ∅ [] (demo_inputs BtnForward)) [],
        [Called (seo_prompt (demo_inputs BtnForward))], Halt Rerun).
Proof.
  destruct (extract_json_first_to_last demo_loads) as (H1 & H2 & H3).
  split; [apply H1; repeat constructor; discriminate|].
  split.
  - apply H2. intros a b c H.
    apply (f_equal (existsb (chr_is "{"%char))) in H.
    rewrite existsb_app in H. cbn in H. rewrite orb_true_r in H. discriminate.
  - rewrite (H3 (demo_env (txt "Here: {} enjoy")) (demo_inputs BtnForward)
               initial_session (txt "Here: {} enjoy")); reflexivity.
Defined.

(** ** C5: the upload gate *)

Lemma step5_run (E : env) (I : inputs) (s : session) (n : nat) :
  images_needed s = inr n ->
  step5 E I s =
    let files := in_uploaded_files I in
    let exact := Nat.eqb (length files) n in
    let accepted := negb (Nat.eqb (length files) 0) && exact in
    let imgs := if accepted then files else images s in
    let log :=
      if negb (Nat.eqb (length files) 0)
      then if exact then [StSuccess "All images uploaded!"]
           else [StWarning "Please upload exactly the planned number of images"]
      else [] in
    if pressed I BtnBack
    then (Session 4 (article_data s) imgs, log, Halt Rerun)
    else if pressed I BtnForward && exact
    then (Session 6 (article_data s) imgs, log, Halt Rerun)
    else (if accepted then Session (step s) (article_data s) files else s,
          log, Ok tt).
Proof.
  unfold images_needed, step5, load_or, bind, get. cbn.
  destruct (article_data s !! "image_plan") as [plan|]; cbn.
  - destruct (dict_get plan "images" (JList [])) as [e|plan_images]; [discriminate|].
    cbn. intros ->. cbn.
    destruct (Nat.eqb (length (in_uploaded_files I)) 0);
      destruct (Nat.eqb (length (in_uploaded_files I)) n);
      destruct (pressed I BtnBack); destruct (pressed I BtnForward); reflexivity.
  - intros [= <-].
    destruct (Nat.eqb (length (in_uploaded_files I)) 0);
      destruct (pressed I BtnBack); destruct (pressed I BtnForward); reflexivity.
Qed.

Lemma pressed_clicked (I : inputs) (b : button) :
  pressed I b = true -> clicked I = Some b.
Proof.
  unfold pressed. destruct (clicked I) as [b'|]; [|discriminate].
  destruct b', b; (discriminate || reflexivity).
Qed.

Lemma pressed_other (I : inputs) (b b' : button) :
  pressed I b = true -> button_eqb b b' = false -> pressed I b' = false.
Proof.
  intros H. apply pressed_clicked in H. unfold pressed. now rewrite H.
Qed.

(** C5.  On every run of step 5, whatever is clicked: the step becomes 6
    exactly when the forward button is clicked and the number of files equals
    the number of descriptors, so on a mismatch the forward button does
    nothing; it becomes 4 exactly on the back button and is 5 otherwise.
    The files of the uploader are stored, whole and in their order, exactly
    when there is at least one and their number is the number of
    descriptors; otherwise the stored files are untouched.  A warning is
    shown exactly on a mismatch with at least one file, and the article
    record is never touched. *)
Theorem upload_gate_exact (E : env) (I : inputs) (s : session) (n : nat) :
  step s = 5%Z ->
  images_needed s = inr n ->
  let files := in_uploaded_files I in
  let r := step5 E I s in
  (step (final r) = 6%Z <-> pressed I BtnForward = true /\ length files = n)
  /\ (step (final r) = 4%Z <-> pressed I BtnBack = true)
  /\ (step (final r) = 4%Z \/ step (final r) = 5%Z \/ step (final r) = 6%Z)
  /\ (ending r = Ok tt <-> step (final r) = 5%Z)
  /\ (ending r = Halt Rerun <-> step (final r) <> 5%Z)
  /\ (files <> [] -> length files = n -> images (final r) = files)
  /\ (files = [] \/ length files <> n -> images (final r) = images s)
  /\ (In (StWarning "Please upload exactly the planned number of images")
         (shown r)
      <-> files <> [] /\ length files <> n)
  /\ (In (StSuccess "All images uploaded!") (shown r)
      <-> files <> [] /\ length files = n)
  /\ article_data (final r) = article_data s.
Proof.
  intros Hstep Hn. cbv zeta.
  rewrite (step5_run E I s n Hn). cbv zeta.
  assert (pressed I BtnBack = true -> pressed I BtnForward = false) as Hex.
  { intros H. exact (pressed_other I BtnBack BtnForward H eq_refl). }
  destruct (pressed I BtnBack) eqn:Hback;
    [rewrite (Hex eq_refl)|clear Hex];
    destruct (pressed I BtnForward) eqn:Hfwd;
    try discriminate;
    destruct (Nat.eqb_spec (length (in_uploaded_files I)) n) as [Heq|Hne];
    destruct (in_uploaded_files I) as [|f fs] eqn:Hfiles; cbn in *;
    rewrite ?Hstep;
    repeat split; intros; subst;
    try reflexivity; try congruence; try lia; try tauto;
    try (now left); try (now right; left); try (now right; right);
    try (destruct H as [H|[]]; discriminate);
    try (destruct H; congruence).
Qed.

Lemma upload_gate_exact_witness :
  let r := step5 (demo_env []) (demo_upload BtnForward
             [demo_file "a.png"; demo_file "b.png"; demo_file "c.png"])
             (Session 5 {[ "image_plan" := demo_plan ]} []) in
  step (final r) = 6%Z
  /\ images (final r) = [demo_file "a.png"; demo_file "b.png"; demo_file "c.png"].
Proof.
  pose proof (upload_gate_exact (demo_env [])
    (demo_upload BtnForward [demo_file "a.png"; demo_file "b.png"; demo_file "c.png"])
    (Session 5 {[ "image_plan" := demo_plan ]} []) 3
    eq_refl eq_refl) as (H1 & _ & _ & _ & _ & H6 & _).
  split; [apply H1; now split | apply H6; [discriminate | reflexivity]].
Defined.

(** Two files against three descriptors: the step stays 5, with or without
    a click on the forward button, and nothing is stored. *)
Example upload_gate_two_of_three :
  let s := Session 5 {[ "image_plan" := demo_plan ]} [] in
  let files := [demo_file "a.png"; demo_file "b.png"] in
  step5 (demo_env []) (demo_upload BtnForward files) s
  = (s, [StWarning "Please upload exactly the planned number of images"], Ok tt)
  /\ step5 (demo_env []) (demo_uploading files) s
     = (s, [StWarning "Please upload exactly the planned number of images"],
        Ok tt).
Proof. split; reflexivity. Qed.

(** Three files against three descriptors are stored by the run that the
    upload itself starts, before any click. *)
Example upload_gate_stores_before_click :
  let s := Session 5 {[ "image_plan" := demo_plan ]} [] in
  let files := [demo_file "a.png"; demo_file "b.png"; demo_file "c.png"] in
  step5 (demo_env []) (demo_uploading files) s
  = (Session 5 {[ "image_plan" := demo_plan ]} files,
     [StSuccess "All images uploaded!"], Ok tt).
Proof. reflexivity. Qed.

(** ** Equations of the run monad *)

Lemma triple_eta {A} (x : session * list event * res A) :
  (let '(s2, l2, r) := x in (s2, [] ++ l2, r)) = x.
Proof. now destruct x as [[? ?] ?]. Qed.

Lemma bind_ret {A B} (a : A) (k : A -> M B) (s : session) :
  bind (ret a) k s = k a s.
Proof. unfold bind, ret. apply triple_eta. Qed.

Lemma bind_get {B} (k : session -> M B) (s : session) :
  bind get k s = k s s.
Proof. unfold bind, get. apply triple_eta. Qed.

Lemma bind_halt {A B} (h : halt) (k : A -> M B) (s : session) :
  bind (halt_with h) k s = (s, [], Halt h).
Proof. reflexivity. Qed.

Lemma bind_raise {A B} (e : exn) (k : A -> M B) (s : session) :
  bind (raise e) k s = (s, [], Halt (Raise e)).
Proof. reflexivity. Qed.

Lemma bind_lift_inr {A B} (a : A) (k : A -> M B) (s : session) :
  bind (lift (inr a)) k s = k a s.
Proof. apply bind_ret. Qed.

Lemma bind_lift_inl {A B} (e : exn) (k : A -> M B) (s : session) :
  bind (lift (inl e)) k s = (s, [], Halt (Raise e)).
Proof. reflexivity. Qed.

Lemma bind_emit {B} (e : event) (k : unit -> M B) (s : session) :
  bind (emit e) k s = (final (k tt s), e :: shown (k tt s), ending (k tt s)).
Proof. unfold bind, emit. now destruct (k tt s) as [[? ?] ?]. Qed.

Lemma bind_set_step {B} (n : Z) (k : unit -> M B) (s : session) :
  bind (set_step n) k s = k tt (Session n (article_data s) (images s)).
Proof. unfold bind, set_step. apply triple_eta. Qed.

Lemma bind_set_article {B} (a : gmap string json) (k : unit -> M B) (s : session) :
  bind (set_article a) k s = k tt (Session (step s) a (images s)).
Proof. unfold bind, set_article. apply triple_eta. Qed.

Lemma bind_set_images {B} (fs : list upfile) (k : unit -> M B) (s : session) :
  bind (set_images fs) k s = k tt (Session (step s) (article_data s) fs).
Proof. unfold bind, set_images. apply triple_eta. Qed.

Lemma bind_store {B} (key : string) (v : json) (k : unit -> M B) (s : session) :
  bind (store key v) k s
  = k tt (Session (step s) (<[key := v]> (article_data s)) (images s)).
Proof. unfold bind, store. apply triple_eta. Qed.

Lemma bind_load_or {B} (key : string) (d : json) (k : json -> M B) (s : session) :
  bind (load_or key d) k s = k (article_get s key d) s.
Proof.
  unfold load_or, article_get, bind, get. cbn.
  destruct (article_data s !! key); cbn;
    now destruct (k _ s) as [[? ?] ?].
Qed.

Lemma bind_load {B} (key : string) (k : json -> M B) (s : session) :
  bind (load key) k s =
  match article_data s !! key with
  | Some v => k v s
  | None => (s, [], Halt (Raise (KeyError key)))
  end.
Proof.
  unfold load, bind, get. cbn.
  destruct (article_data s !! key); cbn; [|reflexivity].
  now destruct (k _ s) as [[? ?] ?].
Qed.

Lemma bind_assoc {A B C} (m : M A) (f : A -> M B) (g : B -> M C) (s : session) :
  bind (bind m f) g s = bind m (fun a => bind (f a) g) s.
Proof.
  unfold bind. destruct (m s) as [[s1 l1] [a|h]]; [|reflexivity].
  destruct (f a s1) as [[s2 l2] [b|h]]; [|reflexivity].
  destruct (g b s2) as [[s3 l3] r]. now rewrite app_assoc.
Qed.

Lemma bind_if {A B} (c : bool) (m1 m2 : M A) (k : A -> M B) (s : session) :
  bind (if c then m1 else m2) k s = if c then bind m1 k s else bind m2 k s.
Proof. now destruct c. Qed.

(** ** C7: a malformed outline at step 2 *)

Lemma step2_malformed (json_loads : text -> option json) (E : env) (I : inputs)
    (s : session) :
  step2_renders s ->
  pressed I BtnForward = true ->
  json_loads (in_outline_text I) = None ->
  step2 json_loads E I s
  = (Session (step s) (with_form_fields (article_data s) I) (images s), [],
     Halt (Raise JSONDecodeError)).
Proof.
  intros [Hc Ht] Hfwd Hbad.
  unfold step2, loads.
  rewrite (pressed_other I BtnForward BtnBack Hfwd eq_refl), Hfwd, Hbad.
  rewrite bind_load_or, Hc, bind_lift_inr, bind_load_or, Ht, bind_lift_inr.
  rewrite bind_ret, !bind_store. reflexivity.
Qed.

(** C7, as the code has it.  With an outline text that does not decode, the
    forward button of step 2 ends the run with the decoder's exception, the
    step and the stored files are unchanged, and no key of the article record
    is removed; the record keeps every field except the title, the meta
    description, the slug and the focus keyphrase, which were written from the
    form before the outline was decoded. *)
Theorem malformed_outline_blocks (json_loads : text -> option json) (E : env)
    (I : inputs) (s : session) :
  step2_renders s ->
  pressed I BtnForward = true ->
  json_loads (in_outline_text I) = None ->
  let r := step2 json_loads E I s in
  ending r = Halt (Raise JSONDecodeError)
  /\ step (final r) = step s
  /\ images (final r) = images s
  /\ article_data (final r) = with_form_fields (article_data s) I
  /\ (forall k : string,
        k <> "title" -> k <> "meta_description" -> k <> "slug" ->
        k <> "focus_keyphrase" ->
        article_data (final r) !! k = article_data s !! k)
  /\ (forall k : string,
        is_Some (article_data s !! k) -> is_Some (article_data (final r) !! k)).
Proof.
  intros Hr Hfwd Hbad. cbv zeta.
  rewrite (step2_malformed json_loads E I s Hr Hfwd Hbad). cbn.
  repeat split.
  - intros k H1 H2 H3 H4. unfold with_form_fields.
    now rewrite !lookup_insert_ne by congruence.
  - intros k Hk. unfold with_form_fields.
    rewrite !lookup_insert_is_Some'. tauto.
Qed.

Lemma malformed_outline_blocks_witness :
  let s := Session 2 {[ "title" := JStr (txt "Old title");
                        "outline" := JList [] ]} [] in
  let r := step2 demo_loads (demo_env []) (demo_review BtnForward "New" "[oops") s in
  ending r = Halt (Raise JSONDecodeError)
  /\ step (final r) = 2%Z
  /\ article_data (final r) !! "outline" = Some (JList []).
Proof.
  cbv zeta.
  pose proof (malformed_outline_blocks demo_loads (demo_env [])
    (demo_review BtnForward "New" "[oops")
    (Session 2 {[ "title" := JStr (txt "Old title"); "outline" := JList [] ]} [])
    (conj eq_refl eq_refl) eq_refl eq_refl) as (H1 & H2 & _ & _ & H5 & _).
  split; [exact H1|]. split; [exact H2|].
  rewrite H5 by discriminate. reflexivity.
Defined.

(** C7 as stated fails: the failed transition has already replaced the
    stored title by the title of the form. *)
Lemma malformed_outline_changes_article :
  let s := Session 2 {[ "title" := JStr (txt "Old title");
                        "outline" := JList [] ]} [] in
  let r := step2 demo_loads (demo_env []) (demo_review BtnForward "New" "[oops") s in
  demo_loads (txt "[oops") = None
  /\ ending r = Halt (Raise JSONDecodeError)
  /\ article_data s !! "title" = Some (JStr (txt "Old title"))
  /\ article_data (final r) !! "title" = Some (JStr (txt "New"))
  /\ article_data (final r) <> article_data s.
Proof.
  cbv zeta. repeat split.
  intros H. apply (f_equal (fun m : gmap string json => m !! "title")) in H.
  vm_compute in H. discriminate.
Qed.

(** ** C8: the secrets at startup *)


Lemma configure_present (E : env) (s : session) (v : text) :
  secrets E !! "GEMINI_API_KEY" = Some v ->
  configure E s = (s, [], Ok tt).
Proof.
  intros H. unfold configure, try_except, secret, bind. now rewrite H.
Qed.




(** ** Computations that do not write the session *)

Lemma readonly_ret {A} (a : A) : readonly (ret a).
Proof. now intros s. Qed.

Lemma readonly_get : readonly get.
Proof. now intros s. Qed.

Lemma readonly_emit (e : event) : readonly (emit e).
Proof. now intros s. Qed.

Lemma readonly_halt {A} (h : halt) : readonly (@halt_with A h).
Proof. now intros s. Qed.

Lemma readonly_raise {A} (e : exn) : readonly (@raise A e).
Proof. now intros s. Qed.

Lemma readonly_lift {A} (x : exn + A) : readonly (lift x).
Proof. now destruct x; intros s. Qed.

Lemma readonly_bind {A B} (m : M A) (f : A -> M B) :
  readonly m -> (forall a, readonly (f a)) -> readonly (bind m f).
Proof.
  intros Hm Hf s. unfold bind. specialize (Hm s).
  destruct (m s) as [[s1 l1] [a|h]]; cbn in Hm; subst s1; [|reflexivity].
  specialize (Hf a s). now destruct (f a s) as [[s2 l2] r].
Qed.

Lemma readonly_try {A} (m : M A) (handler : exn -> M A) :
  readonly m -> (forall e, readonly (handler e)) -> readonly (try_except m handler).
Proof.
  intros Hm Hh s. unfold try_except. specialize (Hm s).
  destruct (m s) as [[s1 l1] [a|[| |e]]]; cbn in Hm; subst s1; try reflexivity.
  specialize (Hh e s). now destruct (handler e s) as [[s2 l2] r].
Qed.

Create HintDb readonly_db.

#[local] Hint Resolve readonly_ret readonly_get readonly_emit readonly_raise
  readonly_halt readonly_lift : readonly_db.

Ltac readonly_step :=
  first
    [ solve [auto with readonly_db]
    | apply readonly_bind; [|intros ?]
    | apply readonly_try; [|intros ?]
    | match goal with
      | |- readonly (match ?x with _ => _ end) => destruct x
      | |- readonly (if ?c then _ else _) => destruct c
      end ].

Ltac readonly_auto := cbv zeta; repeat readonly_step.

Lemma readonly_secret (E : env) (k : string) : readonly (secret E k).
Proof. unfold secret. readonly_auto. Qed.

Lemma readonly_load (k : string) : readonly (load k).
Proof. unfold load. readonly_auto. Qed.

Lemma readonly_load_or (k : string) (d : json) : readonly (load_or k d).
Proof. unfold load_or. readonly_auto. Qed.

Lemma readonly_convert (E : env) (f : upfile) : readonly (convert_to_webp E f).
Proof. unfold convert_to_webp. readonly_auto. Qed.

Lemma readonly_call_gemini (E : env) (p : prompt) : readonly (call_gemini E p).
Proof. unfold call_gemini. readonly_auto. Qed.

Lemma readonly_send (E : env) (r : request) : readonly (send E r).
Proof. unfold send. readonly_auto. Qed.

Lemma readonly_response_json (body : option json) : readonly (response_json body).
Proof. unfold response_json. readonly_auto. Qed.

#[local] Hint Resolve readonly_secret readonly_load readonly_load_or
  readonly_convert readonly_call_gemini readonly_send readonly_response_json
  : readonly_db.

Lemma readonly_upload (E : env) (data : bytes) (filename alt : text) :
  readonly (upload_to_wordpress E data filename alt).
Proof. unfold upload_to_wordpress. readonly_auto. Qed.

Lemma readonly_create_post (E : env) (title content meta_desc slug : json)
    (categories tags : list json) (featured : json) :
  readonly (create_wordpress_post E title content meta_desc slug categories tags
              featured).
Proof. unfold create_wordpress_post. readonly_auto. Qed.

Lemma readonly_get_wp_names (E : env) (r : text -> request) :
  readonly (get_wp_names E r).
Proof. unfold get_wp_names. readonly_auto. Qed.

#[local] Hint Resolve readonly_upload readonly_create_post readonly_get_wp_names
  : readonly_db.

Lemma readonly_process_image (E : env) (idx : Z) (f : upfile) (d : json) :
  readonly (process_image E idx f d).
Proof. unfold process_image. readonly_auto. Qed.

#[local] Hint Resolve readonly_process_image : readonly_db.

Lemma readonly_process_images (E : env) (pairs : list (upfile * json)) :
  forall idx, readonly (process_images E idx pairs).
Proof.
  induction pairs as [|[f d] rest IH]; intros idx; cbn [process_images];
    readonly_auto.
Qed.

Lemma readonly_show_post (post : json) : readonly (show_post post).
Proof. unfold show_post. readonly_auto. Qed.

#[local] Hint Resolve readonly_process_images readonly_show_post : readonly_db.

Lemma readonly_publish (container_str : json -> text) (E : env) :
  readonly (publish container_str E).
Proof. unfold publish, get_wp_categories, get_wp_tags. readonly_auto. Qed.

(** ** What a computation ensures of the session it leaves *)

Lemma ensures_bind {A B} (m : M A) (f : A -> M B) (s : session)
    (Q : session -> Prop) :
  ensures m s (fun s1 => Q s1 /\ forall a, ensures (f a) s1 Q) ->
  ensures (bind m f) s Q.
Proof.
  unfold ensures, bind, final.
  destruct (m s) as [[s1 l1] [a|h]]; cbn; intros [H1 H2]; [|exact H1].
  specialize (H2 a). now destruct (f a s1) as [[s2 l2] r].
Qed.

Lemma ensures_try {A} (m : M A) (handler : exn -> M A) (s : session)
    (Q : session -> Prop) :
  ensures m s (fun s1 => Q s1 /\ forall e, ensures (handler e) s1 Q) ->
  ensures (try_except m handler) s Q.
Proof.
  unfold ensures, try_except, final.
  destruct (m s) as [[s1 l1] [a|[| |e]]]; cbn; intros [H1 H2]; try exact H1.
  specialize (H2 e). now destruct (handler e s1) as [[s2 l2] r].
Qed.

Lemma ensures_readonly {A} (m : M A) (s : session) (Q : session -> Prop) :
  readonly m -> Q s -> ensures m s Q.
Proof. intros Hm HQ. unfold ensures. now rewrite Hm. Qed.

Lemma ensures_set_step (n : Z) (s : session) (Q : session -> Prop) :
  Q (Session n (article_data s) (images s)) -> ensures (set_step n) s Q.
Proof. trivial. Qed.

Lemma ensures_set_article (a : gmap string json) (s : session)
    (Q : session -> Prop) :
  Q (Session (step s) a (images s)) -> ensures (set_article a) s Q.
Proof. trivial. Qed.

Lemma ensures_set_images (fs : list upfile) (s : session) (Q : session -> Prop) :
  Q (Session (step s) (article_data s) fs) -> ensures (set_images fs) s Q.
Proof. trivial. Qed.

Lemma ensures_store (k : string) (v : json) (s : session) (Q : session -> Prop) :
  Q (Session (step s) (<[k := v]> (article_data s)) (images s)) ->
  ensures (store k v) s Q.
Proof. trivial. Qed.

Lemma ensures_get_bind {B} (f : session -> M B) (s : session)
    (Q : session -> Prop) :
  ensures (f s) s Q -> ensures (bind get f) s Q.
Proof. unfold ensures. now rewrite bind_get. Qed.

Lemma readonly_loads (json_loads : text -> option json) (t : text) :
  readonly (loads json_loads t).
Proof. unfold loads. readonly_auto. Qed.

#[local] Hint Resolve readonly_loads readonly_publish : readonly_db.

(** One step of the decomposition of a computation, by its head. *)
Ltac ensures_step :=
  lazymatch goal with
  | |- ensures (bind get _) _ _ => apply ensures_get_bind
  | |- ensures (bind _ _) _ _ => apply ensures_bind
  | |- ensures (try_except _ _) _ _ => apply ensures_try
  | |- ensures (set_step _) _ _ => apply ensures_set_step
  | |- ensures (set_article _) _ _ => apply ensures_set_article
  | |- ensures (set_images _) _ _ => apply ensures_set_images
  | |- ensures (store _ _) _ _ => apply ensures_store
  | |- ensures (match ?x with _ => _ end) _ _ => destruct x eqn:?
  | |- ensures (if ?c then _ else _) _ _ => destruct c eqn:?
  | |- ensures _ _ _ => apply ensures_readonly; [solve [auto with readonly_db]|]
  | |- _ /\ _ => split
  | |- forall _, _ => intros ?
  end.

Ltac ensures_auto := repeat (cbv beta zeta; ensures_step).

(** A leaf of the decomposition: the step of an explicit session. *)
Ltac transition_leaf :=
  unfold transition; cbn [step];
  repeat match goal with
         | H : (_ =? _)%Z = true |- _ => apply Z.eqb_eq in H
         | H : (_ && _) = true |- _ => apply andb_true_iff in H; destruct H
         end;
  first [ now left
        | right; left; repeat split; (assumption || lia)
        | right; right; left; repeat split; (assumption || lia)
        | right; right; right; repeat split; (assumption || lia) ].


Lemma ensures_mono {A} (m : M A) (s : session) (P Q : session -> Prop) :
  ensures m s P -> (forall s', P s' -> Q s') -> ensures m s Q.
Proof. unfold ensures. auto. Qed.

Lemma ensures_bind_mono {A B} (m : M A) (f : A -> M B) (s : session)
    (P Q : session -> Prop) :
  ensures m s P ->
  (forall s1, P s1 -> Q s1 /\ forall a, ensures (f a) s1 Q) ->
  ensures (bind m f) s Q.
Proof.
  intros Hm H. apply ensures_bind. eapply ensures_mono; [exact Hm|]. exact H.
Qed.

(** ** C9: the moves of the step *)

Lemma step1_moves (json_loads : text -> option json) (E : env) (I : inputs)
    (s : session) :
  ensures (step1 json_loads E I) s
    (fun s' => step s' = step s
               \/ (pressed I BtnForward = true /\ step s' = 2%Z)).
Proof.
  unfold step1. ensures_auto; cbn [step];
    repeat match goal with
           | H : (_ && _) = true |- _ => apply andb_true_iff in H; destruct H
           end;
    first [now left | now right].
Qed.

Ltac moves_leaf :=
  cbn [step];
  repeat match goal with
         | H : (_ && _) = true |- _ => apply andb_true_iff in H; destruct H
         end;
  first [ now left | now (right; left) | now (right; right) | now right ].

Lemma step2_moves (json_loads : text -> option json) (E : env) (I : inputs)
    (s : session) :
  ensures (step2 json_loads E I) s
    (fun s' => step s' = step s
               \/ (pressed I BtnBack = true /\ step s' = 1%Z)
               \/ (pressed I BtnForward = true /\ step s' = 3%Z)).
Proof. unfold step2. ensures_auto; moves_leaf. Qed.

Lemma step3_moves (E : env) (I : inputs) (s : session) :
  ensures (step3 E I) s
    (fun s' => step s' = step s
               \/ (pressed I BtnBack = true /\ step s' = 2%Z)
               \/ (pressed I BtnForward = true /\ step s' = 4%Z)).
Proof. unfold step3, generate_article. ensures_auto; moves_leaf. Qed.

Lemma step4_moves (json_loads : text -> option json) (E : env) (I : inputs)
    (s : session) :
  ensures (step4 json_loads E I) s
    (fun s' => step s' = step s
               \/ (pressed I BtnBack = true /\ step s' = 3%Z)
               \/ (pressed I BtnForward = true /\ step s' = 5%Z)).
Proof. unfold step4, plan_images_call. ensures_auto; moves_leaf. Qed.

Lemma step5_moves (E : env) (I : inputs) (s : session) :
  ensures (step5 E I) s
    (fun s' => step s' = step s
               \/ (pressed I BtnBack = true /\ step s' = 4%Z)
               \/ (pressed I BtnForward = true /\ step s' = 6%Z)).
Proof. unfold step5. ensures_auto; moves_leaf. Qed.

Lemma step6_moves (container_str : json -> text) (E : env) (I : inputs)
    (s : session) :
  ensures (step6 container_str E I) s (fun s' => step s' = step s).
Proof. unfold step6. ensures_auto; reflexivity. Qed.

Lemma sidebar_moves (I : inputs) (s : session) :
  ensures (sidebar I) s
    (fun s' => step s' = step s
               \/ (pressed I BtnReset = true /\ step s' = 1%Z)).
Proof. unfold sidebar. ensures_auto; moves_leaf. Qed.

Lemma readonly_configure (E : env) : readonly (configure E).
Proof. unfold configure, st_stop. readonly_auto. Qed.

Ltac stage_leaf :=
  cbv beta; intros ? ?;
  repeat match goal with
         | H : _ \/ _ |- _ => destruct H
         | H : _ /\ _ |- _ => destruct H
         end;
  first [ left; lia
        | right; left; repeat split; (assumption || lia)
        | right; right; repeat split; (assumption || lia) ].

Lemma stage_moves (json_loads : text -> option json)
    (container_str : json -> text) (E : env) (I : inputs) (s : session) :
  ensures (stage json_loads container_str E I) s
    (fun s' => step s' = step s
               \/ (pressed I BtnForward = true /\ (1 <= step s <= 5)%Z
                   /\ step s' = (step s + 1)%Z)
               \/ (pressed I BtnBack = true /\ (2 <= step s <= 5)%Z
                   /\ step s' = (step s - 1)%Z)).
Proof.
  unfold stage. apply ensures_get_bind.
  repeat match goal with
         | |- ensures (if ?c then _ else _) _ _ =>
             destruct c eqn:?; [|]
         end;
    repeat match goal with
           | H : (_ =? _)%Z = true |- _ => apply Z.eqb_eq in H
           | H : (_ =? _)%Z = false |- _ => clear H
           end.
  - eapply ensures_mono; [apply step1_moves|]. stage_leaf.
  - eapply ensures_mono; [apply step2_moves|]. stage_leaf.
  - eapply ensures_mono; [apply step3_moves|]. stage_leaf.
  - eapply ensures_mono; [apply step4_moves|]. stage_leaf.
  - eapply ensures_mono; [apply step5_moves|]. stage_leaf.
  - eapply ensures_mono; [apply step6_moves|]. stage_leaf.
  - apply ensures_readonly; [apply readonly_ret | now left].
Qed.

Lemma run_transition (json_loads : text -> option json)
    (container_str : json -> text) (E : env) (I : inputs) (s : session) :
  transition I s (final (run json_loads container_str E I s)).
Proof.
  change (ensures (run json_loads container_str E I) s (transition I s)).
  unfold run.
  apply ensures_bind. apply ensures_readonly; [apply readonly_configure|].
  split; [now left|]. intros _.
  eapply ensures_bind_mono; [apply stage_moves|]. cbv beta.
  intros s1 H1. split; [unfold transition; tauto|]. intros _.
  eapply ensures_mono; [apply sidebar_moves|]. cbv beta.
  intros s2 H2. unfold transition.
  destruct H2 as [H2|[Hr H2]]; [rewrite H2; tauto|tauto].
Qed.

Lemma step2_back (json_loads : text -> option json) (E : env) (I : inputs)
    (s : session) :
  step2_renders s ->
  pressed I BtnBack = true ->
  step2 json_loads E I s = (Session 1 (article_data s) (images s), [], Halt Rerun).
Proof.
  intros [Hc Ht] Hback. unfold step2. rewrite Hback.
  rewrite bind_load_or, Hc, bind_lift_inr, bind_load_or, Ht, bind_lift_inr.
  rewrite bind_assoc, bind_set_step. reflexivity.
Qed.

(** One step of the evaluation of a run, using the equations of the
    context. *)
Ltac run_step :=
  first
    [ rewrite bind_get | rewrite bind_ret | rewrite bind_lift_inr
    | rewrite bind_lift_inl | rewrite bind_load | rewrite bind_load_or
    | rewrite bind_store | rewrite bind_set_step | rewrite bind_set_article
    | rewrite bind_set_images | rewrite bind_assoc | rewrite bind_emit
    | progress cbn [article_data step images as_str]
    | rewrite lookup_insert_ne by discriminate
    | rewrite lookup_insert_eq
    | match goal with
      | H : ?x = _ |- context [?x] => rewrite H
      end ].

Ltac run_simpl := repeat run_step.

Lemma step3_back (E : env) (I : inputs) (s : session) :
  step3_renders s ->
  pressed I BtnBack = true ->
  step3 E I s
  = (Session 2 (<["content" := JStr (in_edited_content I)]> (article_data s))
       (images s), [], Halt Rerun).
Proof.
  intros ([c Hc] & [t Ht] & [m Hm] & [k Hk] & (w & Hw & Hn)) Hback.
  unfold step3. run_simpl. reflexivity.
Qed.

Lemma step4_back (json_loads : text -> option json) (E : env) (I : inputs)
    (s : session) :
  step4_renders s ->
  pressed I BtnBack = true ->
  step4 json_loads E I s = (Session 3 (article_data s) (images s), [], Halt Rerun).
Proof.
  intros (plan & v & l & Hp & Hv & Hl & Hshow) Hback.
  unfold step4. run_simpl. reflexivity.
Qed.

Lemma step5_back (E : env) (I : inputs) (s : session) :
  step5_renders s ->
  pressed I BtnBack = true ->
  ending (step5 E I s) = Halt Rerun
  /\ step (final (step5 E I s)) = 4%Z
  /\ article_data (final (step5 E I s)) = article_data s.
Proof.
  intros [n Hn] Hback. rewrite (step5_run E I s n Hn). cbv zeta.
  rewrite Hback. now repeat split.
Qed.

Lemma bind_halted {A B} (m : M A) (k : A -> M B) (s : session) (h : halt) :
  ending (m s) = Halt h ->
  bind m k s = (final (m s), shown (m s), Halt h).
Proof.
  unfold bind, ending, final, shown.
  destruct (m s) as [[s1 l1] r]; cbn. now intros ->.
Qed.

Lemma bind_configure {B} (E : env) (k : unit -> M B) (s : session) :
  is_Some (secrets E !! "GEMINI_API_KEY") ->
  bind (configure E) k s = k tt s.
Proof.
  intros [v Hv]. unfold bind. rewrite (configure_present E s v Hv).
  apply triple_eta.
Qed.

Lemma stage_back (json_loads : text -> option json)
    (container_str : json -> text) (E : env) (I : inputs) (s : session) :
  page_renders E s ->
  pressed I BtnBack = true ->
  let r := stage json_loads container_str E I s in
  ending r = Halt Rerun
  /\ step (final r) = (step s - 1)%Z
  /\ article_data (final r) = article_after_back I s.
Proof.
  intros [_ Hpage] Hback. cbv zeta. unfold stage, article_after_back.
  rewrite bind_get.
  destruct Hpage as [[Hs Hr]|[[Hs Hr]|[[Hs Hr]|[Hs Hr]]]]; rewrite Hs; cbn [Z.eqb Pos.eqb].
  - now rewrite (step2_back json_loads E I s Hr Hback).
  - now rewrite (step3_back E I s Hr Hback).
  - now rewrite (step4_back json_loads E I s Hr Hback).
  - exact (step5_back E I s Hr Hback).
Qed.

Lemma run_back (json_loads : text -> option json)
    (container_str : json -> text) (E : env) (I : inputs) (s : session) :
  page_renders E s ->
  pressed I BtnBack = true ->
  let r := run json_loads container_str E I s in
  ending r = Halt Rerun
  /\ step (final r) = (step s - 1)%Z
  /\ article_data (final r) = article_after_back I s.
Proof.
  intros Hpage Hback. cbv zeta. unfold run.
  rewrite (bind_configure E _ s (proj1 Hpage)).
  destruct (stage_back json_loads container_str E I s Hpage Hback)
    as (He & Hs & Ha).
  rewrite (bind_halted _ _ s Rerun He). cbn [ending final fst snd].
  now repeat split.
Qed.

(** C9, as the code has it.  From a step in 1..6 a run leaves the step in
    1..6; the step goes up only by one and only when the forward button is
    pressed, and down only by one on the back button or to 1 on the reset
    button; the back button, on a page that is drawn, ends the run with a
    rerun one step down, and the article record is as it was, except that on
    step 3 its content is the value of the text area. *)
Theorem stage_machine (json_loads : text -> option json)
    (container_str : json -> text) (E : env) (I : inputs) (s : session) :
  (1 <= step s <= 6)%Z ->
  let r := run json_loads container_str E I s in
  (1 <= step (final r) <= 6)%Z
  /\ ((step s < step (final r))%Z ->
      pressed I BtnForward = true /\ step (final r) = (step s + 1)%Z)
  /\ ((step (final r) < step s)%Z ->
      (pressed I BtnBack = true /\ step (final r) = (step s - 1)%Z)
      \/ (pressed I BtnReset = true /\ step (final r) = 1%Z))
  /\ (pressed I BtnBack = true -> page_renders E s ->
      ending r = Halt Rerun
      /\ step (final r) = (step s - 1)%Z
      /\ article_data (final r) = article_after_back I s
      /\ (forall k : string, k <> "content" ->
            article_data (final r) !! k = article_data s !! k)).
Proof.
  intros Hrange. cbv zeta.
  pose proof (run_transition json_loads container_str E I s) as Ht.
  unfold transition in Ht.
  split; [lia|]. split; [|split].
  - intros Hup. destruct Ht as [Ht|[Ht|[Ht|Ht]]]; [lia|tauto|lia|lia].
  - intros Hdown. destruct Ht as [Ht|[Ht|[Ht|Ht]]]; [lia|lia|tauto|tauto].
  - intros Hback Hpage.
    destruct (run_back json_loads container_str E I s Hpage Hback)
      as (He & Hs & Ha).
    repeat split; try assumption.
    intros k Hk. rewrite Ha. unfold article_after_back.
    destruct (step s =? 3)%Z; [|reflexivity].
    now rewrite lookup_insert_ne by congruence.
Qed.

Lemma stage_machine_witness :
  let r := run demo_loads demo_container_str gemini_only_env
             (demo_edit BtnBack "<p>Draft</p>") (demo_draft "<p>Draft</p>") in
  step (final r) = 2%Z
  /\ article_data (final r) = article_data (demo_draft "<p>Draft</p>").
Proof.
  cbv zeta.
  assert (Hpage : page_renders gemini_only_env (demo_draft "<p>Draft</p>")).
  { split; [now eexists|]. right; left. split; [reflexivity|].
    unfold step3_renders. cbn.
    repeat split; try (now eexists). }
  destruct (stage_machine demo_loads demo_container_str gemini_only_env
              (demo_edit BtnBack "<p>Draft</p>") (demo_draft "<p>Draft</p>")
              ltac:(cbn; lia))
    as (_ & _ & _ & Hback).
  destruct (Hback eq_refl Hpage) as (_ & Hs & Ha & _).
  split; [exact Hs|]. rewrite Ha. vm_compute. reflexivity.
Defined.

(** C9 as stated fails: on step 3 the run of the back button writes the
    value of the text area into the content of the article. *)
Lemma back_on_step3_writes_content :
  let s := demo_draft "<p>Draft</p>" in
  let r := run demo_loads demo_container_str gemini_only_env
             (demo_edit BtnBack "<p>Edited</p>") s in
  ending r = Halt Rerun
  /\ step (final r) = 2%Z
  /\ article_data s !! "content" = Some (JStr (txt "<p>Draft</p>"))
  /\ article_data (final r) !! "content" = Some (JStr (txt "<p>Edited</p>"))
  /\ article_data (final r) <> article_data s.
Proof.
  cbv zeta. repeat split.
  intros H. apply (f_equal (fun m : gmap string json => m !! "content")) in H.
  vm_compute in H. discriminate.
Qed.

(** ** What a computation shows and sends *)

Lemma emits_nil {A} (P : event -> Prop) (m : M A) :
  (forall s, shown (m s) = []) -> emits P m.
Proof. intros H s. rewrite H. constructor. Qed.

Lemma emits_ret {A} (P : event -> Prop) (a : A) : emits P (ret a).
Proof. now apply emits_nil. Qed.

Lemma emits_get (P : event -> Prop) : emits P get.
Proof. now apply emits_nil. Qed.

Lemma emits_halt {A} (P : event -> Prop) (h : halt) : emits P (@halt_with A h).
Proof. now apply emits_nil. Qed.

Lemma emits_raise {A} (P : event -> Prop) (e : exn) : emits P (@raise A e).
Proof. now apply emits_nil. Qed.

Lemma emits_lift {A} (P : event -> Prop) (x : exn + A) : emits P (lift x).
Proof. apply emits_nil. now destruct x. Qed.

Lemma emits_set_step (P : event -> Prop) (n : Z) : emits P (set_step n).
Proof. now apply emits_nil. Qed.

Lemma emits_set_article (P : event -> Prop) (a : gmap string json) :
  emits P (set_article a).
Proof. now apply emits_nil. Qed.

Lemma emits_set_images (P : event -> Prop) (fs : list upfile) :
  emits P (set_images fs).
Proof. now apply emits_nil. Qed.

Lemma emits_store (P : event -> Prop) (k : string) (v : json) :
  emits P (store k v).
Proof. now apply emits_nil. Qed.

Lemma emits_emit (P : event -> Prop) (e : event) : P e -> emits P (emit e).
Proof. intros H s. now repeat constructor. Qed.

Lemma emits_bind {A B} (P : event -> Prop) (m : M A) (f : A -> M B) :
  emits P m -> (forall a, emits P (f a)) -> emits P (bind m f).
Proof.
  intros Hm Hf s. unfold bind, shown. specialize (Hm s). unfold shown in Hm.
  destruct (m s) as [[s1 l1] [a|h]]; cbn in *; [|exact Hm].
  specialize (Hf a s1). unfold shown in Hf.
  destruct (f a s1) as [[s2 l2] r]; cbn in *. now apply Forall_app.
Qed.

Lemma emits_try {A} (P : event -> Prop) (m : M A) (handler : exn -> M A) :
  emits P m -> (forall e, emits P (handler e)) -> emits P (try_except m handler).
Proof.
  intros Hm Hh s. unfold try_except, shown. specialize (Hm s). unfold shown in Hm.
  destruct (m s) as [[s1 l1] [a|[| |e]]]; cbn in *; try exact Hm.
  specialize (Hh e s1). unfold shown in Hh.
  destruct (handler e s1) as [[s2 l2] r]; cbn in *. now apply Forall_app.
Qed.

Create HintDb emits_db.

#[local] Hint Resolve emits_ret emits_get emits_halt emits_raise emits_lift
  emits_set_step emits_set_article emits_set_images emits_store : emits_db.

Ltac emits_step :=
  lazymatch goal with
  | |- emits _ (bind _ _) => apply emits_bind; [|intros ?]
  | |- emits _ (try_except _ _) => apply emits_try; [|intros ?]
  | |- emits _ (emit _) => apply emits_emit; try first [exact I | reflexivity | assumption]
  | |- emits _ (match ?x with _ => _ end) => destruct x
  | |- emits _ (if ?c then _ else _) => destruct c
  | |- emits _ _ => solve [auto with emits_db]
  end.

Ltac emits_auto := cbv zeta; repeat emits_step.

Lemma emits_send (Q : post_data -> Prop) (E : env) (r : request) :
  post_pred Q (Sent r) -> emits (post_pred Q) (send E r).
Proof. intros H. unfold send. emits_auto. Qed.

Lemma emits_secret (P : event -> Prop) (E : env) (k : string) :
  emits P (secret E k).
Proof. unfold secret. emits_auto. Qed.

Lemma emits_load (P : event -> Prop) (k : string) : emits P (load k).
Proof. unfold load. emits_auto. Qed.

Lemma emits_load_or (P : event -> Prop) (k : string) (d : json) :
  emits P (load_or k d).
Proof. unfold load_or. emits_auto. Qed.

Lemma emits_loads (P : event -> Prop) (json_loads : text -> option json)
    (t : text) : emits P (loads json_loads t).
Proof. unfold loads. emits_auto. Qed.

Lemma emits_response_json (P : event -> Prop) (body : option json) :
  emits P (response_json body).
Proof. unfold response_json. emits_auto. Qed.

Lemma emits_convert (Q : post_data -> Prop) (E : env) (f : upfile) :
  emits (post_pred Q) (convert_to_webp E f).
Proof. unfold convert_to_webp. emits_auto. Qed.

Lemma emits_call_gemini (Q : post_data -> Prop) (E : env) (p : prompt) :
  emits (post_pred Q) (call_gemini E p).
Proof. unfold call_gemini. emits_auto. Qed.

#[local] Hint Resolve emits_secret emits_load emits_load_or emits_loads
  emits_response_json emits_convert emits_call_gemini : emits_db.

Lemma emits_upload (Q : post_data -> Prop) (E : env) (data : bytes)
    (filename alt : text) :
  emits (post_pred Q) (upload_to_wordpress E data filename alt).
Proof.
  unfold upload_to_wordpress. emits_auto; apply emits_send; exact I.
Qed.

Lemma emits_create_post (Q : post_data -> Prop) (E : env)
    (title content meta_desc slug : json) (categories tags : list json)
    (featured : json) :
  Q (PostData title content (txt "draft") slug meta_desc categories tags featured) ->
  emits (post_pred Q)
    (create_wordpress_post E title content meta_desc slug categories tags
       featured).
Proof.
  intros HQ. unfold create_wordpress_post. emits_auto. apply emits_send. exact HQ.
Qed.

Lemma emits_get_wp_names (Q : post_data -> Prop) (E : env) (r : text -> request) :
  (forall url, post_pred Q (Sent (r url))) ->
  emits (post_pred Q) (get_wp_names E r).
Proof. intros H. unfold get_wp_names. emits_auto. now apply emits_send. Qed.

Lemma emits_get_wp_categories (Q : post_data -> Prop) (E : env) :
  emits (post_pred Q) (get_wp_categories E).
Proof. apply emits_get_wp_names. intros url. exact I. Qed.

Lemma emits_get_wp_tags (Q : post_data -> Prop) (E : env) :
  emits (post_pred Q) (get_wp_tags E).
Proof. apply emits_get_wp_names. intros url. exact I. Qed.

#[local] Hint Resolve emits_upload emits_get_wp_categories emits_get_wp_tags
  : emits_db.

Lemma emits_process_image (Q : post_data -> Prop) (E : env) (idx : Z)
    (f : upfile) (d : json) :
  emits (post_pred Q) (process_image E idx f d).
Proof. unfold process_image. emits_auto. Qed.

#[local] Hint Resolve emits_process_image : emits_db.

Lemma emits_process_images (Q : post_data -> Prop) (E : env)
    (pairs : list (upfile * json)) :
  forall idx, emits (post_pred Q) (process_images E idx pairs).
Proof.
  induction pairs as [|[f d] rest IH]; intros idx; cbn [process_images];
    emits_auto.
Qed.

Lemma emits_show_post (Q : post_data -> Prop) (post : json) :
  emits (post_pred Q) (show_post post).
Proof. unfold show_post. emits_auto. Qed.

#[local] Hint Resolve emits_process_images emits_show_post : emits_db.

Lemma emits_publish (container_str : json -> text) (E : env) :
  emits draft_only (publish container_str E).
Proof.
  unfold publish, draft_only.
  emits_auto; apply emits_create_post; reflexivity.
Qed.

Lemma emits_run (json_loads : text -> option json)
    (container_str : json -> text) (E : env) (I : inputs) :
  emits draft_only (run json_loads container_str E I).
Proof.
  pose proof (emits_publish container_str E) as Hpublish.
  unfold draft_only in *.
  unfold run, configure, stage, sidebar, step1, step2, step3, step4, step5,
    step6, generate_article, plan_images_call, st_stop, st_rerun.
  emits_auto; exact Hpublish.
Qed.

Lemma publish_run_keeps_session (json_loads : text -> option json)
    (container_str : json -> text) (E : env) (I : inputs) (s : session) :
  step s = 6%Z ->
  pressed I BtnPublish = true ->
  final (run json_loads container_str E I s) = s.
Proof.
  intros Hstep Hpub.
  change (ensures (run json_loads container_str E I) s (fun s' => s' = s)).
  unfold run. apply ensures_bind.
  apply ensures_readonly; [apply readonly_configure|].
  split; [reflexivity|]. intros _. apply ensures_bind.
  unfold stage. apply ensures_get_bind. rewrite Hstep. cbn [Z.eqb Pos.eqb].
  unfold step6. rewrite Hpub.
  apply ensures_readonly; [apply readonly_publish|].
  split; [reflexivity|]. intros _.
  unfold sidebar. rewrite (pressed_other I BtnPublish BtnReset Hpub eq_refl).
  apply ensures_readonly; [apply readonly_ret | reflexivity].
Qed.

(** ** C4: the post is a draft, and a failed creation keeps the session *)

Lemma create_post_fails (E : env) (s : session) (url user pass : text)
    (title content meta_desc slug : json) (categories tags : list json)
    (featured : json) :
  secrets E !! "WP_URL" = Some url ->
  secrets E !! "WP_USERNAME" = Some user ->
  secrets E !! "WP_APP_PASSWORD" = Some pass ->
  (forall body,
      http E (post_request url user pass title content meta_desc slug categories
                tags featured) <> Response 201 body) ->
  let r := create_wordpress_post E title content meta_desc slug categories tags
             featured s in
  final r = s /\ ending r = Ok None
  /\ exists what,
      shown r = [Sent (post_request url user pass title content meta_desc slug
                         categories tags featured); StError what].
Proof.
  intros Hurl Huser Hpass Hfail. cbv zeta.
  unfold create_wordpress_post, secret, post_request in *.
  rewrite Hurl, Huser, Hpass. rewrite !bind_ret.
  unfold try_except, send, bind, emit.
  match goal with
  | |- context [http E ?r] => specialize (Hfail); destruct (http E r) as [|status body] eqn:Hr
  end.
  - cbn. repeat split. now eexists.
  - cbn. destruct (status =? 201)%Z eqn:Hst.
    + apply Z.eqb_eq in Hst. subst status. now destruct (Hfail body).
    + cbn. repeat split. now eexists.
Qed.

(** C4.  Every post-creation request of every run has the status [draft];
    a run of the publish button leaves the session (step, article record,
    files) as it was, whatever the CMS answers; and a post creation that gets
    no 201 reports the error and returns nothing. *)
Theorem post_is_draft_and_failure_keeps_session
    (json_loads : text -> option json) (container_str : json -> text) :
  (forall (E : env) (I : inputs) (s : session),
      Forall draft_only (shown (run json_loads container_str E I s)))
  /\ (forall (E : env) (I : inputs) (s : session),
      step s = 6%Z -> pressed I BtnPublish = true ->
      final (run json_loads container_str E I s) = s)
  /\ (forall (E : env) (s : session) (url user pass : text)
          (title content meta_desc slug : json) (categories tags : list json)
          (featured : json),
      secrets E !! "WP_URL" = Some url ->
      secrets E !! "WP_USERNAME" = Some user ->
      secrets E !! "WP_APP_PASSWORD" = Some pass ->
      (forall body,
          http E (post_request url user pass title content meta_desc slug
                    categories tags featured) <> Response 201 body) ->
      let r := create_wordpress_post E title content meta_desc slug categories
                 tags featured s in
      final r = s /\ ending r = Ok None
      /\ exists what,
          shown r = [Sent (post_request url user pass title content meta_desc
                             slug categories tags featured); StError what]).
Proof.
  split; [|split].
  - intros E I s. apply emits_run.
  - exact (publish_run_keeps_session json_loads container_str).
  - exact create_post_fails.
Qed.

Lemma post_is_draft_and_failure_keeps_session_witness :
  final (run demo_loads demo_container_str (cms_env (demo_cms [] 500))
           (demo_press BtnPublish) (demo_ready demo_files))
  = demo_ready demo_files
  /\ ending (create_wordpress_post (cms_env (demo_cms [] 500)) JNull JNull JNull
               JNull [] [] (JInt 0) initial_session)
     = Ok None.
Proof.
  destruct (post_is_draft_and_failure_keeps_session demo_loads demo_container_str)
    as (_ & H2 & H3).
  split; [now apply H2|].
  destruct (H3 (cms_env (demo_cms [] 500)) initial_session
              (txt "https://example.org") (txt "tony") (txt "secret")
              JNull JNull JNull JNull [] [] (JInt 0)
              eq_refl eq_refl eq_refl ltac:(intros body; discriminate))
    as (_ & He & _).
  exact He.
Defined.

(** A failed post creation: the error is shown, nothing is written. *)
Example publish_fails_keeps_session :
  let r := run demo_loads demo_container_str (cms_env (demo_cms [] 500))
             (demo_press BtnPublish) (demo_ready demo_files) in
  final r = demo_ready demo_files
  /\ ending r = Ok tt
  /\ last (shown r) = Some (StError "Failed to create WordPress post").
Proof. vm_compute. repeat split. Qed.

(** ** The value and the events of a computation *)

Lemma ending_bind {A B} (m : M A) (f : A -> M B) (s : session) :
  ending (bind m f s) =
  match ending (m s) with
  | Ok a => ending (f a (final (m s)))
  | Halt h => Halt h
  end.
Proof.
  unfold bind, ending, final.
  destruct (m s) as [[s1 l1] [a|h]]; cbn; [|reflexivity].
  now destruct (f a s1) as [[s2 l2] r].
Qed.

Lemma ending_try {A} (m : M A) (handler : exn -> M A) (s : session) :
  ending (try_except m handler s) =
  match ending (m s) with
  | Halt (Raise e) => ending (handler e (final (m s)))
  | r => r
  end.
Proof.
  unfold try_except, ending, final.
  destruct (m s) as [[s1 l1] [a|[| |e]]]; cbn; try reflexivity.
  now destruct (handler e s1) as [[s2 l2] r].
Qed.

Lemma shown_bind {A B} (m : M A) (f : A -> M B) (s : session) :
  shown (bind m f s) =
  match ending (m s) with
  | Ok a => shown (m s) ++ shown (f a (final (m s)))
  | Halt _ => shown (m s)
  end.
Proof.
  unfold bind, ending, final, shown.
  destruct (m s) as [[s1 l1] [a|h]]; cbn; [|reflexivity].
  now destruct (f a s1) as [[s2 l2] r].
Qed.

Lemma final_bind {A B} (m : M A) (f : A -> M B) (s : session) :
  final (bind m f s) =
  match ending (m s) with
  | Ok a => final (f a (final (m s)))
  | Halt _ => final (m s)
  end.
Proof.
  unfold bind, ending, final.
  destruct (m s) as [[s1 l1] [a|h]]; cbn; [|reflexivity].
  now destruct (f a s1) as [[s2 l2] r].
Qed.

(** A computation that does not write and gives [a]: the events of what
    follows are events of the whole. *)
Lemma sent_after {A B} (m : M A) (f : A -> M B) (s : session) (a : A) (e : event) :
  readonly m -> ending (m s) = Ok a ->
  In e (shown (f a s)) -> In e (shown (bind m f s)).
Proof.
  intros Hro Hend Hin. rewrite shown_bind, Hend, (Hro s).
  apply in_or_app. now right.
Qed.

Lemma ending_after {A B} (m : M A) (f : A -> M B) (s : session) (a : A) :
  readonly m -> ending (m s) = Ok a ->
  ending (bind m f s) = ending (f a s).
Proof. intros Hro Hend. now rewrite ending_bind, Hend, (Hro s). Qed.

Lemma ending_secret (E : env) (k : string) (v : text) (s : session) :
  secrets E !! k = Some v -> ending (secret E k s) = Ok v.
Proof. intros H. unfold secret. now rewrite H. Qed.

(** ** C3: a failed image does not stop the publish *)

Lemma ending_upload (E : env) (url user pass : text) (webp : bytes)
    (filename alt : text) (s : session) :
  secrets E !! "WP_URL" = Some url ->
  secrets E !! "WP_USERNAME" = Some user ->
  secrets E !! "WP_APP_PASSWORD" = Some pass ->
  ending (upload_to_wordpress E webp filename alt s)
  = Ok (media_reply E url user pass webp filename alt).
Proof.
  intros Hurl Huser Hpass. unfold upload_to_wordpress, secret, media_reply.
  rewrite Hurl, Huser, Hpass. rewrite !bind_ret.
  unfold try_except, send, bind, emit, response_json, ending.
  destruct (http E (PostMedia url filename webp user pass))
    as [|status body]; [reflexivity|].
  cbn. destruct (status =? 201)%Z; [|reflexivity].
  destruct body as [media|]; [|reflexivity].
  cbn. destruct (subscript media "id") as [e|id]; [reflexivity|].
  cbn. destruct (http E (PostMediaAlt url id alt user pass)); reflexivity.
Qed.

Lemma subscript_truthy (v w : json) (k : string) :
  subscript v k = inr w -> truthy v = true.
Proof.
  destruct v as [| | | | |d]; try discriminate.
  destruct d as [|kv d]; [discriminate | reflexivity].
Qed.

Lemma subscript_dict_get (d v : json) (k k' : string) (default : json) :
  subscript d k = inr v -> exists w, dict_get d k' default = inr w.
Proof.
  destruct d as [| | | | |l]; try discriminate. intros _. cbn.
  destruct (assoc_last l k'); now eexists.
Qed.

Lemma media_reply_contract (E : env) (url user pass : text) (webp : bytes)
    (filename alt : text) (media : json) :
  media_contract E ->
  media_reply E url user pass webp filename alt = Some media ->
  exists id src,
    subscript media "id" = inr id /\ subscript media "source_url" = inr src.
Proof.
  intros Hc. unfold media_reply.
  destruct (http E (PostMedia url filename webp user pass))
    as [|status body] eqn:Hr; [discriminate|].
  destruct (status =? 201)%Z eqn:Hs; [|discriminate].
  apply Z.eqb_eq in Hs. subst status.
  destruct body as [m|]; [|discriminate].
  destruct (subscript m "id") as [e|id]; [discriminate|].
  destruct (http E (PostMediaAlt url id alt user pass)); [discriminate|].
  intros [= <-]. exact (Hc _ _ _ _ _ _ Hr).
Qed.

Lemma ending_process_image (E : env) (url user pass : text) (idx : Z)
    (f : upfile) (d : json) (s : session) :
  secrets E !! "WP_URL" = Some url ->
  secrets E !! "WP_USERNAME" = Some user ->
  secrets E !! "WP_APP_PASSWORD" = Some pass ->
  media_contract E ->
  descriptor_ok d ->
  ending (process_image E idx f d s) = Ok (uploaded E url user pass idx f d).
Proof.
  intros Hurl Huser Hpass Hc [[alt Halt] _].
  unfold process_image, uploaded, convert_to_webp.
  destruct (image_to_webp E f) as [webp|].
  - rewrite bind_ret, Halt, bind_lift_inr. cbn [as_str]. rewrite bind_lift_inr.
    rewrite (ending_after _ _ s _ (readonly_upload _ _ _ _)
               (ending_upload E url user pass webp _ alt s Hurl Huser Hpass)).
    destruct (media_reply E url user pass webp
                (generate_seo_filename (now E) alt idx) alt) as [media|] eqn:Hm.
    + destruct (media_reply_contract _ _ _ _ _ _ _ _ Hc Hm) as (id & src & Hid & Hsrc).
      rewrite (subscript_truthy _ _ _ Hid), Hid, Hsrc. rewrite !bind_lift_inr.
      destruct (subscript_dict_get d _ "alt_text" "caption" (JStr []) Halt) as [c Hcap].
      destruct (subscript_dict_get d _ "alt_text" "position" JNull Halt) as [p Hpos].
      destruct (subscript_dict_get d _ "alt_text" "section_heading" JNull Halt)
        as [h Hh].
      rewrite Hcap, Hpos, Hh. rewrite !bind_lift_inr. reflexivity.
    + reflexivity.
  - reflexivity.
Qed.

Lemma ending_process_images (E : env) (url user pass : text)
    (pairs : list (upfile * json)) (s : session) :
  secrets E !! "WP_URL" = Some url ->
  secrets E !! "WP_USERNAME" = Some user ->
  secrets E !! "WP_APP_PASSWORD" = Some pass ->
  media_contract E ->
  Forall (fun p => descriptor_ok (snd p)) pairs ->
  forall idx,
    ending (process_images E idx pairs s)
    = Ok (successes E url user pass idx pairs).
Proof.
  intros Hurl Huser Hpass Hc Hok.
  induction Hok as [|[f d] rest Hd Hrest IH]; intros idx; [reflexivity|].
  cbn [process_images successes].
  rewrite (ending_after _ _ s _ (readonly_process_image _ _ _ _)
             (ending_process_image E url user pass idx f d s Hurl Huser Hpass Hc Hd)).
  rewrite (ending_after _ _ s _ (readonly_process_images _ _ _) (IH (idx + 1)%Z)).
  now destruct (uploaded E url user pass idx f d).
Qed.

Lemma sent_first {A B} (m : M A) (f : A -> M B) (s : session) (e : event) :
  In e (shown (m s)) -> In e (shown (bind m f s)).
Proof.
  intros Hin. rewrite shown_bind.
  destruct (ending (m s)); [apply in_or_app; now left | exact Hin].
Qed.

Lemma ending_get_wp_names (E : env) (r : text -> request) (url : text)
    (s : session) :
  secrets E !! "WP_URL" = Some url ->
  exists kvs, ending (get_wp_names E r s) = Ok kvs.
Proof.
  intros Hurl. unfold get_wp_names, secret. rewrite Hurl, bind_ret.
  rewrite ending_try.
  destruct (ending ((response <- send E (r url);;
                    (if (response.1 =? 200)%Z
                     then body <- response_json response.2;;
                          entries <- lift (py_iter body);;
                          lift (name_ids entries)
                     else ret [])) s)) as [kvs|[| |e]] eqn:He.
  - now exists kvs.
  - exfalso. revert He. unfold send, bind, emit, response_json, ending.
    destruct (http E (r url)) as [|status body]; cbn; [discriminate|].
    destruct (status =? 200)%Z; cbn; [|discriminate].
    destruct body as [b|]; cbn; [|discriminate].
    destruct (py_iter b) as [e|l]; cbn; [discriminate|].
    destruct (name_ids l); cbn; discriminate.
  - exfalso. revert He. unfold send, bind, emit, response_json, ending.
    destruct (http E (r url)) as [|status body]; cbn; [discriminate|].
    destruct (status =? 200)%Z; cbn; [|discriminate].
    destruct body as [b|]; cbn; [|discriminate].
    destruct (py_iter b) as [e|l]; cbn; [discriminate|].
    destruct (name_ids l); cbn; discriminate.
  - now exists [].
Qed.

Lemma resolve_ids_total (known : list (text * json)) (names : list json) :
  Forall (fun x => exists t, x = JStr t) names ->
  exists ids, resolve_ids known names = inr ids.
Proof.
  induction 1 as [|x names [t ->] _ [ids IH]]; [now exists []|].
  cbn. rewrite IH. destruct (lookup_name known t); now eexists.
Qed.

Lemma splice_images_total (container_str : json -> text) (imgs : list wp_image) :
  Forall heading_ok imgs ->
  forall c, exists c', splice_images container_str (JStr c) imgs = inr (JStr c').
Proof.
  induction 1 as [|img imgs Himg _ IH]; intros c; [now exists c|].
  cbn [splice_images]. unfold splice_image.
  destruct Himg as [Hn|[h Hh]].
  - rewrite Hn. cbn. apply IH.
  - rewrite Hh. destruct (truthy (JStr h)); cbn; apply IH.
Qed.

Lemma uploaded_heading_ok (E : env) (url user pass : text) (idx : Z)
    (f : upfile) (d : json) (img : wp_image) :
  descriptor_ok d -> uploaded E url user pass idx f d = Some img -> heading_ok img.
Proof.
  intros [_ Hh]. unfold uploaded.
  destruct (image_to_webp E f); [|discriminate].
  destruct (subscript d "alt_text") as [|[]]; try discriminate.
  destruct (media_reply _ _ _ _ _ _ _); [|discriminate].
  destruct (subscript _ "id"); [discriminate|].
  destruct (subscript _ "source_url"); [discriminate|].
  destruct (dict_get d "caption" _); [discriminate|].
  destruct (dict_get d "position" _); [discriminate|].
  destruct (dict_get d "section_heading" JNull) as [|h]; [discriminate|].
  intros [= <-]. unfold heading_ok. cbn.
  destruct Hh as [[= ->]|[t [= ->]]]; [now left | right; now eexists].
Qed.

Lemma successes_heading_ok (E : env) (url user pass : text)
    (pairs : list (upfile * json)) :
  Forall (fun p => descriptor_ok (snd p)) pairs ->
  forall idx, Forall heading_ok (successes E url user pass idx pairs).
Proof.
  induction 1 as [|[f d] rest Hd _ IH]; intros idx; [constructor|].
  cbn [successes].
  destruct (uploaded E url user pass idx f d) as [img|] eqn:Hu; [|apply IH].
  constructor; [exact (uploaded_heading_ok _ _ _ _ _ _ _ _ Hd Hu) | apply IH].
Qed.

Lemma sent_create_post (E : env) (s : session) (url user pass : text)
    (title content meta_desc slug : json) (categories tags : list json)
    (featured : json) :
  secrets E !! "WP_URL" = Some url ->
  secrets E !! "WP_USERNAME" = Some user ->
  secrets E !! "WP_APP_PASSWORD" = Some pass ->
  In (Sent (post_request url user pass title content meta_desc slug categories
              tags featured))
     (shown (create_wordpress_post E title content meta_desc slug categories tags
               featured s)).
Proof.
  intros Hurl Huser Hpass.
  unfold create_wordpress_post, secret, post_request.
  rewrite Hurl, Huser, Hpass. rewrite !bind_ret.
  unfold try_except, send, bind, emit, response_json, shown.
  destruct (http E _) as [|status body]; cbn; [now left|].
  destruct (status =? 201)%Z; cbn; [|now left].
  destruct body; cbn; now left.
Qed.

Lemma successes_complete (E : env) (url user pass : text)
    (pairs : list (upfile * json)) :
  forall (idx : Z) (i : nat) (f : upfile) (d : json) (img : wp_image),
    pairs !! i = Some (f, d) ->
    uploaded E url user pass (idx + Z.of_nat i) f d = Some img ->
    In img (successes E url user pass idx pairs).
Proof.
  induction pairs as [|[f0 d0] rest IH]; intros idx i f d img Hi Hu;
    [discriminate|].
  cbn [successes]. destruct i as [|i].
  - injection Hi as -> ->. rewrite Z.add_0_r in Hu. rewrite Hu. now left.
  - cbn in Hi.
    assert (In img (successes E url user pass (idx + 1) rest)) as Hin.
    { apply (IH (idx + 1)%Z i f d img Hi).
      now replace (idx + 1 + Z.of_nat i)%Z with (idx + Z.of_nat (S i))%Z by lia. }
    destruct (uploaded E url user pass idx f0 d0); [now right | exact Hin].
Qed.

Lemma successes_sound (E : env) (url user pass : text)
    (pairs : list (upfile * json)) :
  forall (idx : Z) (img : wp_image),
    In img (successes E url user pass idx pairs) ->
    exists (i : nat) (f : upfile) (d : json),
      pairs !! i = Some (f, d)
      /\ uploaded E url user pass (idx + Z.of_nat i) f d = Some img.
Proof.
  induction pairs as [|[f0 d0] rest IH]; intros idx img Hin; [destruct Hin|].
  cbn [successes] in Hin.
  assert (In img (successes E url user pass (idx + 1) rest) ->
          exists i f d, ((f0, d0) :: rest) !! i = Some (f, d)
            /\ uploaded E url user pass (idx + Z.of_nat i) f d = Some img) as Hrest.
  { intros H. destruct (IH _ _ H) as (i & f & d & Hi & Hu).
    exists (S i), f, d. split; [exact Hi|].
    now replace (idx + Z.of_nat (S i))%Z with (idx + 1 + Z.of_nat i)%Z by lia. }
  destruct (uploaded E url user pass idx f0 d0) as [img0|] eqn:Hu0;
    [|now apply Hrest].
  destruct Hin as [<-|Hin]; [|now apply Hrest].
  exists 0, f0, d0. split; [reflexivity|]. now rewrite Z.add_0_r.
Qed.

Lemma demo_cms_contract (fail_name : text) (post_status : Z) :
  media_contract (cms_env (demo_cms fail_name post_status)).
Proof.
  intros url filename webp user pass media. cbn.
  destruct (text_eqb filename fail_name); [discriminate|].
  intros [= <-]. now do 2 eexists.
Qed.

Lemma demo_ready_to_publish (files : list upfile) :
  ready_to_publish (demo_ready files) demo_descriptors demo_content
    (JStr (txt "Best budget phones")) (JStr (txt "Five budget phones compared"))
    (JStr (txt "best-budget-phones")).
Proof.
  unfold ready_to_publish.
  split; [do 2 eexists; repeat split; reflexivity|].
  split.
  { repeat constructor; try (now eexists); right; now eexists. }
  repeat split; try reflexivity.
  - eexists. split; [reflexivity|]. repeat constructor; now eexists.
  - eexists. split; [reflexivity|]. constructor.
Qed.

(** ** The matcher: what a match consumes *)

Lemma match_here_suffix (items : list item) :
  forall s rest, match_here items s = Some rest -> exists m, s = m ++ rest.
Proof.
  induction items as [|[p|p|p] r IH]; intros s rest.
  - intros [= ->]. now exists [].
  - destruct s as [|c s]; [discriminate|]. rewrite match_here_one.
    destruct (p c); [|discriminate].
    intros H. destruct (IH _ _ H) as [m ->]. now exists (c :: m).
  - revert rest. induction s as [|c s IHs]; intros rest;
      rewrite match_here_greedy; [apply IH|].
    destruct (p c); [|apply IH].
    destruct (match_here (Greedy p :: r) s) as [rest'|] eqn:Hg; [|apply IH].
    intros [= ->]. destruct (IHs _ eq_refl) as [m ->]. now exists (c :: m).
  - revert rest. induction s as [|c s IHs]; intros rest;
      rewrite match_here_lazy.
    + destruct (match_here r []) eqn:Hr; [|discriminate].
      intros [= ->]. exact (IH _ _ Hr).
    + destruct (match_here r (c :: s)) eqn:Hr.
      * intros [= ->]. exact (IH _ _ Hr).
      * destruct (p c); [|discriminate].
        intros H. destruct (IHs _ H) as [m ->]. now exists (c :: m).
Qed.

Lemma match_here_consumes (p : ascii -> bool) (r : list item) (s rest : text) :
  match_here (One p :: r) s = Some rest ->
  exists c m, s = c :: m ++ rest.
Proof.
  destruct s as [|c s]; [discriminate|]. rewrite match_here_one.
  destruct (p c); [|discriminate].
  intros H. destruct (match_here_suffix _ _ _ H) as [m ->]. now exists c, m.
Qed.

Lemma search_from_span (items : list item) (s : text) : forall pos i j,
  search_from items pos s = Some (i, j) ->
  exists a m rest,
    s = a ++ m ++ rest /\ i = pos + length a /\ j = i + length m
    /\ match_here items (m ++ rest) = Some rest.
Proof.
  assert (forall pos s rest i j,
             match_here items s = Some rest ->
             Some (pos, pos + (length s - length rest)) = Some (i, j) ->
             exists a m rest,
               s = a ++ m ++ rest /\ i = pos + length a /\ j = i + length m
               /\ match_here items (m ++ rest) = Some rest) as Hhere.
  { intros pos s0 rest i j Hm [= <- <-].
    destruct (match_here_suffix _ _ _ Hm) as [m ->].
    exists [], m, rest. rewrite length_app. cbn. repeat split; try lia.
    exact Hm. }
  induction s as [|c s IH]; intros pos i j; rewrite search_from_eq.
  - destruct (match_here items []) as [rest|] eqn:Hm; [|discriminate].
    now apply Hhere.
  - destruct (match_here items (c :: s)) as [rest|] eqn:Hm; [now apply Hhere|].
    intros H. destruct (IH _ _ _ H) as (a & m & rest & -> & -> & -> & Hm').
    exists (c :: a), m, rest. repeat split; cbn; try lia. exact Hm'.
Qed.

(** ** C10: the splice only inserts *)

Lemma splice_heading_shape (c heading block : text) :
  splice_heading c heading block = c
  \/ exists pre post,
      pre <> [] /\ c = pre ++ post
      /\ splice_heading c heading block = pre ++ block ++ post.
Proof.
  unfold splice_heading, re_search.
  destruct (search_from (heading_pattern heading) 0 c) as [[i j]|] eqn:Hs;
    [|now left].
  right. destruct (search_from_span _ _ _ _ _ Hs) as (a & m & rest & -> & -> & -> & Hm).
  exists (a ++ m), rest.
  change (heading_pattern heading)
    with (One (chr_is_ci "<"%char)
            :: lit_ci (txt "h2>") ++ [Lazy dot] ++ lit_ci heading ++ [Lazy dot]
               ++ lit_ci (txt "</h2>")) in Hm.
  destruct (match_here_consumes _ _ _ _ Hm) as (x & m' & Heq).
  rewrite app_comm_cons in Heq. apply app_inv_tail in Heq. subst m.
  split; [now destruct a|].
  split; [now rewrite app_assoc|].
  unfold insert_at. cbn [Nat.add].
  replace (length a + length (x :: m')) with (length (a ++ x :: m'))
    by now rewrite length_app.
  replace (a ++ (x :: m') ++ rest) with ((a ++ x :: m') ++ rest)
    by (now rewrite <- app_assoc).
  now rewrite take_app_length, drop_app_length.
Qed.

Lemma spliced_mono (ok ok' : text -> Prop) (c c' : text) :
  (forall b, ok b -> ok' b) -> spliced ok c c' -> spliced ok' c c'.
Proof.
  intros H. induction 1 as [|pre post block _ IH Hb Hpre]; [constructor|].
  constructor; auto.
Qed.

Lemma spliced_trans (ok : text -> Prop) (a b c : text) :
  spliced ok a b -> spliced ok b c -> spliced ok a c.
Proof.
  intros Hab. induction 1 as [|pre post block _ IH Hb Hpre]; [exact Hab|].
  now constructor.
Qed.


Lemma splice_image_spliced (container_str : json -> text) (c : text)
    (img : wp_image) (content' : json) :
  splice_image container_str (JStr c) img = inr content' ->
  exists c', content' = JStr c'
             /\ spliced (fun b => b = img_html container_str img) c c'.
Proof.
  unfold splice_image. destruct (truthy (wi_section_heading img)).
  - destruct (as_str TypeError (wi_section_heading img)) as [e|h]; [discriminate|].
    cbn. intros [= <-]. eexists. split; [reflexivity|].
    destruct (splice_heading_shape c h (img_html container_str img))
      as [->|(pre & post & Hpre & -> & ->)]; [constructor|].
    constructor; [constructor | reflexivity | exact Hpre].
  - intros [= <-]. exists c. split; [reflexivity | constructor].
Qed.

Lemma splice_images_spliced (container_str : json -> text)
    (imgs : list wp_image) : forall (c : text) (content' : json),
  splice_images container_str (JStr c) imgs = inr content' ->
  exists c', content' = JStr c'
             /\ spliced (fun b => In b (map (img_html container_str) imgs)) c c'.
Proof.
  induction imgs as [|img imgs IH]; intros c content'; cbn [splice_images].
  - intros [= <-]. exists c. split; [reflexivity | constructor].
  - destruct (splice_image container_str (JStr c) img) as [e|c1] eqn:H1;
      [discriminate|].
    destruct (splice_image_spliced _ _ _ _ H1) as (c1' & -> & Hs1).
    intros H2. destruct (IH _ _ H2) as (c' & -> & Hs2).
    exists c'. split; [reflexivity|].
    eapply spliced_trans.
    + eapply spliced_mono; [|exact Hs1]. intros b ->. now left.
    + eapply spliced_mono; [|exact Hs2]. intros b Hb. now right.
Qed.









(** ** C2: the heading splice *)

(** The example of the spec: the block lands right after the closing tag of
    the heading that contains the target, as the claim describes. *)
Example splice_after_matching_heading :
  splice_heading (txt "<p>Intro</p><h2>Top 5 Budget Phones</h2><p>List.</p>")
    (txt "Budget Phones") (txt "[IMG]")
  = txt "<p>Intro</p><h2>Top 5 Budget Phones</h2>[IMG]<p>List.</p>"
  /\ expected_splice (txt "<p>Intro</p><h2>Top 5 Budget Phones</h2><p>List.</p>")
       (txt "Budget Phones") (txt "[IMG]")
     = txt "<p>Intro</p><h2>Top 5 Budget Phones</h2>[IMG]<p>List.</p>"
  /\ splice_heading (txt "<h2>Verdict</h2><p>Buy.</p>") (txt "Budget Phones")
       (txt "[IMG]")
     = txt "<h2>Verdict</h2><p>Buy.</p>".
Proof. repeat split. Qed.

(** C2 on a content in one line.  The pattern starts at the first opening
    tag and its lazy stars run over closing tags: with the target in a
    paragraph and in no heading, the content is changed, the block landing
    after the heading that follows the paragraph; with a heading that
    contains the target further down, the block lands after that other
    heading and not after the one that matches. *)
Theorem heading_splice_crosses_elements :
  first_heading_end (txt "Budget Phones") 0 crossing_content = None
  /\ splice_heading crossing_content (txt "Budget Phones") (txt "[IMG]")
     = txt "<h2>Intro</h2><p>Budget Phones are great.</p><h2>Other</h2>[IMG]<p>More.</p>"
  /\ splice_heading crossing_content (txt "Budget Phones") (txt "[IMG]")
     <> expected_splice crossing_content (txt "Budget Phones") (txt "[IMG]")
  /\ expected_splice crossing_content_late (txt "Budget Phones") (txt "[IMG]")
     = crossing_content ++ txt "<h2>Top 5 Budget Phones</h2>[IMG]<p>List.</p>"
  /\ splice_heading crossing_content_late (txt "Budget Phones") (txt "[IMG]")
     = txt "<h2>Intro</h2><p>Budget Phones are great.</p><h2>Other</h2>[IMG]<p>More.</p><h2>Top 5 Budget Phones</h2><p>List.</p>".
Proof.
  split; [reflexivity|]. split; [reflexivity|]. split; [|split; reflexivity].
  vm_compute. discriminate.
Qed.

(* ------------------------------------------------------------------ *)
(** * Further properties of the script *)

(** ** The extraction of the JSON text, on every response *)

Lemma to_last_close_rest (s rest : text) :
  match_here to_last_close s = Some rest ->
  Forall (fun c => c <> "}"%char) rest.
Proof.
  unfold to_last_close. revert rest.
  induction s as [|c s IH]; intros rest; rewrite match_here_greedy.
  - discriminate.
  - cbn [dot_all].
    destruct (match_here [Greedy dot_all; One (chr_is "}"%char)] s) as [r|] eqn:Hg.
    + intros [= ->]. now apply IH.
    + rewrite match_here_one. destruct (chr_is "}" c); [|discriminate].
      intros [= ->]. clear IH. revert Hg.
      induction rest as [|x rest IHr]; [constructor|].
      rewrite match_here_greedy. cbn [dot_all].
      destruct (match_here [Greedy dot_all; One (chr_is "}"%char)] rest) eqn:Hr;
        [discriminate|].
      rewrite match_here_one. destruct (chr_is "}" x) eqn:Hx; [discriminate|].
      intros _. constructor; [now apply chr_is_false | now apply IHr].
Qed.

Lemma to_last_close_fails (s : text) :
  match_here to_last_close s = None -> Forall (fun c => c <> "}"%char) s.
Proof.
  unfold to_last_close.
  induction s as [|x s IH]; [constructor|].
  rewrite match_here_greedy. cbn [dot_all].
  destruct (match_here [Greedy dot_all; One (chr_is "}"%char)] s) eqn:Hr;
    [discriminate|].
  rewrite match_here_one. destruct (chr_is "}" x) eqn:Hx; [discriminate|].
  intros _. constructor; [now apply chr_is_false | now apply IH].
Qed.

Lemma search_json_first (s : text) : forall pos i j,
  search_from json_pattern pos s = Some (i, j) ->
  exists pre mid post,
    s = pre ++ "{"%char :: mid ++ "}"%char :: post
    /\ Forall (fun c => c <> "{"%char) pre
    /\ Forall (fun c => c <> "}"%char) post
    /\ i = pos + length pre /\ j = i + (length mid + 2).
Proof.
  induction s as [|x s IH]; intros pos i j; rewrite search_from_eq, json_match.
  - discriminate.
  - destruct (chr_is "{" x) eqn:Hx.
    + apply chr_is_true in Hx. subst x.
      destruct (match_here to_last_close s) as [rest|] eqn:Hm.
      * intros [= <- <-].
        destruct (to_last_close_shape _ _ Hm) as [mid ->].
        exists [], mid, rest. repeat split; try constructor.
        -- exact (to_last_close_rest _ _ Hm).
        -- cbn [length]. lia.
        -- cbn [length]. rewrite length_app. cbn [length]. lia.
      * intros H. destruct (IH _ _ _ H) as (pre & mid & post & -> & _).
        apply to_last_close_fails in Hm.
        rewrite Forall_app in Hm. destruct Hm as [_ Hm].
        inversion Hm as [|? ? _ Hm2]; subst.
        rewrite Forall_app in Hm2. destruct Hm2 as [_ Hm2].
        inversion Hm2 as [|? ? Hbad _]; subst. now destruct Hbad.
    + intros H.
      destruct (IH _ _ _ H) as (pre & mid & post & -> & Hpre & Hpost & -> & ->).
      exists (x :: pre), mid, post. repeat split; try assumption.
      * constructor; [now apply chr_is_false | exact Hpre].
      * cbn [length]. lia.
Qed.

(** X1.  Whatever the response, the text handed to the decoder, when there
    is one, starts at the first opening brace of the response and ends at its
    last closing brace; and there is none exactly when no opening brace is
    followed by a closing one. *)
Theorem extract_json_spans_first_to_last (response : text) :
  (forall group : text,
      extract_json response = Some group ->
      exists pre mid post,
        response = pre ++ group ++ post
        /\ group = "{"%char :: mid ++ ["}"%char]
        /\ Forall (fun c => c <> "{"%char) pre
        /\ Forall (fun c => c <> "}"%char) post)
  /\ (extract_json response = None <->
      forall a b c, response <> a ++ "{"%char :: b ++ "}"%char :: c).
Proof.
  split.
  - intros group. unfold extract_json, re_search_group, re_search.
    destruct (search_from json_pattern 0 response) as [[i j]|] eqn:Hs;
      [|discriminate].
    destruct (search_json_first _ _ _ _ Hs)
      as (pre & mid & post & Hr & Hpre & Hpost & -> & ->).
    intros [= <-]. exists pre, mid, post.
    assert (slice response (0 + length pre) (0 + length pre + (length mid + 2))
            = "{"%char :: mid ++ ["}"%char]) as Hslice.
    { rewrite Hr. unfold slice. cbn [Nat.add].
      rewrite drop_app_length.
      replace (length pre + (length mid + 2) - length pre)
        with (length ("{"%char :: mid ++ ["}"%char]))
        by (cbn [length]; rewrite length_app; cbn [length]; lia).
      replace ("{"%char :: mid ++ "}"%char :: post)
        with (("{"%char :: mid ++ ["}"%char]) ++ post)
        by (cbn; now rewrite <- app_assoc).
      now rewrite take_app_length. }
    cbn [Nat.add] in Hslice. rewrite Hslice. repeat split; try assumption.
    rewrite Hr. cbn. now rewrite <- app_assoc.
  - split; [|apply extract_json_none].
    intros Hnone a b c ->.
    assert ("{"%char ∈ a ++ ["{"%char]) as Hin by (apply elem_of_app; right; now left).
    destruct (list_elem_of_split_l _ _ Hin) as (pre & tl & Heq & Hpre).
    assert ("}"%char ∈ "}"%char :: c) as Hin2 by now left.
    destruct (list_elem_of_split_r _ _ Hin2) as (hd & post & Heq2 & Hpost).
    assert (a ++ "{"%char :: b ++ "}"%char :: c
            = pre ++ "{"%char :: (tl ++ b ++ hd) ++ "}"%char :: post) as Hr.
    { replace (a ++ "{"%char :: b ++ "}"%char :: c)
        with ((a ++ ["{"%char]) ++ b ++ "}"%char :: c)
        by (now rewrite <- app_assoc).
      rewrite Heq, Heq2. rewrite <- ?app_assoc. cbn. now rewrite <- ?app_assoc. }
    rewrite Hr in Hnone.
    rewrite extract_json_object in Hnone; [discriminate| |].
    + apply Forall_forall. intros x Hx ->. now apply Hpre.
    + apply Forall_forall. intros x Hx ->. now apply Hpost.
Qed.

Lemma extract_json_spans_first_to_last_witness :
  (exists pre mid post,
      txt "Sure: {x} ok" = pre ++ txt "{x}" ++ post
      /\ txt "{x}" = "{"%char :: mid ++ ["}"%char]
      /\ Forall (fun c => c <> "{"%char) pre
      /\ Forall (fun c => c <> "}"%char) post)
  /\ extract_json (txt "no braces") = None.
Proof.
  destruct (extract_json_spans_first_to_last (txt "Sure: {x} ok")) as [H1 _].
  destruct (extract_json_spans_first_to_last (txt "no braces")) as [_ H2].
  split; [apply H1; reflexivity|].
  apply H2. intros a b c H.
  apply (f_equal (existsb (chr_is "{"%char))) in H.
  rewrite existsb_app in H. cbn in H. rewrite orb_true_r in H. discriminate.
Defined.

(** ** The heading search: what a match is made of *)

Lemma match_here_app (xs ys : list item) :
  forall s rest,
    match_here (xs ++ ys) s = Some rest ->
    exists m mid, s = m ++ mid /\ match_here ys mid = Some rest.
Proof.
  induction xs as [|[p|p|p] r IH]; intros s rest; cbn [app].
  - intros H. now exists [], s.
  - destruct s as [|c s]; [discriminate|]. rewrite match_here_one.
    destruct (p c); [|discriminate].
    intros H. destruct (IH _ _ H) as (m & mid & -> & Hm). now exists (c :: m), mid.
  - revert rest. induction s as [|c s IHs]; intros rest;
      rewrite match_here_greedy; [apply IH|].
    destruct (p c); [|apply IH].
    destruct (match_here (Greedy p :: r ++ ys) s) as [rest'|] eqn:Hg; [|apply IH].
    intros [= ->]. destruct (IHs _ eq_refl) as (m & mid & -> & Hm).
    now exists (c :: m), mid.
  - revert rest. induction s as [|c s IHs]; intros rest;
      rewrite match_here_lazy.
    + destruct (match_here (r ++ ys) []) eqn:Hr; [|discriminate].
      intros [= ->]. exact (IH _ _ Hr).
    + destruct (match_here (r ++ ys) (c :: s)) eqn:Hr.
      * intros [= ->]. exact (IH _ _ Hr).
      * destruct (p c); [|discriminate].
        intros H. destruct (IHs _ H) as (m & mid & -> & Hm).
        now exists (c :: m), mid.
Qed.

Lemma chr_is_ci_lower (x c : ascii) :
  chr_is_ci x c = true -> lower_char c = lower_char x.
Proof.
  unfold chr_is_ci, code. rewrite Nat.eqb_eq. intros H.
  apply (f_equal ascii_of_nat) in H. now rewrite !ascii_nat_embedding in H.
Qed.

Lemma match_lit_ci (t : text) (r : list item) :
  forall s rest,
    match_here (lit_ci t ++ r) s = Some rest ->
    exists t' mid,
      s = t' ++ mid /\ same_ci t' t /\ match_here r mid = Some rest.
Proof.
  unfold same_ci, lower.
  induction t as [|x t IH]; intros s rest; cbn [lit_ci map app].
  - intros H. now exists [], s.
  - destruct s as [|c s]; [discriminate|]. rewrite match_here_one.
    destruct (chr_is_ci x c) eqn:Hc; [|discriminate].
    intros H. destruct (IH _ _ H) as (t' & mid & -> & Ht & Hm).
    exists (c :: t'), mid. repeat split; [|exact Hm].
    cbn. now rewrite (chr_is_ci_lower _ _ Hc), Ht.
Qed.

Lemma match_lazy (p : ascii -> bool) (r : list item) :
  forall s rest,
    match_here (Lazy p :: r) s = Some rest ->
    exists x mid,
      s = x ++ mid /\ Forall (fun c => p c = true) x
      /\ match_here r mid = Some rest.
Proof.
  induction s as [|c s IHs]; intros rest; rewrite match_here_lazy.
  - destruct (match_here r []) eqn:Hr; [|discriminate].
    intros [= ->]. now exists [], [].
  - destruct (match_here r (c :: s)) eqn:Hr.
    + intros [= ->]. now exists [], (c :: s).
    + destruct (p c) eqn:Hp; [|discriminate].
      intros H. destruct (IHs _ H) as (x & mid & -> & Hx & Hm).
      exists (c :: x), mid. repeat split; [now constructor | exact Hm].
Qed.

Lemma heading_match (heading s rest : text) :
  match_here (heading_pattern heading) s = Some rest ->
  exists o x h y cl,
    s = o ++ x ++ h ++ y ++ cl ++ rest
    /\ same_ci o (txt "<h2>") /\ one_line x /\ same_ci h heading
    /\ one_line y /\ same_ci cl (txt "</h2>").
Proof.
  unfold heading_pattern. intros H.
  destruct (match_lit_ci _ _ _ _ H) as (o & s1 & -> & Ho & H1).
  cbn [app] in H1.
  destruct (match_lazy _ _ _ _ H1) as (x & s2 & -> & Hx & H2).
  destruct (match_lit_ci _ _ _ _ H2) as (h & s3 & -> & Hh & H3).
  cbn [app] in H3.
  destruct (match_lazy _ _ _ _ H3) as (y & s4 & -> & Hy & H4).
  rewrite <- (app_nil_r (lit_ci (txt "</h2>"))) in H4.
  destruct (match_lit_ci _ _ _ _ H4) as (cl & s5 & -> & Hcl & H5).
  injection H5 as ->.
  now exists o, x, h, y, cl.
Qed.

Lemma splice_heading_parts (content heading img : text) :
  splice_heading content heading img = content
  \/ exists before o x h y cl after,
      content = before ++ o ++ x ++ h ++ y ++ cl ++ after
      /\ same_ci o (txt "<h2>") /\ one_line x /\ same_ci h heading
      /\ one_line y /\ same_ci cl (txt "</h2>")
      /\ splice_heading content heading img
         = before ++ o ++ x ++ h ++ y ++ cl ++ img ++ after.
Proof.
  unfold splice_heading, re_search.
  destruct (search_from (heading_pattern heading) 0 content) as [[i j]|] eqn:Hs;
    [|now left].
  right.
  destruct (search_from_span _ _ _ _ _ Hs) as (a & m & rest & -> & -> & -> & Hm).
  destruct (heading_match _ _ _ Hm) as (o & x & h & y & cl & Heq & Ho & Hx & Hh & Hy & Hcl).
  exists a, o, x, h, y, cl, rest.
  assert (m = o ++ x ++ h ++ y ++ cl) as ->.
  { apply (app_inv_tail rest). rewrite Heq. now rewrite <- !app_assoc. }
  repeat split; try assumption.
  - now rewrite <- !app_assoc.
  - unfold insert_at. cbn [Nat.add].
    replace (length a + length (o ++ x ++ h ++ y ++ cl))
      with (length (a ++ o ++ x ++ h ++ y ++ cl)) by now rewrite length_app.
    replace (a ++ (o ++ x ++ h ++ y ++ cl) ++ rest)
      with ((a ++ o ++ x ++ h ++ y ++ cl) ++ rest)
      by (now rewrite <- app_assoc).
    rewrite take_app_length, drop_app_length.
    now rewrite <- !app_assoc.
Qed.

(** X2.  When the heading search changes the content, the figure block lands
    right after a closing level-2 tag, and the text matched before it starts
    with an opening level-2 tag, contains the target heading, letter case
    apart, and stays on one line from the opening tag to the closing one. *)
Theorem splice_heading_lands_after_closing_tag (content heading img : text) :
  splice_heading content heading img = content
  \/ exists before o x h y cl after,
      content = before ++ o ++ x ++ h ++ y ++ cl ++ after
      /\ same_ci o (txt "<h2>") /\ one_line x /\ same_ci h heading
      /\ one_line y /\ same_ci cl (txt "</h2>")
      /\ splice_heading content heading img
         = before ++ o ++ x ++ h ++ y ++ cl ++ img ++ after.
Proof. apply splice_heading_parts. Qed.

Lemma strip_prefix_ci_same (t t' rest : text) :
  same_ci t' t -> strip_prefix_ci t (t' ++ rest) = Some rest.
Proof.
  unfold same_ci, lower. revert t'.
  induction t as [|x t IH]; intros [|c t'] H; try discriminate; [reflexivity|].
  cbn in H. injection H as Hc Ht. cbn.
  unfold chr_is_ci. rewrite Hc, Nat.eqb_refl. now apply IH.
Qed.

Lemma contains_ci_here (needle hay rest : text) :
  strip_prefix_ci needle hay = Some rest -> contains_ci needle hay = true.
Proof. intros H. destruct hay; cbn; now rewrite H. Qed.

Lemma contains_ci_later (needle before hay : text) :
  contains_ci needle hay = true -> contains_ci needle (before ++ hay) = true.
Proof.
  intros H. induction before as [|c before IH]; [exact H|].
  cbn [app contains_ci].
  destruct (strip_prefix_ci needle (c :: before ++ hay)); [reflexivity | exact IH].
Qed.

Lemma contains_ci_part (needle before part after : text) :
  same_ci part needle -> contains_ci needle (before ++ part ++ after) = true.
Proof.
  intros H. apply contains_ci_later.
  exact (contains_ci_here _ _ _ (strip_prefix_ci_same _ _ after H)).
Qed.

(** X3.  A content in which the target heading, an opening level-2 tag or a
    closing level-2 tag does not occur, letter case apart, is returned
    unchanged by the heading splice. *)
Theorem splice_heading_unchanged_without_match (content heading img : text) :
  contains_ci heading content = false
  \/ contains_ci (txt "<h2>") content = false
  \/ contains_ci (txt "</h2>") content = false ->
  splice_heading content heading img = content.
Proof.
  intros Hno.
  destruct (splice_heading_parts content heading img)
    as [H|(before & o & x & h & y & cl & after & Hc & Ho & _ & Hh & _ & Hcl & _)];
    [exact H|].
  exfalso. subst content. destruct Hno as [Hno|[Hno|Hno]].
  - replace (before ++ o ++ x ++ h ++ y ++ cl ++ after)
      with ((before ++ o ++ x) ++ h ++ (y ++ cl ++ after)) in Hno
      by (now rewrite <- !app_assoc).
    now rewrite (contains_ci_part heading _ h _ Hh) in Hno.
  - now rewrite (contains_ci_part (txt "<h2>") before o _ Ho) in Hno.
  - replace (before ++ o ++ x ++ h ++ y ++ cl ++ after)
      with ((before ++ o ++ x ++ h ++ y) ++ cl ++ after) in Hno
      by (now rewrite <- !app_assoc).
    now rewrite (contains_ci_part (txt "</h2>") _ cl _ Hcl) in Hno.
Qed.

Lemma splice_heading_unchanged_without_match_witness :
  splice_heading (txt "<h2>Verdict</h2><p>Buy.</p>") (txt "Budget Phones")
    (txt "[IMG]")
  = txt "<h2>Verdict</h2><p>Buy.</p>".
Proof.
  apply splice_heading_unchanged_without_match. left. reflexivity.
Defined.

(** ** Step 1 without an answer, and the merge of an answer *)

(** X4.  The submit of step 1 does nothing without a topic and a keyword;
    with them it calls the generation service once, and when the call fails
    or gives an empty answer the session is left as it was: only the failure
    is reported. *)
Theorem step1_without_answer (json_loads : text -> option json) (E : env)
    (I : inputs) (s : session) :
  submitted I = false
  \/ generate_content E (seo_prompt I) = None
  \/ generate_content E (seo_prompt I) = Some [] ->
  step1 json_loads E I s
  = (s,
     if submitted I
     then Called (seo_prompt I)
          :: match generate_content E (seo_prompt I) with
             | None => [StError "Gemini API Error"]
             | Some _ => []
             end
     else [],
     Ok tt).
Proof.
  unfold submitted, seo_prompt, step1.
  destruct (pressed I BtnForward && nonempty (in_topic I)
            && nonempty (in_keyword I)); [|reflexivity].
  intros [H|[H|H]]; [discriminate| |];
    unfold call_gemini, bind, emit; rewrite H; reflexivity.
Qed.

Lemma step1_without_answer_witness :
  step1 demo_loads gemini_only_env (demo_inputs BtnForward) initial_session
  = (initial_session,
     [Called (seo_prompt (demo_inputs BtnForward)); StError "Gemini API Error"],
     Ok tt).
Proof.
  apply (step1_without_answer demo_loads gemini_only_env (demo_inputs BtnForward)
           initial_session).
  right. left. reflexivity.
Defined.

Lemma fold_insert_lookup (d : list (string * json)) :
  forall (a : gmap string json) (k : string),
    fold_left (fun m kv => <[fst kv := snd kv]> m) d a !! k
    = match assoc_last d k with
      | Some v => Some v
      | None => a !! k
      end.
Proof.
  induction d as [|[k' v] d IH]; intros a k; [reflexivity|].
  cbn [fold_left assoc_last fst snd]. rewrite IH.
  destruct (assoc_last d k); [reflexivity|].
  destruct (String.eqb_spec k' k) as [->|Hne].
  - now rewrite lookup_insert_eq.
  - now rewrite lookup_insert_ne.
Qed.

(** X5.  After a successful step 1 the article record holds the four values
    of the form, whatever the answer said about them; every other field is
    the one of the answer when the answer has it, and otherwise the one that
    was stored before: nothing is removed. *)
Theorem step1_merge_is_additive (json_loads : text -> option json) (E : env)
    (I : inputs) (s : session) (response group : text)
    (d : list (string * json)) :
  submitted I = true ->
  generate_content E (seo_prompt I) = Some response ->
  nonempty response = true ->
  extract_json response = Some group ->
  json_loads group = Some (JDict d) ->
  let a := article_data (final (step1 json_loads E I s)) in
  step (final (step1 json_loads E I s)) = 2%Z
  /\ a !! "topic" = Some (JStr (in_topic I))
  /\ a !! "keyword" = Some (JStr (in_keyword I))
  /\ a !! "tone" = Some (JStr (in_tone I))
  /\ a !! "word_count" = Some (JInt (in_word_count I))
  /\ (forall k : string,
        k <> "topic" -> k <> "keyword" -> k <> "tone" -> k <> "word_count" ->
        a !! k = match assoc_last d k with
                 | Some v => Some v
                 | None => article_data s !! k
                 end)
  /\ (forall k : string, is_Some (article_data s !! k) -> is_Some (a !! k)).
Proof.
  intros Hsub Hgen Hne Hex Hdec. cbv zeta.
  rewrite (step1_submit json_loads E I s response Hsub Hgen Hne), Hex, Hdec.
  cbn [final fst step article_data]. unfold merged_article.
  split; [reflexivity|].
  split; [now rewrite !lookup_insert_ne by discriminate; rewrite lookup_insert_eq|].
  split; [now rewrite !lookup_insert_ne by discriminate; rewrite lookup_insert_eq|].
  split; [now rewrite !lookup_insert_ne by discriminate; rewrite lookup_insert_eq|].
  split; [now rewrite lookup_insert_eq|].
  split.
  - intros k H1 H2 H3 H4. rewrite !lookup_insert_ne by congruence.
    apply fold_insert_lookup.
  - intros k Hk. rewrite !lookup_insert_is_Some'. do 4 right.
    rewrite fold_insert_lookup. now destruct (assoc_last d k).
Qed.

Lemma step1_merge_is_additive_witness :
  let r := step1 demo_loads (demo_env (txt "Here: {} enjoy"))
             (demo_inputs BtnForward)
             (Session 1 {[ "title" := JStr (txt "Old title") ]} []) in
  step (final r) = 2%Z
  /\ article_data (final r) !! "title" = Some (JStr (txt "Old title")).
Proof.
  cbv zeta.
  destruct (step1_merge_is_additive demo_loads (demo_env (txt "Here: {} enjoy"))
              (demo_inputs BtnForward)
              (Session 1 {[ "title" := JStr (txt "Old title") ]} [])
              (txt "Here: {} enjoy") (txt "{}") []
              eq_refl eq_refl eq_refl eq_refl eq_refl)
    as (H1 & _ & _ & _ & _ & H6 & _).
  split; [exact H1|]. rewrite H6 by discriminate. reflexivity.
Defined.

(** ** Step 2: the forward button and the lists of names *)

(** X6.  With an outline text that decodes, the forward button of step 2
    writes the four text fields, the decoded outline and the two lists of
    names into the article record, keeps every other field and the stored
    files, and moves to step 3. *)
Theorem step2_forward (json_loads : text -> option json) (E : env) (I : inputs)
    (s : session) (outline : json) :
  step2_renders s ->
  pressed I BtnForward = true ->
  json_loads (in_outline_text I) = Some outline ->
  step2 json_loads E I s
  = (Session 3 (reviewed_article (article_data s) I outline) (images s), [],
     Halt Rerun)
  /\ (forall k : string,
        k <> "title" -> k <> "meta_description" -> k <> "slug" ->
        k <> "focus_keyphrase" -> k <> "outline" -> k <> "categories" ->
        k <> "tags" ->
        reviewed_article (article_data s) I outline !! k = article_data s !! k).
Proof.
  intros [Hc Ht] Hfwd Hok. split.
  - unfold step2, loads.
    rewrite (pressed_other I BtnForward BtnBack Hfwd eq_refl), Hfwd, Hok.
    rewrite bind_load_or, Hc, bind_lift_inr, bind_load_or, Ht, bind_lift_inr.
    rewrite bind_ret, !bind_store, bind_ret, !bind_store, bind_set_step.
    reflexivity.
  - intros k H1 H2 H3 H4 H5 H6 H7. unfold reviewed_article, with_form_fields.
    now rewrite !lookup_insert_ne by congruence.
Qed.

Lemma step2_forward_witness :
  step (final (step2 (fun _ => Some (JList [])) (demo_env [])
                 (demo_review BtnForward "New" "[]") (Session 2 ∅ [])))
  = 3%Z.
Proof.
  destruct (step2_forward (fun _ => Some (JList [])) (demo_env [])
              (demo_review BtnForward "New" "[]") (Session 2 ∅ []) (JList [])
              ltac:(split; reflexivity) eq_refl eq_refl) as [H _].
  now rewrite H.
Defined.

Lemma split_from_length (sep : ascii) (s : text) : forall cur,
  length (split_from sep cur s) = S (length (List.filter (chr_is sep) s)).
Proof.
  induction s as [|c s IH]; intros cur; [reflexivity|].
  cbn. unfold chr_is at 1. destruct (code c =? code sep); cbn; now rewrite IH.
Qed.

Lemma split_from_parts (sep : ascii) (s : text) : forall cur,
  Forall (fun c => c <> sep) cur ->
  Forall (fun p => Forall (fun c => c <> sep) p) (split_from sep cur s).
Proof.
  induction s as [|c s IH]; intros cur Hcur; cbn.
  - constructor; [now apply Forall_rev | constructor].
  - destruct (code c =? code sep) eqn:Hc.
    + constructor; [now apply Forall_rev | now apply IH].
    + apply IH. constructor; [|exact Hcur].
      intros ->. unfold code in Hc. now rewrite Nat.eqb_refl in Hc.
Qed.

Lemma lstrip_split (s : text) :
  exists w, s = w ++ lstrip s /\ Forall (fun c => is_space c = true) w.
Proof.
  induction s as [|c s (w & Hw & Hsp)]; [now exists []|].
  cbn. destruct (is_space c) eqn:Hc.
  - exists (c :: w). split; [cbn; now f_equal | now constructor].
  - now exists [].
Qed.

Lemma lstrip_head (s : text) (c : ascii) (rest : text) :
  lstrip s = c :: rest -> is_space c = false.
Proof.
  induction s as [|x s IH]; [discriminate|]. cbn.
  destruct (is_space x) eqn:Hx; [exact IH|]. now intros [= <- _].
Qed.

Lemma lstrip_fixed (s : text) :
  (forall c rest, s = c :: rest -> is_space c = false) -> lstrip s = s.
Proof.
  destruct s as [|c s]; [reflexivity|]. intros H. cbn.
  now rewrite (H c s eq_refl).
Qed.

Lemma strip_stripped (s : text) : stripped (strip s).
Proof.
  unfold strip, stripped. split.
  - intros c rest H.
    destruct (lstrip_split (rev (lstrip s))) as (w & Hw & _).
    apply (f_equal (@rev ascii)) in Hw. rewrite rev_involutive, rev_app_distr in Hw.
    rewrite H in Hw. cbn in Hw. exact (lstrip_head s c _ Hw).
  - intros c front H.
    apply (f_equal (@rev ascii)) in H. rewrite rev_involutive, rev_app_distr in H.
    cbn in H. exact (lstrip_head _ c _ H).
Qed.

Lemma strip_keeps (P : ascii -> Prop) (s : text) :
  Forall P s -> Forall P (strip s).
Proof.
  intros H. unfold strip. apply Forall_rev.
  assert (forall t, Forall P t -> Forall P (lstrip t)) as Hl.
  { intros t Ht. destruct (lstrip_split t) as (w & Hw & _).
    rewrite Hw in Ht. now apply Forall_app in Ht. }
  apply Hl, Forall_rev, Hl, H.
Qed.

Lemma strip_fixed (s : text) : stripped s -> strip s = s.
Proof.
  intros [Hh Ht]. unfold strip. rewrite (lstrip_fixed s Hh).
  rewrite lstrip_fixed; [apply rev_involutive|].
  intros c rest H. apply (Ht c (rev rest)).
  apply (f_equal (@rev ascii)) in H. rewrite rev_involutive in H. exact H.
Qed.

(** X7.  The names read from a comma-separated field are one more than its
    commas, so never none: an empty field gives one empty name.  Each name
    has no comma and no whitespace at either end. *)
Theorem split_strip_names (s : text) :
  exists parts : list text,
    split_strip s = JList (map JStr parts)
    /\ length parts = S (commas s)
    /\ Forall (fun p => stripped p /\ Forall (fun c => c <> ","%char) p) parts.
Proof.
  exists (map strip (split ","%char s)). unfold split_strip, split, commas.
  split; [now rewrite map_map|].
  split; [now rewrite length_map, split_from_length|].
  apply Forall_map.
  eapply Forall_impl; [apply (split_from_parts ","%char s []); constructor|].
  intros p Hp. cbn. split; [apply strip_stripped | now apply strip_keeps].
Qed.

Lemma split_from_push (sep : ascii) (p t : text) : forall cur,
  Forall (fun c => c <> sep) p ->
  split_from sep cur (p ++ t) = split_from sep (rev p ++ cur) t.
Proof.
  induction p as [|c p IH]; intros cur Hp; [reflexivity|].
  inversion Hp as [|? ? Hc Hp']; subst. cbn [app split_from].
  replace (code c =? code sep) with false.
  - rewrite (IH _ Hp'). cbn [rev]. now rewrite <- app_assoc.
  - symmetry. apply Nat.eqb_neq. intros H. apply Hc.
    unfold code in H. apply (f_equal ascii_of_nat) in H.
    now rewrite !ascii_nat_embedding in H.
Qed.

Lemma split_join (rest : list text) : forall (name : text) (cur : text),
  Forall (fun p => Forall (fun c => c <> ","%char) p) (name :: rest) ->
  split_from ","%char cur (join_comma (name :: rest))
  = (rev cur ++ name) :: map (fun m => " "%char :: m) rest.
Proof.
  induction rest as [|m rest IH]; intros name cur Hall;
    inversion Hall as [|? ? Hn Hrest]; subst.
  - cbn [join_comma map]. rewrite <- (app_nil_r name) at 1.
    rewrite (split_from_push _ _ _ _ Hn). cbn.
    now rewrite rev_app_distr, rev_involutive.
  - change (join_comma (name :: m :: rest))
      with (name ++ ","%char :: " "%char :: join_comma (m :: rest)).
    rewrite (split_from_push _ _ _ _ Hn).
    cbn [split_from]. rewrite Nat.eqb_refl.
    rewrite rev_app_distr, rev_involutive.
    change (code " " =? code ",") with false. cbn iota.
    rewrite (IH m [" "%char] Hrest). reflexivity.
Qed.

(** X8.  Names that have no comma and no whitespace at either end come back
    as they were when they are joined with a comma and a space, as the form
    of step 2 shows them, and read again; the empty list does not: it comes
    back as one empty name. *)
Theorem join_then_split_strip (names : list text) :
  names <> [] ->
  Forall (fun p => stripped p /\ Forall (fun c => c <> ","%char) p) names ->
  split_strip (join_comma names) = JList (map JStr names)
  /\ split_strip (join_comma []) = JList [JStr []].
Proof.
  intros Hne Hall. split; [|reflexivity].
  destruct names as [|name rest]; [now destruct Hne|].
  unfold split_strip, split.
  rewrite split_join
    by (eapply Forall_impl; [exact Hall|]; now intros p [_ Hp]).
  cbn [rev app map]. inversion Hall as [|? ? [Hs _] Hrest]; subst.
  rewrite (strip_fixed name Hs). do 2 f_equal.
  rewrite map_map. clear Hall Hne Hs.
  induction Hrest as [|m rest [Hm _] _ IH]; [reflexivity|].
  cbn [map]. rewrite IH. do 2 f_equal.
  unfold strip. cbn [lstrip]. change (is_space " ") with true. cbn iota.
  exact (strip_fixed m Hm).
Qed.

Lemma join_then_split_strip_witness :
  split_strip (join_comma [txt "Phones"; txt "Budget tech"])
  = JList [JStr (txt "Phones"); JStr (txt "Budget tech")].
Proof.
  apply (join_then_split_strip [txt "Phones"; txt "Budget tech"]);
    [discriminate|].
  repeat constructor; try discriminate;
    try (intros c rest [= <- _]; reflexivity);
    intros c front H;
    apply (f_equal (@rev ascii)) in H; rewrite rev_app_distr in H;
    injection H as <- _; reflexivity.
Defined.

(** ** Steps 3 and 4 on a page that is drawn *)

(** X9.  On a page of step 3 that can be drawn and already has a content, a
    run calls no service and shows no error; it writes the value of the text
    area into the content, keeps the rest of the session, and moves to step 2
    on the back button, to step 4 on the forward button, and nowhere
    otherwise. *)
Theorem step3_on_drawn_page (E : env) (I : inputs) (s : session) :
  step3_renders s ->
  step3 E I s
  = (Session (next_step I 2 4 s)
       (<["content" := JStr (in_edited_content I)]> (article_data s))
       (images s),
     [], next_ending I).
Proof.
  intros ([c Hc] & [t Ht] & [m Hm] & [k Hk] & (w & Hw & Hn)).
  unfold step3, next_step, next_ending.
  destruct (pressed I BtnBack) eqn:Hb; destruct (pressed I BtnForward) eqn:Hf;
    run_simpl; reflexivity.
Qed.

Lemma step3_on_drawn_page_witness :
  article_data (final (step3 gemini_only_env (demo_edit BtnForward "<p>New</p>")
                         (demo_draft "<p>Draft</p>"))) !! "content"
  = Some (JStr (txt "<p>New</p>")).
Proof.
  rewrite (step3_on_drawn_page gemini_only_env (demo_edit BtnForward "<p>New</p>")
             (demo_draft "<p>Draft</p>")).
  - reflexivity.
  - unfold step3_renders. cbn. repeat split; now eexists.
Defined.

(** X10.  On a page of step 4 whose plan is stored and can be shown, a run
    calls no service, writes nothing but the step, and moves to step 3 on
    the back button, to step 5 on the forward button, and nowhere
    otherwise. *)
Theorem step4_on_drawn_page (json_loads : text -> option json) (E : env)
    (I : inputs) (s : session) :
  step4_renders s ->
  final (step4 json_loads E I s)
  = Session (next_step I 3 5 s) (article_data s) (images s)
  /\ shown (step4 json_loads E I s) = []
  /\ ending (step4 json_loads E I s) = next_ending I.
Proof.
  intros (plan & v & l & Hp & Hv & Hl & Hshow).
  unfold step4, next_step, next_ending.
  destruct (pressed I BtnBack) eqn:Hb; destruct (pressed I BtnForward) eqn:Hf;
    run_simpl; try (now repeat split).
  cbn. repeat split. now destruct s.
Qed.

Lemma step4_on_drawn_page_witness :
  step (final (step4 demo_loads gemini_only_env (demo_press BtnForward)
                 (Session 4 {[ "image_plan" := demo_plan ]} [])))
  = 5%Z.
Proof.
  destruct (step4_on_drawn_page demo_loads gemini_only_env (demo_press BtnForward)
              (Session 4 {[ "image_plan" := demo_plan ]} [])) as (H & _).
  - unfold step4_renders. do 3 eexists. repeat split; reflexivity.
  - now rewrite H.
Defined.

(** X11.  On step 4 without a stored plan, a run asks the generation service
    for one, with the title, the first 2000 characters of the content and
    the keyword.  When no plan can be decoded from the answer the session is
    left as it was and no button is served, whichever is pressed: the next
    run asks again. *)
Theorem step4_stalls_without_plan (json_loads : text -> option json) (E : env)
    (I : inputs) (s : session) (title keyword : json) (c : text) :
  article_data s !! "image_plan" = None ->
  article_data s !! "title" = Some title ->
  article_data s !! "content" = Some (JStr c) ->
  article_data s !! "keyword" = Some keyword ->
  decoded_answer json_loads E
    (ImagePlanPrompt title (JStr (take 2000 c)) keyword) = None ->
  let r := step4 json_loads E I s in
  final r = s
  /\ ending r = Ok tt
  /\ head (shown r)
     = Some (Called (ImagePlanPrompt title (JStr (take 2000 c)) keyword)).
Proof.
  intros Hplan Ht Hc Hk Hnone. cbv zeta.
  assert (exists log,
             step4 json_loads E I s
             = (s, Called (ImagePlanPrompt title (JStr (take 2000 c)) keyword)
                     :: log, Ok tt)) as [log ->].
  { unfold step4, plan_images_call. rewrite bind_get, Hplan.
    unfold decoded_answer in Hnone.
    rewrite bind_assoc, bind_load, Ht, bind_assoc, bind_load, Hc.
    cbn [py_head]. rewrite bind_assoc, bind_lift_inr, bind_assoc, bind_load, Hk.
    unfold call_gemini, loads, try_except, bind, emit, get.
    destruct (generate_content E _) as [response|]; cbn.
    - destruct (nonempty response); cbn.
      + destruct (extract_json response) as [group|]; cbn.
        * rewrite Hnone. cbn. rewrite Hplan. now eexists.
        * rewrite Hplan. now eexists.
      + rewrite Hplan. now eexists.
    - rewrite Hplan. now eexists. }
  now repeat split.
Qed.

Lemma step4_stalls_without_plan_witness :
  final (step4 demo_loads gemini_only_env (demo_press BtnForward) demo_planless)
  = demo_planless.
Proof.
  destruct (step4_stalls_without_plan demo_loads gemini_only_env
              (demo_press BtnForward) demo_planless
              (JStr (txt "T")) (JStr (txt "k")) (txt "<p>x</p>")
              eq_refl eq_refl eq_refl eq_refl eq_refl) as (H & _).
  exact H.
Defined.

(** ** The clean-up of the article answer *)

Lemma strip_prefix_length (p s rest : text) :
  strip_prefix p s = Some rest -> length s = length p + length rest.
Proof.
  revert s. induction p as [|x p IH]; intros s; cbn.
  - now intros [= ->].
  - destruct s as [|c s]; [discriminate|].
    destruct (code c =? code x); [|discriminate].
    intros H. cbn. now rewrite (IH _ H).
Qed.

Lemma fence_leading (t : text) :
  strip_prefix tick3 t = None <-> leading_ticks t < 3.
Proof.
  unfold tick3, txt. cbn [list_ascii_of_string].
  destruct t as [|a [|b [|c t]]]; cbn [strip_prefix leading_ticks];
    change (code "`"%char) with 96;
    repeat match goal with
           | |- context [code ?x =? 96] => destruct (code x =? 96)
           end; split; intros; (lia || congruence).
Qed.

Lemma remove_fence_ticks (n : nat) : forall s : text,
  length s <= n ->
  has_fence (remove_fence tick3 n s) = false
  /\ (leading_ticks s < 3 ->
      leading_ticks (remove_fence tick3 n s) = leading_ticks s).
Proof.
  induction n as [|n IH]; intros s Hlen.
  - destruct s; [now split | cbn in Hlen; lia].
  - cbn [remove_fence].
    destruct (strip_prefix tick3 s) as [rest|] eqn:Hp.
    + pose proof (strip_prefix_length _ _ _ Hp) as Hl. cbn in Hl.
      assert (~ leading_ticks s < 3) as Hlead
        by (intros H; apply fence_leading in H; congruence).
      destruct rest as [|c rest]; [split; [reflexivity | tauto]|].
      destruct (code c =? 10).
      * destruct (IH rest) as [H _]; [cbn in Hl; lia|]. split; [exact H | tauto].
      * destruct (IH (c :: rest)) as [H _]; [cbn in Hl |- *; lia|].
        split; [exact H | tauto].
    + destruct s as [|c s]; [now split|].
      destruct (IH s) as [Hf Hk]; [cbn in Hlen; lia|].
      pose proof (proj1 (fence_leading _) Hp) as Hlead.
      assert (leading_ticks (c :: remove_fence tick3 n s)
              = leading_ticks (c :: s)) as Heq.
      { cbn [leading_ticks] in *. destruct (code c =? 96); [|reflexivity].
        f_equal. apply Hk. lia. }
      split; [|now intros _].
      cbn [has_fence].
      replace (strip_prefix tick3 (c :: remove_fence tick3 n s)) with (@None text).
      * exact Hf.
      * symmetry. apply fence_leading. now rewrite Heq.
Qed.

Lemma has_fence_inside (a b : text) : has_fence (a ++ tick3 ++ b) = true.
Proof.
  induction a as [|c a IH]; [reflexivity|].
  cbn [app has_fence].
  destruct (strip_prefix tick3 (c :: a ++ tick3 ++ b)); [reflexivity | exact IH].
Qed.

(** X12.  The cleaned article answer never holds three backticks in a row:
    every code fence of the answer is gone, also one that only comes
    together when a fence marked [html] between backticks is taken out. *)
Theorem clean_response_has_no_fence (response : text) :
  forall a b : text, clean_response response <> a ++ txt "```" ++ b.
Proof.
  intros a b H.
  assert (has_fence (clean_response response) = false) as Hf.
  { unfold clean_response. cbv zeta. apply remove_fence_ticks. lia. }
  rewrite H in Hf. change (txt "```") with tick3 in Hf.
  now rewrite has_fence_inside in Hf.
Qed.

(** An answer wrapped in a fence: the wrapping and the whitespace around it
    are removed. *)
Example clean_response_unwraps :
  clean_response (txt " ```html" ++ newline ++ txt "<p>Hi</p>" ++ newline
                  ++ txt "``` ")
  = txt "<p>Hi</p>" ++ newline.
Proof. reflexivity. Qed.

(** ** The reset button *)

(** X13.  The reset button of the sidebar is served after the page of the
    step.  When the page runs to its end the session becomes the one of a
    fresh start: step 1, an empty article record, no files.  When the page
    raises, the sidebar is not reached and the session stays the one the
    page left. *)
Theorem reset_is_served_after_the_page (json_loads : text -> option json)
    (container_str : json -> text) (E : env) (I : inputs) (s : session) :
  is_Some (secrets E !! "GEMINI_API_KEY") ->
  pressed I BtnReset = true ->
  let page := stage json_loads container_str E I s in
  let r := run json_loads container_str E I s in
  (ending page = Ok tt -> final r = initial_session /\ ending r = Halt Rerun)
  /\ (forall e, ending page = Halt (Raise e) ->
        final r = final page /\ ending r = Halt (Raise e)).
Proof.
  intros Hkey Hreset. cbv zeta. unfold run.
  rewrite (bind_configure E _ s Hkey).
  rewrite final_bind, ending_bind. split.
  - intros ->. unfold sidebar. rewrite Hreset. now split.
  - intros e ->. now split.
Qed.

Lemma reset_is_served_after_the_page_witness :
  final (run demo_loads demo_container_str gemini_only_env (demo_press BtnReset)
           (demo_ready demo_files))
  = initial_session.
Proof.
  destruct (reset_is_served_after_the_page demo_loads demo_container_str
              gemini_only_env (demo_press BtnReset) (demo_ready demo_files)
              ltac:(now eexists) eq_refl) as [H _].
  now apply H.
Defined.

(** On step 3 without a keyword the page raises, and the reset button is
    not served. *)
Example reset_is_lost_when_the_page_raises :
  let s := Session 3 {[ "content" := JStr (txt "<p>x</p>") ]} [] in
  let r := run demo_loads demo_container_str gemini_only_env
             (demo_press BtnReset) s in
  ending r = Halt (Raise (KeyError "title")) /\ step (final r) = 3%Z.
Proof. now split. Qed.

(** ** The calls to the CMS *)

Lemma upload_run (E : env) (url user pass : text) (webp : bytes)
    (filename alt : text) (s : session) :
  secrets E !! "WP_URL" = Some url ->
  secrets E !! "WP_USERNAME" = Some user ->
  secrets E !! "WP_APP_PASSWORD" = Some pass ->
  upload_to_wordpress E webp filename alt s
  = (s,
     Sent (PostMedia url filename webp user pass)
     :: match http E (PostMedia url filename webp user pass) with
        | NetworkError => [StError "Error uploading to WordPress"]
        | Response status body =>
            if (status =? 201)%Z
            then match body with
                 | None => [StError "Error uploading to WordPress"]
                 | Some media =>
                     match subscript media "id" with
                     | inl _ => [StError "Error uploading to WordPress"]
                     | inr id =>
                         Sent (PostMediaAlt url id alt user pass)
                         :: match http E (PostMediaAlt url id alt user pass) with
                            | NetworkError =>
                                [StError "Error uploading to WordPress"]
                            | Response _ _ => []
                            end
                     end
                 end
            else [StError "WordPress upload failed"]
        end,
     Ok (media_reply E url user pass webp filename alt)).
Proof.
  intros Hurl Huser Hpass. unfold upload_to_wordpress, secret, media_reply.
  rewrite Hurl, Huser, Hpass. rewrite !bind_ret.
  unfold try_except, send, bind, emit, response_json.
  destruct (http E (PostMedia url filename webp user pass))
    as [|status body]; [reflexivity|].
  cbn. destruct (status =? 201)%Z; [|reflexivity].
  destruct body as [media|]; [|reflexivity].
  cbn. destruct (subscript media "id") as [e|id]; [reflexivity|].
  cbn. destruct (http E (PostMediaAlt url id alt user pass)); reflexivity.
Qed.

(** X14.  With the three CMS secrets an upload never raises and never writes
    the session.  It gives the media record exactly when the creation is
    answered 201 with a body that has an id and the alt-text request gets an
    answer, whatever that answer is; a network failure of the alt-text request
    makes the upload count as failed although the media was created.  The
    alt-text request is sent only after such a 201, and every failure is
    reported. *)
Theorem upload_outcomes (E : env) (url user pass : text) (webp : bytes)
    (filename alt : text) (s : session) :
  secrets E !! "WP_URL" = Some url ->
  secrets E !! "WP_USERNAME" = Some user ->
  secrets E !! "WP_APP_PASSWORD" = Some pass ->
  let r := upload_to_wordpress E webp filename alt s in
  let created := http E (PostMedia url filename webp user pass) in
  final r = s
  /\ (forall media : json,
        ending r = Ok (Some media) <->
        exists id status body,
          created = Response 201 (Some media)
          /\ subscript media "id" = inr id
          /\ http E (PostMediaAlt url id alt user pass) = Response status body)
  /\ (ending r = Ok None \/ exists media, ending r = Ok (Some media))
  /\ (ending r = Ok None -> exists what, last (shown r) = Some (StError what))
  /\ (forall u id a us p,
        In (Sent (PostMediaAlt u id a us p)) (shown r) ->
        exists media,
          created = Response 201 (Some media) /\ subscript media "id" = inr id).
Proof.
  intros Hurl Huser Hpass. cbv zeta.
  rewrite (upload_run E url user pass webp filename alt s Hurl Huser Hpass).
  unfold media_reply, final, ending, shown. cbn [fst snd].
  destruct (http E (PostMedia url filename webp user pass))
    as [|status body] eqn:Hc.
  { split; [reflexivity|]. split.
    - intros media. split; [discriminate|]. intros (? & ? & ? & H & _). discriminate.
    - split; [now left|]. split; [intros _; now eexists|].
      intros u id a us p [H|[H|[]]]; discriminate. }
  destruct (status =? 201)%Z eqn:Hs.
  2:{ split; [reflexivity|]. split.
      - intros media. split; [discriminate|].
        intros (? & ? & ? & [= -> _] & _). discriminate.
      - split; [now left|]. split; [intros _; now eexists|].
        intros u id a us p [H|[H|[]]]; discriminate. }
  apply Z.eqb_eq in Hs. subst status.
  destruct body as [media|].
  2:{ split; [reflexivity|]. split.
      - intros media. split; [discriminate|].
        intros (? & ? & ? & [=] & _).
      - split; [now left|]. split; [intros _; now eexists|].
        intros u id a us p [H|[H|[]]]; discriminate. }
  destruct (subscript media "id") as [e|id] eqn:Hid.
  { split; [reflexivity|]. split.
    - intros m. split; [discriminate|].
      intros (? & ? & ? & [= <-] & H & _). congruence.
    - split; [now left|]. split; [intros _; now eexists|].
      intros u id a us p [H|[H|[]]]; discriminate. }
  destruct (http E (PostMediaAlt url id alt user pass)) as [|st b] eqn:Ha.
  - split; [reflexivity|]. split.
    + intros m. split; [discriminate|].
      intros (i & ? & ? & [= <-] & H & H'). congruence.
    + split; [now left|]. split; [intros _; now eexists|].
      intros u i a us p [H|[H|[H|[]]]]; try discriminate.
      injection H as <- <- <- <- <-. now exists media.
  - split; [reflexivity|]. split.
    + intros m. split.
      * intros [= <-]. now exists id, st, b.
      * intros (? & ? & ? & [= <-] & _). reflexivity.
    + split; [right; now eexists|]. split; [discriminate|].
      intros u i a us p [H|[H|[]]]; try discriminate.
      injection H as <- <- <- <- <-. now exists media.
Qed.

Lemma upload_outcomes_witness :
  final (upload_to_wordpress (cms_env (demo_cms [] 201)) [] (txt "a.webp")
           (txt "A phone") initial_session)
  = initial_session.
Proof.
  destruct (upload_outcomes (cms_env (demo_cms [] 201))
              (txt "https://example.org") (txt "tony") (txt "secret") []
              (txt "a.webp") (txt "A phone") initial_session
              eq_refl eq_refl eq_refl) as (H & _).
  exact H.
Defined.

(** X15.  With the base URL of the CMS, the listing of the categories or of
    the tags sends one request, shows nothing, writes nothing and never
    raises: any failure gives the empty mapping, silently; names come back
    only from an answer 200 with a body.  Without the base URL it raises
    [KeyError] before any request. *)
Theorem listing_fails_silently (E : env) (r : text -> request) (s : session) :
  (forall url : text,
      secrets E !! "WP_URL" = Some url ->
      final (get_wp_names E r s) = s
      /\ shown (get_wp_names E r s) = [Sent (r url)]
      /\ exists names,
          ending (get_wp_names E r s) = Ok names
          /\ (names <> [] ->
              exists body, http E (r url) = Response 200 (Some body)))
  /\ (secrets E !! "WP_URL" = None ->
      get_wp_names E r s = (s, [], Halt (Raise (KeyError "WP_URL")))).
Proof.
  split.
  - intros url Hurl. unfold get_wp_names, secret. rewrite Hurl, bind_ret.
    unfold try_except, send, bind, emit, response_json, final, shown, ending.
    destruct (http E (r url)) as [|status body] eqn:Hr; cbn.
    { repeat split. exists []. now split. }
    destruct (status =? 200)%Z eqn:Hs; cbn.
    2:{ repeat split. exists []. now split. }
    apply Z.eqb_eq in Hs. subst status.
    destruct body as [b|]; cbn.
    2:{ repeat split. exists []. now split. }
    destruct (py_iter b) as [e|entries]; cbn.
    { repeat split. exists []. now split. }
    destruct (name_ids entries) as [e|names]; cbn.
    { repeat split. exists []. now split. }
    repeat split. exists names. split; [reflexivity|]. intros _. now exists b.
  - intros Hurl. unfold get_wp_names, secret, bind. now rewrite Hurl.
Qed.

Lemma listing_fails_silently_witness :
  shown (get_wp_categories (cms_env (fun _ => NetworkError)) initial_session)
  = [Sent (GetCategories (txt "https://example.org"))].
Proof.
  destruct (listing_fails_silently (cms_env (fun _ => NetworkError))
              GetCategories initial_session) as [H _].
  destruct (H (txt "https://example.org") eq_refl) as (_ & Hs & _).
  exact Hs.
Defined.






(** ** The image loop of the publish *)

Lemma posts_sent_none (l : list event) :
  Forall (post_pred (fun _ => False)) l -> posts_sent l = [].
Proof.
  induction 1 as [|e l He _ IH]; [reflexivity|].
  destruct e as [| | | | |[]]; cbn in *; try exact IH. destruct He.
Qed.

(** X17.  When the loop over the images raises, for instance on a
    descriptor without an alt text, the publish ends with that exception: no
    post is created, although the images before it are already uploaded, and
    the session is as it was. *)
Theorem publish_stops_when_the_loop_raises (container_str : json -> text)
    (E : env) (s : session) (plan v : json) (descrs : list json) (h : halt) :
  article_data s !! "image_plan" = Some plan ->
  subscript plan "images" = inr v ->
  py_iter v = inr descrs ->
  ending (process_images E 1 (combine (images s) descrs) s) = Halt h ->
  let r := publish container_str E s in
  ending r = Halt h
  /\ posts_sent (shown r) = []
  /\ shown r = shown (process_images E 1 (combine (images s) descrs) s)
  /\ final r = s.
Proof.
  intros Hplan Hv Hiter Hloop. cbv zeta.
  split; [|split; [|split]].
  - unfold publish. rewrite bind_load, Hplan, bind_get. cbv zeta.
    rewrite Hv, bind_lift_inr, Hiter, bind_lift_inr.
    now rewrite ending_bind, Hloop.
  - unfold publish. rewrite bind_load, Hplan, bind_get. cbv zeta.
    rewrite Hv, bind_lift_inr, Hiter, bind_lift_inr.
    rewrite shown_bind, Hloop.
    apply posts_sent_none. apply emits_process_images.
  - unfold publish. rewrite bind_load, Hplan, bind_get. cbv zeta.
    rewrite Hv, bind_lift_inr, Hiter, bind_lift_inr.
    now rewrite shown_bind, Hloop.
  - apply readonly_publish.
Qed.

Lemma publish_stops_when_the_loop_raises_witness :
  ending (publish demo_container_str (cms_env (demo_cms [] 201)) demo_no_alt)
  = Halt (Raise (KeyError "alt_text")).
Proof.
  destruct (publish_stops_when_the_loop_raises demo_container_str
              (cms_env (demo_cms [] 201)) demo_no_alt
              (JDict [("images", JList [JDict []])]) (JList [JDict []])
              [JDict []] (Raise (KeyError "alt_text"))
              eq_refl eq_refl eq_refl eq_refl) as (H & _).
  exact H.
Defined.

(** X18.  The loop pairs the files with the descriptors one to one from the
    start: it gives at most as many uploads as there are files, and at most
    as many as there are descriptors; what is beyond the shorter of the two
    is left out. *)
Theorem uploads_are_bounded_by_the_pairs (E : env) (files : list upfile)
    (descrs : list json) (s : session) (wp_images : list wp_image) :
  ending (process_images E 1 (combine files descrs) s) = Ok wp_images ->
  length wp_images <= length files /\ length wp_images <= length descrs.
Proof.
  assert (forall pairs idx imgs,
             ending (process_images E idx pairs s) = Ok imgs ->
             length imgs <= length pairs) as Hbound.
  { induction pairs as [|[f d] rest IH]; intros idx imgs;
      cbn [process_images].
    - now intros [= <-].
    - rewrite ending_bind.
      destruct (ending (process_image E idx f d s)) as [up|] eqn:H1;
        [|discriminate].
      rewrite (readonly_process_image E idx f d s).
      rewrite ending_bind.
      destruct (ending (process_images E (idx + 1) rest s)) as [imgs'|] eqn:H2;
        [|discriminate].
      specialize (IH _ _ H2).
      intros [= <-]. destruct up; cbn [length]; lia. }
  intros H. apply Hbound in H. rewrite length_combine in H. lia.
Qed.

Lemma uploads_are_bounded_by_the_pairs_witness :
  length (successes second_fails (txt "https://example.org") (txt "tony")
            (txt "secret") 1 (combine demo_files demo_descriptors))
  <= length demo_files.
Proof.
  apply (uploads_are_bounded_by_the_pairs second_fails demo_files
           demo_descriptors (demo_ready demo_files)).
  apply ending_process_images; try reflexivity.
  - apply demo_cms_contract.
  - repeat constructor; try (now eexists); right; now eexists.
Defined.

(** ** C3: the publish after a partial failure of the uploads *)

Lemma uploaded_created (E : env) (url user pass : text) (idx : Z) (f : upfile)
    (d : json) :
  uploaded E url user pass idx f d =
  match created E url user pass idx f d with
  | Some img => if alt_answered E url user pass img then Some img else None
  | None => None
  end.
Proof.
  unfold uploaded, created, media_reply, wp_entry, alt_answered.
  destruct (image_to_webp E f) as [webp|]; [|reflexivity].
  destruct (subscript d "alt_text") as [e|[| | |alt| |]]; try reflexivity.
  destruct (http E (PostMedia _ _ _ _ _)) as [|status [media|]]; try reflexivity;
    destruct (status =? 201)%Z; try reflexivity.
  destruct (subscript media "id") as [e|id] eqn:Hid; [reflexivity|].
  destruct (subscript media "source_url") as [e|src] eqn:Hsrc;
    [destruct (http E _); cbn; rewrite ?Hid, ?Hsrc; reflexivity|].
  destruct (dict_get d "caption" (JStr [])) as [e|caption];
    [destruct (http E _); cbn; rewrite ?Hid, ?Hsrc; reflexivity|].
  destruct (dict_get d "position" JNull) as [e|position];
    [destruct (http E _); cbn; rewrite ?Hid, ?Hsrc; reflexivity|].
  destruct (dict_get d "section_heading" JNull) as [e|heading];
    [destruct (http E _); cbn; rewrite ?Hid, ?Hsrc; reflexivity|].
  cbn [wi_id wi_alt]. destruct (http E _); cbn; rewrite ?Hid, ?Hsrc; reflexivity.
Qed.

Lemma successes_created (E : env) (url user pass : text)
    (pairs : list (upfile * json)) : forall idx : Z,
  successes E url user pass idx pairs
  = List.filter (alt_answered E url user pass)
      (all_created E url user pass idx pairs).
Proof.
  induction pairs as [|[f d] rest IH]; intros idx; [reflexivity|].
  cbn [successes all_created]. rewrite uploaded_created, IH.
  destruct (created E url user pass idx f d) as [img|]; [|reflexivity].
  cbn [List.filter]. now destruct (alt_answered E url user pass img).
Qed.

Lemma splice_images_with_figures (container_str : json -> text)
    (imgs : list wp_image) :
  Forall heading_ok imgs ->
  forall c : text,
    splice_images container_str (JStr c) imgs
    = inr (JStr (fold_left (with_figure container_str) imgs c)).
Proof.
  induction 1 as [|img imgs Himg _ IH]; intros c; [reflexivity|].
  cbn [splice_images fold_left]. unfold splice_image, with_figure.
  destruct Himg as [Hn|[h Hh]].
  - rewrite Hn. cbn. apply IH.
  - rewrite Hh. unfold nonempty. cbn.
    destruct (negb (Nat.eqb (length h) 0)); cbn; apply IH.
Qed.

Lemma posts_sent_app (l1 l2 : list event) :
  posts_sent (l1 ++ l2) = posts_sent l1 ++ posts_sent l2.
Proof.
  induction l1 as [|e l1 IH]; [reflexivity|].
  destruct e as [| | | | |[]]; cbn; rewrite ?IH; reflexivity.
Qed.

Lemma posts_after {A B} (m : M A) (f : A -> M B) (s : session) (a : A) :
  readonly m -> emits (post_pred (fun _ => False)) m -> ending (m s) = Ok a ->
  posts_sent (shown (bind m f s)) = posts_sent (shown (f a s)).
Proof.
  intros Hro Hm Hend. rewrite shown_bind, Hend, (Hro s), posts_sent_app.
  now rewrite (posts_sent_none _ (Hm s)).
Qed.

Lemma posts_create_post {B} (E : env) (s : session) (url user pass : text)
    (title content meta_desc slug : json) (categories tags : list json)
    (featured : json) (k : option json -> M B) :
  secrets E !! "WP_URL" = Some url ->
  secrets E !! "WP_USERNAME" = Some user ->
  secrets E !! "WP_APP_PASSWORD" = Some pass ->
  (forall post, emits (post_pred (fun _ => False)) (k post)) ->
  posts_sent
    (shown (bind (create_wordpress_post E title content meta_desc slug categories
                    tags featured) k s))
  = [PostData title content (txt "draft") slug meta_desc categories tags featured].
Proof.
  intros Hurl Huser Hpass Hk.
  assert (exists log post,
             create_wordpress_post E title content meta_desc slug categories tags
               featured s
             = (s, Sent (PostPost url
                           (PostData title content (txt "draft") slug meta_desc
                              categories tags featured) user pass) :: log,
                Ok post)
             /\ posts_sent log = []) as (log & post & Hrun & Hlog).
  { unfold create_wordpress_post, secret.
    rewrite Hurl, Huser, Hpass. rewrite !bind_ret.
    unfold try_except, send, bind, emit, response_json.
    destruct (http E _) as [|status body]; cbn; [now do 2 eexists|].
    destruct (status =? 201)%Z; cbn; [|now do 2 eexists].
    destruct body; cbn; now do 2 eexists. }
  unfold bind. rewrite Hrun.
  pose proof (Hk post s) as Hks. unfold shown in *.
  destruct (k post s) as [[s2 l2] r]. cbn in *.
  rewrite posts_sent_app, Hlog. now rewrite (posts_sent_none _ Hks).
Qed.

(** C3.  With the three CMS secrets, a CMS that keeps the contract of the
    media endpoint and an article that is ready, the loop over the images
    never stops at a failure: it ends with the images that the CMS created
    and whose alt-text request got an answer, in their order.  The publish
    then sends exactly one post-creation request: its content is the stored
    content with the figures of these images after the first, each spliced
    after the first match of its heading, and with nothing else inserted;
    its featured media is the id of the first of them, or 0 when there is
    none; its categories and tags are the ids that the listings of the CMS
    give for the names of the article. *)
Theorem partial_failure_still_posts (container_str : json -> text) (E : env)
    (s : session) (url user pass : text) (descrs : list json) (c : text)
    (title meta_desc slug : json) :
  secrets E !! "WP_URL" = Some url ->
  secrets E !! "WP_USERNAME" = Some user ->
  secrets E !! "WP_APP_PASSWORD" = Some pass ->
  media_contract E ->
  ready_to_publish s descrs c title meta_desc slug ->
  let pairs := combine (images s) descrs in
  let wp_images :=
    List.filter (alt_answered E url user pass)
      (all_created E url user pass 1 pairs) in
  let content := fold_left (with_figure container_str) (tail wp_images) c in
  ending (process_images E 1 pairs s) = Ok wp_images
  /\ spliced (fun b => In b (map (img_html container_str) (tail wp_images)))
       c content
  /\ exists (known_cats known_tags : list (text * json))
            (cats tags category_ids tag_ids : list json),
      ending (get_wp_categories E s) = Ok known_cats
      /\ ending (get_wp_tags E s) = Ok known_tags
      /\ names_of s "categories" cats
      /\ names_of s "tags" tags
      /\ resolve_ids known_cats cats = inr category_ids
      /\ resolve_ids known_tags tags = inr tag_ids
      /\ posts_sent (shown (publish container_str E s))
         = [PostData title (JStr content) (txt "draft") slug meta_desc
              category_ids tag_ids
              (match wp_images with
               | img :: _ => wi_id img
               | [] => JInt 0
               end)].
Proof.
  intros Hurl Huser Hpass Hc
    ((plan & v & Hplan & Hv & Hiter) & Hdescrs & Hcontent & Htitle & Hmeta
     & Hslug & (cats & Hcats & Hcats_ok) & (tags & Htags & Htags_ok)).
  cbv zeta. rewrite <- successes_created.
  assert (Forall (fun p : upfile * json => descriptor_ok (snd p))
            (combine (images s) descrs)) as Hpairs.
  { rewrite List.Forall_forall in *. intros [f d] Hin.
    apply in_combine_r in Hin. now apply Hdescrs. }
  pose proof (ending_process_images E url user pass _ s Hurl Huser Hpass Hc
                Hpairs 1%Z) as Hloop.
  set (wp_images := successes E url user pass 1 (combine (images s) descrs)) in *.
  assert (Forall heading_ok (tail wp_images)) as Hheads.
  { apply Forall_tail. now apply successes_heading_ok. }
  pose proof (splice_images_with_figures container_str _ Hheads c) as Hsplice.
  split; [exact Hloop|]. split.
  { destruct (splice_images_spliced container_str _ _ _ Hsplice)
      as (c' & [= <-] & Hs). exact Hs. }
  destruct (ending_get_wp_names E GetCategories url s Hurl) as [known_cats Hkc].
  destruct (ending_get_wp_names E GetTags url s Hurl) as [known_tags Hkt].
  destruct (resolve_ids_total known_cats cats Hcats_ok) as [category_ids Hrc].
  destruct (resolve_ids_total known_tags tags Htags_ok) as [tag_ids Hrt].
  exists known_cats, known_tags, cats, tags, category_ids, tag_ids.
  repeat split; try assumption.
  unfold publish.
  rewrite bind_load, Hplan, bind_get. cbv zeta.
  rewrite Hv, bind_lift_inr, Hiter, bind_lift_inr.
  rewrite (posts_after _ _ s wp_images (readonly_process_images _ _ _)
             (emits_process_images _ _ _ _) Hloop).
  rewrite bind_load, Hcontent. rewrite Hsplice, bind_lift_inr.
  rewrite (posts_after _ _ s known_cats (readonly_get_wp_names _ _)
             (emits_get_wp_categories _ _) Hkc).
  rewrite (posts_after _ _ s known_tags (readonly_get_wp_names _ _)
             (emits_get_wp_tags _ _) Hkt).
  rewrite bind_load_or, Hcats, bind_lift_inr, Hrc, bind_lift_inr.
  rewrite bind_load_or, Htags, bind_lift_inr, Hrt, bind_lift_inr.
  rewrite bind_load, Htitle, bind_load, Hmeta, bind_load, Hslug.
  unfold featured_image_id.
  apply (posts_create_post E s url user pass); try assumption.
  intros [post|]; [destruct (truthy post)|];
    try apply emits_show_post; apply emits_emit; exact I.
Qed.

Lemma partial_failure_still_posts_witness :
  let pairs := combine demo_files demo_descriptors in
  let wp_images :=
    List.filter
      (alt_answered second_fails (txt "https://example.org") (txt "tony")
         (txt "secret"))
      (all_created second_fails (txt "https://example.org") (txt "tony")
         (txt "secret") 1 pairs) in
  ending (process_images second_fails 1 pairs (demo_ready demo_files))
  = Ok wp_images
  /\ exists category_ids tag_ids : list json,
      posts_sent
        (shown (publish demo_container_str second_fails (demo_ready demo_files)))
      = [PostData (JStr (txt "Best budget phones"))
           (JStr (fold_left (with_figure demo_container_str) (tail wp_images)
                    demo_content))
           (txt "draft") (JStr (txt "best-budget-phones"))
           (JStr (txt "Five budget phones compared")) category_ids tag_ids
           (match wp_images with
            | img :: _ => wi_id img
            | [] => JInt 0
            end)].
Proof.
  cbv zeta.
  destruct (partial_failure_still_posts demo_container_str second_fails
              (demo_ready demo_files) (txt "https://example.org") (txt "tony")
              (txt "secret") demo_descriptors demo_content
              (JStr (txt "Best budget phones"))
              (JStr (txt "Five budget phones compared"))
              (JStr (txt "best-budget-phones"))
              eq_refl eq_refl eq_refl
              (demo_cms_contract _ _) (demo_ready_to_publish demo_files))
    as (H1 & _ & (kc & kt & cats & tags & ids & tids & _ & _ & _ & _ & _ & _ & Hp)).
  split; [exact H1|]. now exists ids, tids.
Defined.

(** C3 as stated fails: the CMS refuses the third image and creates the two
    others, the connection drops on the request that sets the alt text of the
    first, and the post carries the id of the second as its featured media,
    not the id of the first image that was uploaded. *)
Lemma featured_is_not_the_first_created :
  let E := cms_env (alt_text_down (txt "Budget phones on a desk")
                      (txt "a-winner-20250107-3.webp")) in
  let r := run demo_loads demo_container_str E (demo_press BtnPublish)
             (demo_ready demo_files) in
  map wi_id
    (all_created E (txt "https://example.org") (txt "tony") (txt "secret") 1
       (combine demo_files demo_descriptors))
  = [JInt 39; JInt 27]
  /\ map pd_featured_media (posts_sent (shown r)) = [JInt 27]
  /\ map pd_featured_media (posts_sent (shown r)) <> [JInt 39].
Proof. vm_compute. repeat split. discriminate. Qed.

(** One upload of three is refused: the two others are made, the post is
    created from them, its featured media is the first of them and the figure
    of the other is in its content. *)
Example one_of_three_fails :
  let r := run demo_loads demo_container_str second_fails (demo_press BtnPublish)
             (demo_ready demo_files) in
  map wi_alt
    (all_created second_fails (txt "https://example.org") (txt "tony")
       (txt "secret") 1 (combine demo_files demo_descriptors))
  = [txt "Budget phones on a desk"; txt "A winner"]
  /\ map pd_featured_media (posts_sent (shown r)) = [JInt 39]
  /\ map pd_content (posts_sent (shown r))
     = [JStr (txt "<h2>Top 5 Budget Phones</h2><p>Five phones.</p><h2>Verdict</h2>"
              ++ newline ++ txt "<figure class=" ++ dquote
              ++ txt "wp-block-image" ++ dquote ++ txt "><img src=" ++ dquote
              ++ txt "https://example.org/a-winner-20250107-3.webp" ++ dquote
              ++ txt " alt=" ++ dquote ++ txt "A winner" ++ dquote
              ++ txt " /><figcaption>Our pick</figcaption></figure>" ++ newline
              ++ txt "<p>Buy.</p>")]
  /\ map pd_categories (posts_sent (shown r)) = [[JInt 7]]
  /\ In (StError "WordPress upload failed") (shown r)
  /\ ending r = Ok tt.
Proof. vm_compute. repeat split. right. right. right. right. now left. Qed.

(** ** The file name as a whole *)

Lemma uint_chars (d : Decimal.uint) :
  Forall (fun c => name_char c = true) (txt (NilEmpty.string_of_uint d)).
Proof.
  induction d; cbn; constructor; (reflexivity || assumption).
Qed.

Lemma str_of_nat_chars (n : nat) :
  Forall (fun c => name_char c = true) (str_of_nat n).
Proof. apply uint_chars. Qed.

Lemma str_of_Z_chars (z : Z) : Forall (fun c => name_char c = true) (str_of_Z z).
Proof.
  unfold str_of_Z. destruct (Z.to_int z) as [d|d]; cbn.
  - apply uint_chars.
  - constructor; [reflexivity | apply uint_chars].
Qed.

Lemma str_of_Z_inj (a b : Z) : str_of_Z a = str_of_Z b -> a = b.
Proof.
  unfold str_of_Z, txt. intros H.
  apply (f_equal string_of_list_ascii) in H.
  rewrite !string_of_list_ascii_of_string in H.
  apply DecimalZ.to_int_inj.
  apply (f_equal NilEmpty.int_of_string) in H.
  rewrite !NilEmpty.isi in H. now injection H.
Qed.

Lemma uint_digits (d : Decimal.uint) :
  Forall (fun c => c <> "-"%char) (txt (NilEmpty.string_of_uint d)).
Proof. induction d; cbn; constructor; (discriminate || assumption). Qed.

Lemma str_of_Z_digits (z : Z) :
  (0 <= z)%Z -> Forall (fun c => c <> "-"%char) (str_of_Z z).
Proof.
  intros Hz. unfold str_of_Z.
  destruct z as [|p|p]; [repeat constructor; discriminate | apply uint_digits | lia].
Qed.

Lemma last_field (sep : ascii) (a : text) : forall b x y : text,
  Forall (fun c => c <> sep) x -> Forall (fun c => c <> sep) y ->
  a ++ sep :: x = b ++ sep :: y -> x = y.
Proof.
  induction a as [|c a IH]; intros [|c' b] x y Hx Hy; cbn.
  - now intros [= ->].
  - intros [= <- ->]. apply Forall_app in Hx as [_ Hx].
    inversion Hx as [|? ? Hbad _]. now destruct Hbad.
  - intros [= -> <-]. apply Forall_app in Hy as [_ Hy].
    inversion Hy as [|? ? Hbad _]. now destruct Hbad.
  - intros [= _ H]. exact (IH _ _ _ Hx Hy H).
Qed.

Lemma name_char_safe (c : ascii) :
  name_char c = true -> is_space c = false /\ path_separator c = false.
Proof. destruct c as [[] [] [] [] [] [] [] []]; vm_compute; split; congruence. Qed.

(** X19.  A file name is made of hyphens, dots and word characters that
    lowercasing leaves as they are, whatever the alt text: it holds no
    whitespace and neither a slash nor a backslash.  And on one date two
    non-negative indices that differ give two names that differ, whatever the
    two alt texts: the images of a run never share a file name. *)
Theorem filename_is_safe_and_distinct (now_ : date) (text_ other : text)
    (i j : Z) :
  Forall (fun c => name_char c = true) (generate_seo_filename now_ text_ i)
  /\ Forall (fun c => is_space c = false /\ path_separator c = false)
       (generate_seo_filename now_ text_ i)
  /\ ((0 <= i)%Z -> (0 <= j)%Z ->
      generate_seo_filename now_ text_ i = generate_seo_filename now_ other j ->
      i = j).
Proof.
  assert (Forall (fun c => name_char c = true)
            (generate_seo_filename now_ text_ i)) as Hchars; [|split; [exact Hchars|split]].
  - unfold generate_seo_filename, strftime_Ymd, pad2. cbv zeta.
    rewrite !Forall_app. repeat split.
    + eapply Forall_impl.
      * unfold seo_stem, re_sub_runs. apply Forall_take, runs_chars, delete_chars.
      * intros c Hc. cbn in Hc. unfold name_char. now rewrite Hc.
    + repeat constructor.
    + apply str_of_nat_chars.
    + destruct (month now_ <? 10); [apply Forall_app; split|];
        try apply str_of_nat_chars. repeat constructor.
    + destruct (day now_ <? 10); [apply Forall_app; split|];
        try apply str_of_nat_chars. repeat constructor.
    + repeat constructor.
    + apply str_of_Z_chars.
    + repeat constructor.
  - eapply Forall_impl; [exact Hchars|]. exact name_char_safe.
  - intros Hi Hj. unfold generate_seo_filename. cbv zeta. intros H.
    rewrite !app_assoc in H. apply app_inv_tail in H.
    apply str_of_Z_inj.
    change (txt "-") with ["-"%char] in H.
    rewrite <- !(app_assoc _ ["-"%char] (str_of_Z _)) in H.
    cbn [app] in H.
    exact (last_field "-"%char _ _ _ _ (str_of_Z_digits i Hi)
             (str_of_Z_digits j Hj) H).
Qed.

Lemma filename_is_safe_and_distinct_witness :
  generate_seo_filename (Date 2025 1 7) (txt "A phone") 1
  <> generate_seo_filename (Date 2025 1 7) (txt "A phone") 2.
Proof.
  intros H.
  destruct (filename_is_safe_and_distinct (Date 2025 1 7) (txt "A phone")
              (txt "A phone") 1 2) as (_ & _ & Hd).
  specialize (Hd ltac:(lia) ltac:(lia) H). discriminate.
Defined.

(** ** The heading splice on a heading that stands at the start of a line *)

Lemma lit_ci_match (t : text) (r : list item) : forall t' s : text,
  same_ci t' t -> match_here (lit_ci t ++ r) (t' ++ s) = match_here r s.
Proof.
  unfold same_ci, lower.
  induction t as [|x t IH]; intros [|c t'] s H; try discriminate; [reflexivity|].
  cbn in H. injection H as Hc Ht.
  cbn [lit_ci map app]. rewrite match_here_one.
  unfold chr_is_ci. rewrite Hc, Nat.eqb_refl. now apply IH.
Qed.

Lemma dot_lower_char (c : ascii) : dot (lower_char c) = dot c.
Proof. destruct c as [[] [] [] [] [] [] [] []]; reflexivity. Qed.

Lemma lt_lower_char (c : ascii) : lower_char c = "<"%char -> c = "<"%char.
Proof. destruct c as [[] [] [] [] [] [] [] []]; vm_compute; congruence. Qed.

Lemma one_line_same_ci (u v : text) : same_ci u v -> one_line v -> one_line u.
Proof.
  unfold same_ci, lower, one_line. revert v.
  induction u as [|c u IH]; intros [|x v] H Hv; try discriminate; constructor.
  - cbn in H. injection H as Hc _. inversion Hv as [|? ? Hx _]; subst.
    now rewrite <- dot_lower_char, Hc, dot_lower_char.
  - cbn in H. injection H as _ Ht. inversion Hv; subst. now apply (IH v).
Qed.

Lemma plain_same_ci (u v : text) : same_ci u v -> plain u -> plain v.
Proof.
  unfold same_ci, lower, plain. revert v.
  induction u as [|c u IH]; intros [|x v] H Hu; try discriminate; constructor.
  - cbn in H. injection H as Hc _. inversion Hu as [|? ? Hx _]; subst.
    intros ->. apply Hx. apply lt_lower_char. now rewrite Hc.
  - cbn in H. injection H as _ Ht. inversion Hu; subst. now apply IH.
Qed.

Lemma same_ci_sym (u v : text) : same_ci u v -> same_ci v u.
Proof. unfold same_ci. congruence. Qed.

Lemma closing_tag_head (cl : text) :
  same_ci cl (txt "</h2>") -> exists cl', cl = "<"%char :: cl'.
Proof.
  unfold same_ci, lower. destruct cl as [|c cl]; [discriminate|].
  cbn. intros [= Hc _]. exists cl. f_equal. now apply lt_lower_char.
Qed.

Lemma closing_tag_not_here (c : ascii) (s : text) :
  c <> "<"%char -> match_here (lit_ci (txt "</h2>")) (c :: s) = None.
Proof.
  intros Hc. change (lit_ci (txt "</h2>"))
    with (One (chr_is_ci "<"%char) :: lit_ci (txt "/h2>")).
  rewrite match_here_one.
  destruct (chr_is_ci "<"%char c) eqn:E; [|reflexivity].
  exfalso. apply Hc. apply lt_lower_char. exact (chr_is_ci_lower _ _ E).
Qed.

Lemma close_here (cl after : text) : forall q : text,
  same_ci cl (txt "</h2>") -> plain q -> one_line q ->
  match_here (Lazy dot :: lit_ci (txt "</h2>")) (q ++ cl ++ after) = Some after.
Proof.
  intros q Hcl. induction q as [|c q IH]; intros Hp Hl; rewrite match_here_lazy.
  - cbn [app].
    rewrite <- (app_nil_r (lit_ci (txt "</h2>"))).
    now rewrite (lit_ci_match _ [] cl after Hcl).
  - inversion Hp as [|? ? Hc Hp']; inversion Hl as [|? ? Hd Hl']; subst.
    cbn [app]. rewrite (closing_tag_not_here c _ Hc), Hd. now apply IH.
Qed.

Lemma plain_prefix (h1 : text) : forall q mid z : text,
  plain h1 -> h1 ++ mid = q ++ "<"%char :: z ->
  exists q', q = h1 ++ q' /\ mid = q' ++ "<"%char :: z.
Proof.
  induction h1 as [|c h1 IH]; intros q mid z Hp H.
  - now exists q.
  - inversion Hp as [|? ? Hc Hp']; subst. destruct q as [|c' q].
    + cbn in H. injection H as -> _. now contradiction Hc.
    + cbn in H. injection H as -> H.
      destruct (IH _ _ _ Hp' H) as (q' & -> & ->). now exists q'.
Qed.

Lemma plain_app (u v : text) : plain (u ++ v) <-> plain u /\ plain v.
Proof. apply Forall_app. Qed.

Lemma one_line_app (u v : text) : one_line (u ++ v) <-> one_line u /\ one_line v.
Proof. apply Forall_app. Qed.

Lemma heading_ends_after (heading cl after : text) (q r : text) :
  same_ci cl (txt "</h2>") -> plain heading -> plain q -> one_line q ->
  match_here (lit_ci heading ++ [Lazy dot] ++ lit_ci (txt "</h2>"))
    (q ++ cl ++ after) = Some r ->
  r = after.
Proof.
  intros Hcl Hh Hp Hl H.
  destruct (match_lit_ci _ _ _ _ H) as (h1 & mid & Heq & Hh1 & Hm).
  destruct (closing_tag_head _ Hcl) as [cl' ->].
  assert (plain h1) as Hp1 by exact (plain_same_ci _ _ (same_ci_sym _ _ Hh1) Hh).
  symmetry in Heq. cbn [app] in Heq.
  destruct (plain_prefix _ _ _ _ Hp1 Heq) as (q' & -> & ->).
  apply plain_app in Hp as [_ Hp]. apply one_line_app in Hl as [_ Hl].
  cbn [app] in Hm.
  change ("<"%char :: cl' ++ after) with (("<"%char :: cl') ++ after) in Hm.
  rewrite (close_here _ after q' Hcl Hp Hl) in Hm. congruence.
Qed.

Lemma lazy_to_heading (heading h' a2 cl after : text) : forall a1 : text,
  same_ci cl (txt "</h2>") -> same_ci h' heading ->
  plain (a1 ++ h' ++ a2) -> one_line (a1 ++ h' ++ a2) ->
  match_here (Lazy dot :: lit_ci heading ++ [Lazy dot] ++ lit_ci (txt "</h2>"))
    ((a1 ++ h' ++ a2) ++ cl ++ after) = Some after.
Proof.
  intros a1 Hcl Hh. induction a1 as [|c a1 IH]; intros Hp Hl;
    rewrite match_here_lazy.
  - cbn [app] in *. rewrite <- app_assoc.
    rewrite (lit_ci_match heading _ h' _ Hh). cbn [app].
    apply plain_app in Hp as [_ Hp]. apply one_line_app in Hl as [_ Hl].
    now rewrite (close_here _ after a2 Hcl Hp Hl).
  - destruct (match_here (lit_ci heading ++ [Lazy dot] ++ lit_ci (txt "</h2>"))
                (((c :: a1) ++ h' ++ a2) ++ cl ++ after)) as [r|] eqn:Hm.
    + f_equal.
      apply (heading_ends_after heading cl after ((c :: a1) ++ h' ++ a2) r Hcl);
        try assumption.
      apply plain_app in Hp as [_ Hp]. apply plain_app in Hp as [Hp _].
      exact (plain_same_ci _ _ Hh Hp).
    + inversion Hp; inversion Hl as [|? ? Hd Hl']; subst.
      cbn [app]. rewrite Hd. now apply IH.
Qed.

Lemma heading_element_matches (heading o a1 h' a2 cl after : text) :
  same_ci o (txt "<h2>") -> same_ci cl (txt "</h2>") -> same_ci h' heading ->
  plain (a1 ++ h' ++ a2) -> one_line (a1 ++ h' ++ a2) ->
  match_here (heading_pattern heading) (o ++ (a1 ++ h' ++ a2) ++ cl ++ after)
  = Some after.
Proof.
  intros Ho Hcl Hh Hp Hl. unfold heading_pattern.
  rewrite (lit_ci_match _ _ o _ Ho). cbn [app].
  now apply lazy_to_heading.
Qed.

Lemma one_line_prefix (m : text) : forall u r v : text,
  one_line m -> m ++ r = u ++ newline ++ v -> exists w, u = m ++ w.
Proof.
  induction m as [|c m IH]; intros u r v Hl H.
  - now exists u.
  - inversion Hl as [|? ? Hd Hl']; subst. destruct u as [|c' u].
    + cbn in H. injection H as -> _. discriminate.
    + cbn in H. injection H as -> H.
      destruct (IH _ _ _ Hl' H) as [w ->]. now exists w.
Qed.

Lemma no_match_before (heading before rest b1 b2 : text) :
  ends_line before -> one_line heading -> contains_ci heading before = false ->
  before = b1 ++ b2 -> b2 <> [] ->
  match_here (heading_pattern heading) (b2 ++ rest) = None.
Proof.
  intros Hend Hh Hno Heq Hb2.
  destruct (match_here _ (b2 ++ rest)) as [r|] eqn:Hm; [exfalso|reflexivity].
  destruct (heading_match _ _ _ Hm)
    as (o & x & h & y & cl & Hs & Ho & Hx & Hh' & Hy & Hcl).
  destruct Hend as [->|[b Hb]].
  { symmetry in Heq. apply app_eq_nil in Heq as [_ ->]. now apply Hb2. }
  destruct (exists_last Hb2) as (b2' & c & ->).
  assert (c = "010"%char /\ b = b1 ++ b2') as [-> ->].
  { rewrite Heq, app_assoc in Hb. unfold newline in Hb.
    apply app_inj_tail in Hb as [<- <-]. now split. }
  assert (one_line (o ++ x ++ h ++ y ++ cl)) as Hl.
  { repeat (apply one_line_app; split); try assumption.
    - exact (one_line_same_ci _ _ Ho ltac:(repeat constructor)).
    - exact (one_line_same_ci _ _ Hh' Hh).
    - exact (one_line_same_ci _ _ Hcl ltac:(repeat constructor)). }
  assert ((o ++ x ++ h ++ y ++ cl) ++ r = b2' ++ newline ++ rest) as Hs'.
  { rewrite <- !app_assoc. rewrite <- Hs. now rewrite <- app_assoc. }
  destruct (one_line_prefix _ _ _ _ Hl Hs') as [w ->].
  rewrite Heq in Hno.
  replace (b1 ++ ((o ++ x ++ h ++ y ++ cl) ++ w) ++ ["010"%char])
    with ((b1 ++ o ++ x) ++ h ++ (y ++ cl ++ w ++ ["010"%char])) in Hno
    by (now rewrite <- !app_assoc).
  now rewrite (contains_ci_part heading _ h _ Hh') in Hno.
Qed.

Lemma search_skip (items : list item) (rest : text) : forall (before : text) pos,
  (forall b1 b2, before = b1 ++ b2 -> b2 <> [] ->
                 match_here items (b2 ++ rest) = None) ->
  search_from items pos (before ++ rest)
  = search_from items (pos + length before) rest.
Proof.
  induction before as [|c before IH]; intros pos Hno.
  - cbn. now rewrite Nat.add_0_r.
  - rewrite search_from_eq.
    rewrite (Hno [] (c :: before) eq_refl ltac:(discriminate)).
    cbn [app]. rewrite IH.
    + cbn [length]. f_equal. lia.
    + intros b1 b2 -> Hb2. apply (Hno (c :: b1) b2 eq_refl Hb2).
Qed.

(** X20.  A heading element that starts a line, whose text between the tags is
    plain, stays on one line and contains the target heading, letter case
    apart, receives the figure block right after its closing tag, provided
    the target heading does not occur earlier in the article. *)
Theorem splice_heading_after_its_element
    (before o a1 h a2 cl after heading img : text) :
  ends_line before ->
  contains_ci heading before = false ->
  same_ci o (txt "<h2>") -> same_ci cl (txt "</h2>") -> same_ci h heading ->
  plain (a1 ++ h ++ a2) -> one_line (a1 ++ h ++ a2) ->
  splice_heading (before ++ o ++ (a1 ++ h ++ a2) ++ cl ++ after) heading img
  = before ++ o ++ (a1 ++ h ++ a2) ++ cl ++ img ++ after.
Proof.
  intros Hend Hno Ho Hcl Hh Hp Hl.
  assert (one_line heading) as Hlh.
  { apply one_line_app in Hl as [_ Hl]. apply one_line_app in Hl as [Hl _].
    exact (one_line_same_ci _ _ (same_ci_sym _ _ Hh) Hl). }
  unfold splice_heading, re_search.
  rewrite (search_skip _ _ before 0
             (fun b1 b2 => no_match_before heading before _ b1 b2 Hend Hlh Hno)).
  rewrite search_from_eq.
  rewrite (heading_element_matches heading o a1 h a2 cl after Ho Hcl Hh Hp Hl).
  unfold insert_at. cbn [Nat.add].
  set (inner := a1 ++ h ++ a2).
  replace (length before + (length (o ++ inner ++ cl ++ after) - length after))
    with (length (before ++ o ++ inner ++ cl))
    by (rewrite !length_app; lia).
  replace (before ++ o ++ inner ++ cl ++ after)
    with ((before ++ o ++ inner ++ cl) ++ after)
    by (now rewrite <- !app_assoc).
  rewrite take_app_length, drop_app_length.
  now rewrite <- !app_assoc.
Qed.

Lemma splice_heading_after_its_element_witness :
  splice_heading
    (txt "<p>Intro</p>" ++ newline ++ txt "<H2>1. Setup Guide</h2>"
     ++ txt "<p>x</p>") (txt "setup") (txt "<figure/>")
  = txt "<p>Intro</p>" ++ newline ++ txt "<H2>1. Setup Guide</h2>"
    ++ txt "<figure/>" ++ txt "<p>x</p>".
Proof.
  exact (splice_heading_after_its_element
           (txt "<p>Intro</p>" ++ newline) (txt "<H2>") (txt "1. ")
           (txt "Setup") (txt " Guide") (txt "</h2>") (txt "<p>x</p>")
           (txt "setup") (txt "<figure/>")
           (or_intror (ex_intro _ (txt "<p>Intro</p>") eq_refl))
           eq_refl eq_refl eq_refl eq_refl
           ltac:(repeat constructor; discriminate)
           ltac:(repeat constructor)).
Defined.

(** ** The progress indicator *)

(** X21.  On each of the six steps the progress indicator marks the labels
    before the step as done, the label of the step as the current one and the
    labels after it as pending: exactly one label is the current one. *)
Theorem progress_has_one_current (step : Z) :
  (1 <= step <= 6)%Z ->
  progress step
  = replicate (Z.to_nat (step - 1)) MarkDone ++ [MarkCurrent]
    ++ replicate (Z.to_nat (6 - step)) MarkPending.
Proof.
  intros H.
  assert (step = 1 \/ step = 2 \/ step = 3 \/ step = 4 \/ step = 5 \/ step = 6)%Z
    as Hs by lia.
  destruct Hs as [->|[->|[->|[->|[->| ->]]]]]; reflexivity.
Qed.

Lemma progress_has_one_current_witness :
  progress 3 = [MarkDone; MarkDone; MarkCurrent; MarkPending; MarkPending;
                MarkPending].
Proof. exact (progress_has_one_current 3 ltac:(lia)). Defined.
